(** * GridMove to KZones converter: a shallow embedding

    The development follows [02-run-this-script/convert_gridmove_to_kzones.py].

    - Python [str] values are Rocq strings; a character is an 8-bit code
      point, and the character classes ([str.isspace], the regex classes
      [\s] and [\d], the line boundaries of [str.splitlines]) are Python's
      on the code points below 256.
    - Python numbers are exact rationals ([Q]): the arithmetic of the
      converter ([min], [max], subtraction, comparison with 0, [round]) and
      of the expressions is modelled on the real value of the operands,
      without the rounding, overflow or NaN of binary64, and without the
      interpreter's limits on the size of an expression. Where a property
      turns on the rounding, on an infinity or on NaN, the loop of
      [convert] is followed on binary64 numbers instead (module [B64]).
    - A [dict] with string keys is a [gmap string _].
    - Exceptions are an explicit outcome of every fallible function. *)

From Stdlib Require Import ZArith QArith Qround Qminmax Lia Lqa List Ascii String Bool SpecFloat.
From stdpp Require Import base option gmap strings sorting pretty.
Import ListNotations.

Local Open Scope string_scope.
Local Open Scope list_scope.

(** ** Python strings *)

Module PyStr.

Definition code (c : ascii) : N := N_of_ascii c.

Definition in_range (lo hi : N) (c : ascii) : bool :=
  ((lo <=? code c) && (code c <=? hi))%N.

(** [str.isspace] for one character, also the regex class [\s]:
    TAB LF VT FF CR, FS GS RS US, SPACE, NEL, NBSP. *)
Definition isspace (c : ascii) : bool :=
  in_range 9 13 c || in_range 28 31 c || (code c =? 32)%N
  || (code c =? 133)%N || (code c =? 160)%N.

(** The regex class [\d]. *)
Definition isdigit (c : ascii) : bool := in_range 48 57 c.

Definition isalpha (c : ascii) : bool := in_range 65 90 c || in_range 97 122 c.

(** The characters at which [str.splitlines] cuts:
    LF VT FF CR, FS GS RS, NEL. *)
Definition is_linebreak (c : ascii) : bool :=
  in_range 10 13 c || in_range 28 30 c || (code c =? 133)%N.

Definition is_empty (s : string) : bool :=
  match s with EmptyString => true | String _ _ => false end.

(** [str.splitlines()]: CR LF counts as one boundary ([after_cr] is set
    when the previous character was a CR), and a trailing boundary opens
    no further line. *)
Fixpoint splitlines_from (after_cr : bool) (cur : string) (s : string) : list string :=
  match s with
  | EmptyString => if is_empty cur then [] else [cur]
  | String c s' =>
      if after_cr && (code c =? 10)%N then splitlines_from false cur s'
      else if is_linebreak c then cur :: splitlines_from (code c =? 13)%N "" s'
      else splitlines_from false (cur ++ String c "") s'
  end.

Definition splitlines (s : string) : list string := splitlines_from false "" s.

Fixpoint lstrip (s : string) : string :=
  match s with
  | String c s' => if isspace c then lstrip s' else s
  | EmptyString => EmptyString
  end.

Fixpoint rstrip (s : string) : string :=
  match s with
  | String c s' =>
      let r := rstrip s' in
      if is_empty r && isspace c then "" else String c r
  | EmptyString => EmptyString
  end.

(** [str.strip()] *)
Definition strip (s : string) : string := rstrip (lstrip s).

(** [s.startswith(p)] *)
Definition startswith (p s : string) : bool := String.prefix p s.

(** [s.replace(c, '')] for a one-character [c]. *)
Fixpoint remove_char (c : ascii) (s : string) : string :=
  match s with
  | String d s' => if Ascii.eqb c d then remove_char c s' else String d (remove_char c s')
  | EmptyString => EmptyString
  end.

Fixpoint forall_chars (p : ascii -> bool) (s : string) : bool :=
  match s with
  | String c s' => p c && forall_chars p s'
  | EmptyString => true
  end.

End PyStr.

(** ** The regular expressions of module [re] that the script uses

    A backtracking matcher in continuation-passing style; repetition is
    greedy and applies to a character class, which is all the script's
    patterns need. *)

Module Re.

Inductive regex : Type :=
| Eps
| Bos                                  (* ^ *)
| Eos                                  (* $ *)
| Lit (s : string)
| Star (p : ascii -> bool)             (* [class]* *)
| Plus (p : ascii -> bool)             (* [class]+ *)
| Seq (r1 r2 : regex)
| Alt (r1 r2 : regex)
| Grp (i : nat) (r : regex).           (* the i-th capturing group *)

Definition cat (rs : list regex) : regex := fold_right Seq Eps rs.
Definition alt (r : regex) (rs : list regex) : regex := fold_left Alt rs r.

Section Matcher.
Context {A : Type}.

(** The continuation receives the position reached, the text that is
    left and the groups captured so far. *)
Definition cont : Type := nat -> string -> gmap nat string -> option A.

Fixpoint lit (l s : string) : option string :=
  match l, s with
  | EmptyString, _ => Some s
  | String a l', String b s' => if Ascii.eqb a b then lit l' s' else None
  | String _ _, EmptyString => None
  end.

(** Greedy repetition: the longest run first, then one character less. *)
Fixpoint star (p : ascii -> bool) (pos : nat) (s : string)
    (k : nat -> string -> option A) : option A :=
  match s with
  | String c s' =>
      if p c then
        match star p (S pos) s' k with
        | Some r => Some r
        | None => k pos s
        end
      else k pos s
  | EmptyString => k pos s
  end.

Definition plus (p : ascii -> bool) (pos : nat) (s : string)
    (k : nat -> string -> option A) : option A :=
  match s with
  | String c s' => if p c then star p (S pos) s' k else None
  | EmptyString => None
  end.

(** [$] holds at the end of the text and before a final newline. *)
Definition at_eos (s : string) : bool :=
  match s with
  | EmptyString => true
  | String c EmptyString => (PyStr.code c =? 10)%N
  | _ => false
  end.

Fixpoint run (r : regex) (pos : nat) (s : string) (caps : gmap nat string)
    (k : cont) : option A :=
  match r with
  | Eps => k pos s caps
  | Bos => if Nat.eqb pos 0 then k pos s caps else None
  | Eos => if at_eos s then k pos s caps else None
  | Lit l =>
      match lit l s with
      | Some s' => k (pos + String.length l) s' caps
      | None => None
      end
  | Star p => star p pos s (fun pos' s' => k pos' s' caps)
  | Plus p => plus p pos s (fun pos' s' => k pos' s' caps)
  | Seq r1 r2 => run r1 pos s caps (fun pos' s' caps' => run r2 pos' s' caps' k)
  | Alt r1 r2 =>
      match run r1 pos s caps k with
      | Some x => Some x
      | None => run r2 pos s caps k
      end
  | Grp i r1 =>
      run r1 pos s caps
        (fun pos' s' caps' => k pos' s' (<[i := substring 0 (pos' - pos) s]> caps'))
  end.
End Matcher.

(** [re.match(r, s)]: anchored at the start, the groups of the match. *)
Definition re_match (r : regex) (s : string) : option (gmap nat string) :=
  run r 0 s ∅ (fun _ _ caps => Some caps).

(** [r.fullmatch(s)]: the match must consume the whole text. *)
Definition fullmatch (r : regex) (s : string) : option (gmap nat string) :=
  run r 0 s ∅ (fun _ rest caps => if PyStr.is_empty rest then Some caps else None).

(** The class [.]: any character but a newline. *)
Definition dot (c : ascii) : bool := negb (PyStr.code c =? 10)%N.

End Re.

(** ** Outcomes *)

(** The exceptions that the converter and the built-ins it calls raise. *)
Inductive exn : Type :=
| ValueError (msg : string)
| SyntaxError
| TypeError (msg : string)
| ZeroDivisionError
| KeyError (key : string)
| FileNotFoundError (path : string).

(** A call returns a value or raises; [Unmodelled] marks an input on which
    the embedding of a built-in says nothing. *)
Inductive result (A : Type) : Type :=
| Ok (a : A)
| Raise (e : exn)
| Unmodelled.

Arguments Ok {A} a.
Arguments Raise {A} e.
Arguments Unmodelled {A}.

Definition bind {A B : Type} (r : result A) (f : A -> result B) : result B :=
  match r with
  | Ok a => f a
  | Raise e => Raise e
  | Unmodelled => Unmodelled
  end.

#[export] Instance result_bind : MBind result := fun A B f r => bind r f.
#[export] Instance result_ret : MRet result := fun A a => Ok a.

(** [sys.get_int_max_str_digits()], as the interpreter starts: the most
    digits that a decimal integer is read from. *)
Definition int_max_str_digits : Z := 4300.

(** ** Python's [eval] on arithmetic expressions

    The fragment: decimal literals (digits with at most one dot, an
    integer without a leading zero), the constants [True] and [False],
    names, [+ - * /], unary signs, parentheses that group, blanks and
    tabs, and the short-circuit operators [and] and [or]. Any other form
    of the language ([**], [//], attribute access, calls, the other
    keywords, exponents, prefixes, suffixes and digit separators in
    literals, line breaks) is [Unmodelled]. *)

Module PyEval.

Inductive token : Type :=
| TNum (q : Q)
| TName (n : string)
| TPlus | TMinus | TStar | TSlash | TLPar | TRPar
| TAnd | TOr
| TOther.                  (* a token outside the fragment *)

(** The states of the scanner: between tokens, in a name, in the digits of
    a number ([sep] is set just after an underscore, which a digit has to
    follow), after the mark or the sign of an exponent, after the prefix
    of a base, after a dot, a star or a slash. *)
Inductive lstate : Type :=
| LStart
| LName (acc : string)
| LInt (ds : string) (sep : bool)
| LFrac (ip fp : string) (sep : bool)
| LExpMark (ip fp : string)
| LExpSign (ip fp : string) (neg : bool)
| LExp (ip fp : string) (neg : bool) (ds : string) (sep : bool)
| LPrefix (base : Z)
| LRadix (base acc : Z) (sep : bool)
| LDot
| LStarSeen
| LSlashSeen.

Definition keywords : list string :=
  ["False"; "None"; "True"; "as"; "assert"; "async"; "await"; "break";
   "class"; "continue"; "def"; "del"; "elif"; "else"; "except"; "finally";
   "for"; "from"; "global"; "if"; "import"; "in"; "is"; "lambda";
   "nonlocal"; "not"; "pass"; "raise"; "return"; "try"; "while"; "with";
   "yield"].

(** A word is an operator, a constant, another keyword or a name. [True]
    and [False] are the integers 1 and 0 in arithmetic, in a test and under
    [float], which is all that an expression of the fragment does with
    them. *)
Definition word (w : string) : token :=
  if String.eqb w "and" then TAnd
  else if String.eqb w "or" then TOr
  else if String.eqb w "True" then TNum 1
  else if String.eqb w "False" then TNum 0
  else if existsb (String.eqb w) keywords then TOther
  else TName w.

Definition digit_val (c : ascii) : Z := Z.of_N (PyStr.code c) - 48.

Fixpoint digits_val (acc : Z) (ds : string) : Z :=
  match ds with
  | String c ds' => digits_val (10 * acc + digit_val c) ds'
  | EmptyString => acc
  end.

(** The value of the literal [ip.fp]. *)
Definition decimal (ip fp : string) : Q :=
  Qmake (digits_val 0 (ip ++ fp)) (Z.to_pos (10 ^ Z.of_nat (String.length fp))).

(** The value of [ip.fp] with the exponent [ds], negative when [neg]. *)
Definition scaled (ip fp : string) (neg : bool) (ds : string) : Q :=
  let p := inject_Z (10 ^ digits_val 0 ds) in
  if neg then (decimal ip fp / p)%Q else (decimal ip fp * p)%Q.

Definition leading_zero (ds : string) : bool :=
  match ds with
  | String c (String _ _) => (PyStr.code c =? 48)%N
  | _ => false
  end.

Definition is_zero_char (c : ascii) : bool := (PyStr.code c =? 48)%N.

(** The digits of an integer: no zero in front, unless zeros are all there
    is, and no more digits than the interpreter converts. *)
Definition integer_literal (ds : string) : option (list token) :=
  if (int_max_str_digits <? Z.of_nat (String.length ds))%Z then None
  else if leading_zero ds && negb (PyStr.forall_chars is_zero_char ds) then None
  else Some [TNum (decimal ds "")].

(** The largest float and the smallest normal one. *)
Definition max_float : Q := inject_Z ((2 ^ 53 - 1) * 2 ^ 971).
Definition min_normal : Q := Qmake 1 (2 ^ 1022).

(** A float literal is followed when it is zero or lies between the two:
    a larger one is read as an infinity, a smaller one loses digits or
    becomes zero. *)
Definition float_literal (q : Q) : option (list token) :=
  if Qeq_bool q 0 || (Qle_bool min_normal q && Qle_bool q max_float)
  then Some [TNum q] else None.

(** The base that the letter after a first [0] announces. *)
Definition radix_of (c : ascii) : option Z :=
  let n := PyStr.code c in
  if (n =? 120)%N || (n =? 88)%N then Some 16%Z
  else if (n =? 111)%N || (n =? 79)%N then Some 8%Z
  else if (n =? 98)%N || (n =? 66)%N then Some 2%Z
  else None.

Definition radix_digit (base : Z) (c : ascii) : option Z :=
  let n := Z.of_N (PyStr.code c) in
  let d := (if PyStr.isdigit c then n - 48
            else if PyStr.in_range 97 102 c then n - 87
            else if PyStr.in_range 65 70 c then n - 55
            else base)%Z in
  if (d <? base)%Z then Some d else None.

Definition is_exp_mark (c : ascii) : bool :=
  (PyStr.code c =? 101)%N || (PyStr.code c =? 69)%N.

Definition is_underscore (c : ascii) : bool := (PyStr.code c =? 95)%N.

Definition is_name_start (c : ascii) : bool :=
  PyStr.isalpha c || is_underscore c.

Definition is_name_char (c : ascii) : bool :=
  is_name_start c || PyStr.isdigit c.

(** The tokens a state gives when the token it is reading ends. A number
    that stops after an underscore, an exponent mark, a sign or a prefix
    is none. *)
Definition flush (st : lstate) : option (list token) :=
  match st with
  | LStart => Some []
  | LName acc => Some [word acc]
  | LInt ds sep => if sep then None else integer_literal ds
  | LFrac ip fp sep => if sep then None else float_literal (decimal ip fp)
  | LExpMark _ _ | LExpSign _ _ _ | LPrefix _ => None
  | LExp ip fp neg ds sep =>
      if sep || (4 <? String.length ds)%nat then None
      else float_literal (scaled ip fp neg ds)
  | LRadix _ acc sep => if sep then None else Some [TNum (inject_Z acc)]
  | LDot => Some [TOther]
  | LStarSeen => Some [TStar]
  | LSlashSeen => Some [TSlash]
  end.

Definition start (c : ascii) : option (list token * lstate) :=
  if (PyStr.code c =? 32)%N || (PyStr.code c =? 9)%N then Some ([], LStart)
  else if is_name_start c then Some ([], LName (String c ""))
  else if PyStr.isdigit c then Some ([], LInt (String c "") false)
  else if (PyStr.code c =? 46)%N then Some ([], LDot)
  else if (PyStr.code c =? 43)%N then Some ([TPlus], LStart)
  else if (PyStr.code c =? 45)%N then Some ([TMinus], LStart)
  else if (PyStr.code c =? 40)%N then Some ([TLPar], LStart)
  else if (PyStr.code c =? 41)%N then Some ([TRPar], LStart)
  else if (PyStr.code c =? 42)%N then Some ([], LStarSeen)
  else if (PyStr.code c =? 47)%N then Some ([], LSlashSeen)
  else None.

Definition flush_start (st : lstate) (c : ascii) : option (list token * lstate) :=
  match flush st, start c with
  | Some ts, Some (ts', st') => Some (ts ++ ts', st')
  | _, _ => None
  end.

(** One character more. A letter or an underscore that cannot continue a
    number, right after it, is not followed: the interpreter refuses it
    unless a keyword starts there. *)
Definition step (st : lstate) (c : ascii) : option (list token * lstate) :=
  match st with
  | LStart => start c
  | LName acc =>
      if is_name_char c then Some ([], LName (acc ++ String c ""))
      else flush_start st c
  | LInt ds sep =>
      if PyStr.isdigit c then Some ([], LInt (ds ++ String c "") false)
      else if sep then None
      else if is_underscore c then Some ([], LInt ds true)
      else if (PyStr.code c =? 46)%N then Some ([], LFrac ds "" false)
      else if is_exp_mark c then Some ([], LExpMark ds "")
      else if String.eqb ds "0" then
        match radix_of c with
        | Some base => Some ([], LPrefix base)
        | None => if is_name_start c then None else flush_start st c
        end
      else if is_name_start c then None
      else flush_start st c
  | LFrac ip fp sep =>
      if PyStr.isdigit c then Some ([], LFrac ip (fp ++ String c "") false)
      else if sep then None
      else if is_underscore c then
        if PyStr.is_empty fp then None else Some ([], LFrac ip fp true)
      else if is_exp_mark c then Some ([], LExpMark ip fp)
      else if is_name_start c then None
      else flush_start st c
  | LExpMark ip fp =>
      if PyStr.isdigit c then Some ([], LExp ip fp false (String c "") false)
      else if (PyStr.code c =? 43)%N then Some ([], LExpSign ip fp false)
      else if (PyStr.code c =? 45)%N then Some ([], LExpSign ip fp true)
      else None
  | LExpSign ip fp neg =>
      if PyStr.isdigit c then Some ([], LExp ip fp neg (String c "") false)
      else None
  | LExp ip fp neg ds sep =>
      if PyStr.isdigit c then Some ([], LExp ip fp neg (ds ++ String c "") false)
      else if sep then None
      else if is_underscore c then Some ([], LExp ip fp neg ds true)
      else if is_name_start c then None
      else flush_start st c
  | LPrefix base =>
      if is_underscore c then Some ([], LRadix base 0 true)
      else match radix_digit base c with
           | Some d => Some ([], LRadix base d false)
           | None => None
           end
  | LRadix base acc sep =>
      match radix_digit base c with
      | Some d => Some ([], LRadix base (base * acc + d)%Z false)
      | None =>
          if is_name_char c then
            if is_underscore c && negb sep then Some ([], LRadix base acc true) else None
          else if sep then None
          else flush_start st c
      end
  | LDot =>
      if PyStr.isdigit c then Some ([], LFrac "" (String c "") false)
      else flush_start st c
  | LStarSeen =>
      if (PyStr.code c =? 42)%N then Some ([TOther], LStart) else flush_start st c
  | LSlashSeen =>
      if (PyStr.code c =? 47)%N then Some ([TOther], LStart) else flush_start st c
  end.

Fixpoint lex_from (st : lstate) (s : string) : option (list token) :=
  match s with
  | EmptyString => flush st
  | String c s' =>
      match step st c with
      | Some (ts, st') =>
          match lex_from st' s' with
          | Some ts' => Some (ts ++ ts')
          | None => None
          end
      | None => None
      end
  end.

Definition lex (s : string) : option (list token) := lex_from LStart s.

Inductive unop : Type := UPos | UNeg.
Inductive binop : Type := Add | Sub | Mul | Div | And | Or.

Inductive expr : Type :=
| ENum (q : Q)
| EName (n : string)
| EUn (op : unop) (e : expr)
| EBin (op : binop) (a b : expr).

Inductive presult : Type :=
| POk (e : expr) (rest : list token)
| PSyntax
| PUnmodelled.

(** A token where an operator or the end is expected: a call or a token
    outside the fragment is not judged, anything else is a syntax error. *)
Definition unexpected (ts : list token) : presult :=
  match ts with
  | TOther :: _ | TLPar :: _ => PUnmodelled
  | _ => PSyntax
  end.

(** Recursive descent along Python's precedence levels; the first argument
    bounds the recursion. *)
Fixpoint p_or (n : nat) (ts : list token) : presult :=
  match n with
  | O => PUnmodelled
  | S n =>
      match p_and n ts with
      | POk l r => p_or_rest n l r
      | x => x
      end
  end
with p_or_rest (n : nat) (l : expr) (ts : list token) : presult :=
  match n with
  | O => PUnmodelled
  | S n =>
      match ts with
      | TOr :: r =>
          match p_and n r with
          | POk e r' => p_or_rest n (EBin Or l e) r'
          | x => x
          end
      | _ => POk l ts
      end
  end
with p_and (n : nat) (ts : list token) : presult :=
  match n with
  | O => PUnmodelled
  | S n =>
      match p_arith n ts with
      | POk l r => p_and_rest n l r
      | x => x
      end
  end
with p_and_rest (n : nat) (l : expr) (ts : list token) : presult :=
  match n with
  | O => PUnmodelled
  | S n =>
      match ts with
      | TAnd :: r =>
          match p_arith n r with
          | POk e r' => p_and_rest n (EBin And l e) r'
          | x => x
          end
      | _ => POk l ts
      end
  end
with p_arith (n : nat) (ts : list token) : presult :=
  match n with
  | O => PUnmodelled
  | S n =>
      match p_term n ts with
      | POk l r => p_arith_rest n l r
      | x => x
      end
  end
with p_arith_rest (n : nat) (l : expr) (ts : list token) : presult :=
  match n with
  | O => PUnmodelled
  | S n =>
      match ts with
      | TPlus :: r =>
          match p_term n r with
          | POk e r' => p_arith_rest n (EBin Add l e) r'
          | x => x
          end
      | TMinus :: r =>
          match p_term n r with
          | POk e r' => p_arith_rest n (EBin Sub l e) r'
          | x => x
          end
      | _ => POk l ts
      end
  end
with p_term (n : nat) (ts : list token) : presult :=
  match n with
  | O => PUnmodelled
  | S n =>
      match p_factor n ts with
      | POk l r => p_term_rest n l r
      | x => x
      end
  end
with p_term_rest (n : nat) (l : expr) (ts : list token) : presult :=
  match n with
  | O => PUnmodelled
  | S n =>
      match ts with
      | TStar :: r =>
          match p_factor n r with
          | POk e r' => p_term_rest n (EBin Mul l e) r'
          | x => x
          end
      | TSlash :: r =>
          match p_factor n r with
          | POk e r' => p_term_rest n (EBin Div l e) r'
          | x => x
          end
      | _ => POk l ts
      end
  end
with p_factor (n : nat) (ts : list token) : presult :=
  match n with
  | O => PUnmodelled
  | S n =>
      match ts with
      | TPlus :: r =>
          match p_factor n r with
          | POk e r' => POk (EUn UPos e) r'
          | x => x
          end
      | TMinus :: r =>
          match p_factor n r with
          | POk e r' => POk (EUn UNeg e) r'
          | x => x
          end
      | TNum q :: r => POk (ENum q) r
      | TName v :: r => POk (EName v) r
      | TLPar :: TRPar :: _ => PUnmodelled       (* the empty tuple *)
      | TLPar :: r =>
          match p_or n r with
          | POk e (TRPar :: r') => POk e r'
          | POk _ r' => unexpected r'
          | x => x
          end
      | TOther :: _ => PUnmodelled
      | _ => PSyntax
      end
  end.

Definition parse (ts : list token) : presult :=
  match p_or (8 * S (List.length ts)) ts with
  | POk e [] => POk e []
  | POk _ rest => unexpected rest
  | x => x
  end.

(** [__debug__] is a constant of the compiler and [__builtins__] is bound
    in the globals the script passes: neither is an ordinary name. *)
Definition reserved_name (n : string) : bool :=
  String.eqb n "__debug__" || String.eqb n "__builtins__".

(** A name that is absent from the locals and from the globals is looked up
    in the builtins, which the script sets to [None]: subscripting [None]
    raises a [TypeError] where an ordinary [eval] raises a [NameError]. *)
Definition unbound_name_error : string := "'NoneType' object is not subscriptable".

Definition truthy (v : Q) : bool := negb (Qeq_bool v 0).

Fixpoint eval_expr (env : gmap string Q) (e : expr) : result Q :=
  match e with
  | ENum q => Ok q
  | EName n =>
      if reserved_name n then Unmodelled
      else match env !! n with
           | Some v => Ok v
           | None => Raise (TypeError unbound_name_error)
           end
  | EUn UPos a => v ← eval_expr env a; Ok v
  | EUn UNeg a => v ← eval_expr env a; Ok (- v)%Q
  | EBin Or a b => v ← eval_expr env a; if truthy v then Ok v else eval_expr env b
  | EBin And a b => v ← eval_expr env a; if truthy v then eval_expr env b else Ok v
  | EBin Add a b => x ← eval_expr env a; y ← eval_expr env b; Ok (x + y)%Q
  | EBin Sub a b => x ← eval_expr env a; y ← eval_expr env b; Ok (x - y)%Q
  | EBin Mul a b => x ← eval_expr env a; y ← eval_expr env b; Ok (x * y)%Q
  | EBin Div a b =>
      x ← eval_expr env a; y ← eval_expr env b;
      if Qeq_bool y 0 then Raise ZeroDivisionError else Ok (x / y)%Q
  end.

Definition parse_string (s : string) : presult :=
  match lex s with
  | Some ts => parse ts
  | None => PUnmodelled
  end.

(** [float(eval(s, {"__builtins__": None}, env))] *)
Definition py_eval (s : string) (env : gmap string Q) : result Q :=
  match parse_string s with
  | POk e _ => eval_expr env e
  | PSyntax => Raise SyntaxError
  | PUnmodelled => Unmodelled
  end.

(** The names an expression mentions, and the expressions without a
    short-circuit operator. *)
Fixpoint names (e : expr) : list string :=
  match e with
  | ENum _ => []
  | EName n => [n]
  | EUn _ a => names a
  | EBin _ a b => names a ++ names b
  end.

Fixpoint arithmetic (e : expr) : bool :=
  match e with
  | ENum _ | EName _ => true
  | EUn _ a => arithmetic a
  | EBin (And | Or) _ _ => false
  | EBin _ a b => arithmetic a && arithmetic b
  end.

End PyEval.

(** ** The converter *)

Local Open Scope Q_scope.

(** [round(v, 3)]: to the nearest multiple of 1/1000, a tie to the even one. *)
Definition round_half_even (q : Q) : Z :=
  let f := Qfloor q in
  match Qcompare (q - inject_Z f) (1 # 2) with
  | Lt => f
  | Gt => (f + 1)%Z
  | Eq => if Z.even f then f else (f + 1)%Z
  end.

Definition round3 (v : Q) : Q := Qred (Qmake (round_half_even (v * 1000)) 1000).

(** A group of [parse_groups]: the recognised keys and their raw values. *)
Abbreviation group := (gmap string string).

(** A zone of the output: the dict with keys x, y, width and height. *)
Record zone : Type := Zone { z_x : Q; z_y : Q; z_width : Q; z_height : Q }.

Record layout : Type := Layout { l_name : string; l_padding : Z; l_zones : list zone }.

Definition VARS : gmap string Q :=
  {[ "Monitor1Left" := 0; "Monitor1Top" := 0;
     "Monitor1Width" := 100; "Monitor1Height" := 100;
     "Monitor1Right" := 100; "Monitor1Bottom" := 100 ]}.

(** The class [[A-Za-z0-9_\.\+\-\*\/\(\)\s]]. *)
Definition safe_char (c : ascii) : bool :=
  PyStr.isalpha c || PyStr.isdigit c
  || existsb (Ascii.eqb c) (list_ascii_of_string "_.+-*/()")
  || PyStr.isspace c.

Definition SAFE_PATTERN : Re.regex := Re.cat [Re.Bos; Re.Plus safe_char; Re.Eos].

(** [^\[(\d+)\]] *)
Definition HEADER : Re.regex :=
  Re.cat [Re.Bos; Re.Lit "["; Re.Grp 1 (Re.Plus PyStr.isdigit); Re.Lit "]"].

(** [^(GridTop|GridBottom|GridLeft|GridRight)\s*=\s*(.+)$] *)
Definition KEYVALUE : Re.regex :=
  Re.cat [Re.Bos;
          Re.Grp 1 (Re.alt (Re.Lit "GridTop")
                      [Re.Lit "GridBottom"; Re.Lit "GridLeft"; Re.Lit "GridRight"]);
          Re.Star PyStr.isspace; Re.Lit "="; Re.Star PyStr.isspace;
          Re.Grp 2 (Re.Plus Re.dot); Re.Eos].

(** [expr.replace('[','').replace(']','')] *)
Definition strip_brackets (expr : string) : string :=
  PyStr.remove_char "]" (PyStr.remove_char "[" expr).

(** [a < b] *)
Definition lt (a b : Q) : bool := negb (Qle_bool b a).

(** [min(a, b)] and [max(a, b)]: the first argument stays unless the second
    is smaller, respectively greater. *)
Definition py_min (a b : Q) : Q := if lt b a then b else a.
Definition py_max (a b : Q) : Q := if lt a b then b else a.

(** [clamp(v)], with the default bounds 0.0 and 100.0 of every call. *)
Definition clamp (v : Q) : Q := py_max 0 (py_min 100 v).

(** [v > 0] *)
Definition positive (v : Q) : bool := lt 0 v.

(** *** parse_groups *)

Record pstate : Type := PState { groups : list group; cur : option group }.

(** [if cur: groups.append(cur)]: [None] and the empty dict are both false. *)
Definition flush (st : pstate) : list group :=
  match cur st with
  | Some g => if bool_decide (g = ∅) then groups st else groups st ++ [g]
  | None => groups st
  end.

(** The body of the loop over the lines. *)
Definition parse_line (st : pstate) (raw : string) : pstate :=
  let line := PyStr.strip raw in
  if PyStr.is_empty line || PyStr.startswith ";" line then st
  else
    match Re.re_match HEADER line with
    | Some _ => PState (flush st) (Some ∅)
    | None =>
        match cur st with
        | None => st
        | Some g =>
            match Re.re_match KEYVALUE line with
            | Some kv =>
                match kv !! 1%nat, kv !! 2%nat with
                | Some k, Some v => PState (groups st) (Some (<[k := v]> g))
                | _, _ => st
                end
            | None => st
            end
        end
    end.

Definition parse_groups (text : string) : list group :=
  flush (fold_left parse_line (PyStr.splitlines text) (PState [] None)).

(** *** The groups and the zones *)

Definition GRID_KEYS : list string := ["GridLeft"; "GridRight"; "GridTop"; "GridBottom"].

(** [k in g] *)
Definition has_key (g : group) (k : string) : bool := bool_decide (is_Some (g !! k)).

(** [g[k]] *)
Definition getitem (g : group) (k : string) : result string :=
  match g !! k with
  | Some v => Ok v
  | None => Raise (KeyError k)
  end.

(** The key of the dedupe loop, and membership in [seen]: tuples are equal
    when their numbers are. *)
Definition key (z : zone) : Q * Q * Q * Q := (z_x z, z_y z, z_width z, z_height z).

Definition key_eqb (a b : Q * Q * Q * Q) : bool :=
  let '(a1, a2, a3, a4) := a in
  let '(b1, b2, b3, b4) := b in
  Qeq_bool a1 b1 && Qeq_bool a2 b2 && Qeq_bool a3 b3 && Qeq_bool a4 b4.

Definition seen_mem (k : Q * Q * Q * Q) (seen : list (Q * Q * Q * Q)) : bool :=
  existsb (key_eqb k) seen.

(** The second loop of [convert]. *)
Fixpoint dedupe_from (uniq : list zone) (seen : list (Q * Q * Q * Q))
    (zones : list zone) : list zone :=
  match zones with
  | [] => uniq
  | z :: zs =>
      if negb (seen_mem (key z) seen)
      then dedupe_from (uniq ++ [z]) (key z :: seen) zs
      else dedupe_from uniq seen zs
  end.

Definition dedupe (zones : list zone) : list zone := dedupe_from [] [] zones.

Definition make_layout (zones : list zone) (name : string) : list layout :=
  [Layout (name ++ " (converted)") 0 zones].

(** *** The file system of convert_file

    The file system holds the text of the input files and the documents
    written by [json.dumps]; a document is kept as the layout list it
    serialises. The messages printed after the write are left out. *)

Inductive content : Type :=
| Text (s : string)
| Json (doc : list layout).

Record filesystem : Type := FS { files : gmap string content; dirs : gset string }.

(** A [pathlib.Path], split the way the script reads it. *)
Record path : Type := Path { p_parent : string; p_stem : string; p_suffix : string }.

Definition path_str (p : path) : string :=
  p_parent p ++ "/" ++ p_stem p ++ p_suffix p.

Definition read_text (fs : filesystem) (p : path) : result string :=
  match files fs !! path_str p with
  | Some (Text s) => Ok s
  | Some (Json _) => Unmodelled
  | None => Raise (FileNotFoundError (path_str p))
  end.

(** *** safe_eval, convert and convert_file *)

Section Converter.

(** [py_eval s env] stands for [float(eval(s, {"__builtins__": None}, env))]. *)
Variable py_eval : string -> gmap string Q -> result Q.

Definition safe_eval (expr : string) : result Q :=
  let expr := strip_brackets expr in
  match Re.fullmatch SAFE_PATTERN expr with
  | None => Raise (ValueError ("Unsafe/unsupported expression: " ++ expr))
  | Some _ => py_eval expr VARS
  end.

(** The body of the first loop of [convert]: the zones after group [g]. *)
Definition convert_group (zones : list zone) (g : group) : result (list zone) :=
  if negb (forallb (has_key g) GRID_KEYS) then Ok zones
  else
    L ← (getitem g "GridLeft" ≫= safe_eval);
    R ← (getitem g "GridRight" ≫= safe_eval);
    T ← (getitem g "GridTop" ≫= safe_eval);
    B ← (getitem g "GridBottom" ≫= safe_eval);
    let x := clamp (py_min L R) in
    let y := clamp (py_min T B) in
    let w := clamp (py_max L R) - x in
    let h := clamp (py_max T B) - y in
    let x := clamp x in
    let y := clamp y in
    let w := clamp w in
    let h := clamp h in
    if positive w && positive h
    then Ok (zones ++ [Zone (round3 x) (round3 y) (round3 w) (round3 h)])
    else Ok zones.

Fixpoint collect_zones (zones : list zone) (gs : list group) : result (list zone) :=
  match gs with
  | [] => Ok zones
  | g :: gs' => zones' ← convert_group zones g; collect_zones zones' gs'
  end.

Definition convert (gs : list group) : result (list zone) :=
  zones ← collect_zones [] gs; Ok (dedupe zones).

(** The file system after the call, and the destination or the exception.
    [mkdir(parents=True, exist_ok=True)] is followed where the parent of
    the output directory exists, as it does for the output directory of
    the root: the output directory is the one directory it can add. *)
Definition convert_file (fs : filesystem) (src_path : path) (outdir : string)
    : filesystem * result path :=
  let computed :=
    text ← read_text fs src_path;
    let groups := parse_groups text in
    zones ← convert groups;
    Ok (make_layout zones (p_stem src_path)) in
  match computed with
  | Ok doc =>
      let dst := Path outdir (p_stem src_path ++ "_kzones") ".json" in
      (FS (<[path_str dst := Json doc]> (files fs)) ({[outdir]} ∪ dirs fs), Ok dst)
  | Raise e => (fs, Raise e)
  | Unmodelled => (fs, Unmodelled)
  end.

End Converter.

(** *** The rectangle as the specification words it

    Section 4.3 of the specification: minimum and width from the raw edges,
    each clamped on its own afterwards. Kept apart from [convert_group] to
    compare the two. *)
Definition specified_zone (L R T B : Q) : zone :=
  let x := py_min L R in
  let y := py_min T B in
  let w := py_max L R - x in
  let h := py_max T B - y in
  Zone (round3 (clamp x)) (round3 (clamp y)) (round3 (clamp w)) (round3 (clamp h)).

(** The error kind [UnsafeExpression] of the specification (section 7): the
    expression fails the allow-list, which [safe_eval] reports with a
    [ValueError], or references an unbound name, which the evaluation
    reports with a [TypeError]. *)
Definition UnsafeExpression (e : exn) : Prop :=
  match e with
  | ValueError _ | TypeError _ => True
  | _ => False
  end.

(** An expression with every bracket deleted, in one pass over its
    characters. *)
Fixpoint delete_brackets (e : string) : string :=
  match e with
  | String c e' =>
      if Ascii.eqb c "[" || Ascii.eqb c "]" then delete_brackets e'
      else String c (delete_brackets e')
  | EmptyString => EmptyString
  end.

(** The first occurrences of a list of zones, as section 4.4 words them: a
    zone stays when no zone before it in the input has its four numbers. *)
Fixpoint first_occurrences_after (earlier : list zone) (zones : list zone) : list zone :=
  match zones with
  | [] => []
  | z :: zs =>
      (if existsb (fun z' => key_eqb (key z) (key z')) earlier then [] else [z])
      ++ first_occurrences_after (earlier ++ [z]) zs
  end.

Definition first_occurrences (zones : list zone) : list zone :=
  first_occurrences_after [] zones.

(** *** Inputs of the scenarios *)

(** A complete group with the given raw values. *)
Definition edges (l r t b : string) : group :=
  {[ "GridLeft" := l; "GridRight" := r; "GridTop" := t; "GridBottom" := b ]}.

(** A text from its lines, joined by LF. *)
Definition lines (ls : list string) : string := String.concat (String "010" "") ls.

(** ** The command line

    The functions around the converter: the helpers for the layout of the
    repository, the choice of the input file and [main]. What they print is
    left out. *)

(** *** Repo helpers *)

(** [input_dir(root)] and [output_dir(root)]; a directory is the text of its
    path, and [/] joins a directory and a name. *)
Definition input_dir (root : string) : string := root ++ "/01-paste-grids-here".
Definition output_dir (root : string) : string := root ++ "/03-kzone-output".

(** [rel_to_root] works on pure paths. Its two arguments are absolute paths
    without [.] and [..], each given by the list of its components. *)

(** [p.relative_to(root)]: the components of [p] below [root]; [None] is the
    [ValueError] raised when [root] is not a prefix of [p]. *)
Fixpoint relative_to (p root : list string) {struct root} : option (list string) :=
  match root, p with
  | [], _ => Some p
  | r :: root', c :: p' => if String.eqb r c then relative_to p' root' else None
  | _ :: _, [] => None
  end.

(** The components that [os.path.relpath(p, start)] joins: one [..] for each
    component of [start] after the common prefix, then the rest of [p]. *)
Fixpoint relpath_parts (p start : list string) {struct start} : list string :=
  match start, p with
  | s :: start', c :: p' =>
      if String.eqb s c then relpath_parts p' start'
      else repeat ".." (List.length start) ++ p
  | _, _ => repeat ".." (List.length start) ++ p
  end.

(** The text of a relative path: its components joined by [/], and [.] when
    there is none. *)
Definition join_posix (parts : list string) : string :=
  match parts with
  | [] => "."
  | _ => String.concat "/" parts
  end.

Definition rel_to_root (p root : list string) : string :=
  match relative_to p root with
  | Some rest => join_posix rest
  | None => join_posix (relpath_parts p root)
  end.

(** *** Names and texts *)

(** [str.lower] for one character. *)
Definition lower_char (c : ascii) : ascii :=
  if PyStr.in_range 65 90 c || PyStr.in_range 192 214 c || PyStr.in_range 216 222 c
  then ascii_of_N (PyStr.code c + 32)
  else c.

Fixpoint lower (s : string) : string :=
  match s with
  | String c s' => String (lower_char c) (lower s')
  | EmptyString => EmptyString
  end.

(** [str.isdigit]: the decimal digits and the superscripts 1, 2 and 3, which
    [int] does not read. *)
Definition isdigit_char (c : ascii) : bool :=
  PyStr.isdigit c || (PyStr.code c =? 178)%N || (PyStr.code c =? 179)%N
  || (PyStr.code c =? 185)%N.

Definition str_isdigit (s : string) : bool :=
  negb (PyStr.is_empty s) && PyStr.forall_chars isdigit_char s.

(** The decimal digits at the start of a text: what [int] counts against
    its limit. *)
Fixpoint leading_digits (s : string) : nat :=
  match s with
  | String c s' => if PyStr.isdigit c then S (leading_digits s') else O
  | EmptyString => O
  end.

(** [int(s)] for a text that [str.isdigit] accepts (Python 3.11). A text
    that starts with more digits than the limit is refused before anything
    else; the other message holds the first 200 characters of [repr(s)]. *)
Definition int_of_digits (s : string) : result Z :=
  let n := leading_digits s in
  if (int_max_str_digits <? Z.of_nat n)%Z then
    Raise (ValueError ("Exceeds the limit (4300 digits) for integer string conversion: value has "
                       ++ pretty (N.of_nat n)
                       ++ " digits; use sys.set_int_max_str_digits() to increase the limit"))
  else if PyStr.forall_chars PyStr.isdigit s then Ok (PyEval.digits_val 0 s)
  else Raise (ValueError ("invalid literal for int() with base 10: "
                          ++ String.substring 0 200 ("'" ++ s ++ "'"))).

(** [name.rfind('.')] *)
Fixpoint rfind_dot (name : string) : option nat :=
  match name with
  | EmptyString => None
  | String c name' =>
      match rfind_dot name' with
      | Some i => Some (S i)
      | None => if Ascii.eqb c "." then Some O else None
      end
  end.

(** The [stem] and the [suffix] of a path with the given [name]. *)
Definition split_name (name : string) : string * string :=
  match rfind_dot name with
  | Some i =>
      if Nat.ltb 0 i && Nat.ltb i (String.length name - 1)
      then (substring 0 i name, substring i (String.length name - i) name)
      else (name, "")
  | None => (name, "")
  end.

(** The path of the entry [name] of the directory [dir]. *)
Definition path_of (dir name : string) : path :=
  Path dir (fst (split_name name)) (snd (split_name name)).

(** [p.name] *)
Definition p_name (p : path) : string := p_stem p ++ p_suffix p.

(** *** find_ini_files *)

Fixpoint after_prefix (pre s : string) : option string :=
  match pre, s with
  | EmptyString, _ => Some s
  | String a pre', String b s' => if Ascii.eqb a b then after_prefix pre' s' else None
  | String _ _, EmptyString => None
  end.

(** The name of the file at [p] when [p] lies in the directory [dir] itself. *)
Definition child_name (dir p : string) : option string :=
  match after_prefix (dir ++ "/") p with
  | Some name =>
      if PyStr.is_empty name || negb (PyStr.forall_chars (fun c => negb (Ascii.eqb c "/")) name)
      then None else Some name
  | None => None
  end.

(** The names of [p for p in dir.glob("*") if p.is_file()], in some order. *)
Definition dir_files (fs : filesystem) (dir : string) : list string :=
  omap (child_name dir) (map_to_list (files fs)).*1.

(** [name] is a regular file of the directory [dir] itself. *)
Definition in_dir (fs : filesystem) (dir name : string) : Prop :=
  is_Some (files fs !! (dir ++ "/" ++ name)%string) /\
  PyStr.is_empty name = false /\
  PyStr.forall_chars (fun c => negb (Ascii.eqb c "/")) name = true.

(** [p.suffix.lower() in (".ini", ".txt")] *)
Definition is_grid_name (name : string) : bool :=
  let s := lower (snd (split_name name)) in
  String.eqb s ".ini" || String.eqb s ".txt".

(** [sorted] on the paths of one directory: the order of their names,
    character by character. *)
Definition sorted_paths (dir : string) (names : list string) : list path :=
  map (path_of dir) (merge_sort String.le names).

Definition find_ini_files (fs : filesystem) (indir : string) : list path :=
  let found := sorted_paths indir (List.filter is_grid_name (dir_files fs indir)) in
  match found with
  | [] => sorted_paths indir (dir_files fs indir)
  | _ => found
  end.

(** *** choose_file and main *)

(** How a call ends: it returns, exits through [sys.exit], or an exception
    leaves it; [EndOfInput] is the [EOFError] of [input] at the end of the
    standard input. *)
Inductive termination (A : Type) : Type :=
| Returns (a : A)
| SystemExit (code : Z)
| Uncaught (e : exn)
| EndOfInput
| NotModelled.

Arguments Returns {A} a.
Arguments SystemExit {A} code.
Arguments Uncaught {A} e.
Arguments EndOfInput {A}.
Arguments NotModelled {A}.

(** The exit status of the process. *)
Definition exit_status {A : Type} (t : termination A) : option Z :=
  match t with
  | Returns _ => Some 0%Z
  | SystemExit code => Some code
  | Uncaught _ | EndOfInput => Some 1%Z
  | NotModelled => None
  end.

(** [1 <= idx <= len(files)] *)
Definition in_listing {A : Type} (files : list A) (idx : Z) : bool :=
  ((1 <=? idx) && (idx <=? Z.of_nat (List.length files)))%Z.

(** [files[idx-1]] for an index within the list. *)
Definition nth_file {A : Type} (files : list A) (idx : Z) : option A :=
  files !! Z.to_nat (idx - 1).

Definition quit_words : list string := ["q"; "quit"; "exit"].

(** The loop of [choose_file]; [stdin] holds the lines that [input] reads. *)
Fixpoint choose_file (files : list path) (stdin : list string) : termination path :=
  match stdin with
  | [] => EndOfInput
  | ln :: stdin' =>
      let choice := lower (PyStr.strip ln) in
      if existsb (String.eqb choice) quit_words then SystemExit 0
      else if str_isdigit choice then
        match int_of_digits choice with
        | Ok idx =>
            if in_listing files idx then
              match nth_file files idx with
              | Some f => Returns f
              | None => NotModelled
              end
            else choose_file files stdin'
        | Raise e => Uncaught e
        | Unmodelled => NotModelled
        end
      else choose_file files stdin'
  end.

(** The namespace that [parse_args] returns. *)
Record namespace : Type := Namespace { ns_index : option Z; ns_file : option string }.

(** [src.exists()] and [src.is_dir()] *)
Definition path_exists (fs : filesystem) (p : path) : bool :=
  bool_decide (is_Some (files fs !! path_str p)) || bool_decide (path_str p ∈ dirs fs).

Definition is_file (fs : filesystem) (p : path) : bool :=
  bool_decide (is_Some (files fs !! path_str p)).

Section Main.

Variable py_eval : string -> gmap string Q -> result Q.

(** [resolve_file f] stands for [Path(f)], joined to the working directory
    and resolved when [f] is relative. *)
Variable resolve_file : string -> path.

(** The call [convert_file(src, outdir, root)] at the end of [main]. The
    model does not follow it when the source is a directory, when the path
    of the output directory is a regular file or when the destination is a
    directory: the exceptions of these cases are not among those of the
    model. *)
Definition run_convert_file (fs : filesystem) (src : path) (outdir : string)
    : filesystem * termination unit :=
  let dst := Path outdir (p_stem src ++ "_kzones") ".json" in
  if (path_exists fs src && negb (is_file fs src))
     || bool_decide (is_Some (files fs !! outdir))
     || bool_decide (path_str dst ∈ dirs fs)
  then (fs, NotModelled)
  else
    match convert_file py_eval fs src outdir with
    | (fs', Ok _) => (fs', Returns tt)
    | (fs', Raise e) => (fs', Uncaught e)
    | (fs', Unmodelled) => (fs', NotModelled)
    end.

(** [main] from [files = find_ini_files(indir)] on. *)
Definition main_listing (root : string) (args : namespace) (stdin : list string)
    (fs : filesystem) : filesystem * termination unit :=
  let outdir := output_dir root in
  let files := find_ini_files fs (input_dir root) in
  match files with
  | [] => (fs, SystemExit 1)
  | _ =>
      match ns_index args with
      | Some idx =>
          if negb (in_listing files idx) then (fs, SystemExit 1)
          else
            match nth_file files idx with
            | Some src => run_convert_file fs src outdir
            | None => (fs, NotModelled)
            end
      | None =>
          match choose_file files stdin with
          | Returns src => run_convert_file fs src outdir
          | SystemExit code => (fs, SystemExit code)
          | Uncaught e => (fs, Uncaught e)
          | EndOfInput => (fs, EndOfInput)
          | NotModelled => (fs, NotModelled)
          end
      end
  end.

(** [main] from line 165 on, given the namespace that [parse_args] has
    returned: [if args.file] is false for the empty text as for [None]. *)
Definition main (root : string) (args : namespace) (stdin : list string)
    (fs : filesystem) : filesystem * termination unit :=
  match ns_file args with
  | Some f =>
      if PyStr.is_empty f then main_listing root args stdin fs
      else
        let src := resolve_file f in
        if negb (path_exists fs src) then (fs, SystemExit 1)
        else run_convert_file fs src (output_dir root)
  | None => main_listing root args stdin fs
  end.

(** [parse_args argv] stands for [parser.parse_args(argv)] of line 163: it
    returns the namespace, or ends the process on its own, with status 2
    on a command line it rejects and with status 0 after [--help]. *)
Variable parse_args : list string -> termination namespace.

(** [main(argv)]: nothing but the parser runs before the arguments are
    parsed. *)
Definition main_argv (root : string) (argv : list string) (stdin : list string)
    (fs : filesystem) : filesystem * termination unit :=
  match parse_args argv with
  | Returns args => main root args stdin fs
  | SystemExit code => (fs, SystemExit code)
  | Uncaught e => (fs, Uncaught e)
  | EndOfInput => (fs, EndOfInput)
  | NotModelled => (fs, NotModelled)
  end.

End Main.

(** *** Walking a relative path

    The path reached from [base] along the components [rel], to compare
    with [rel_to_root]. *)
Fixpoint walk (base : list string) (rel : list string) : list string :=
  match rel with
  | [] => base
  | c :: rel' =>
      if String.eqb c ".." then walk (removelast base) rel'
      else if String.eqb c "." then walk base rel'
      else walk (base ++ [c]) rel'
  end.

(** *** The lines that count

    The lines of a text as [parse_groups] reads them: stripped, without the
    blank lines and the comment lines. *)
Definition significant_lines (text : string) : list string :=
  List.filter (fun line => negb (PyStr.is_empty line || PyStr.startswith ";" line))
    (map PyStr.strip (PyStr.splitlines text)).

(** What [parse_groups] keeps true of a group: its keys are grid keys and
    its values are not empty. *)
Definition well_keyed (g : group) : Prop :=
  forall k v, g !! k = Some v -> In k GRID_KEYS /\ PyStr.is_empty v = false.

(** The components that [rel_to_root] joins. *)
Definition rel_parts (p root : list string) : list string :=
  match relative_to p root with
  | Some rest => rest
  | None => relpath_parts p root
  end.

(** ** The converter on binary64 numbers

    Python's [float] is binary64. Where a property turns on the rounding
    of the numbers, on an infinity or on NaN, the loop of [convert] is
    followed on [spec_float], the floating-point numbers of the Standard
    Library, with 53 bits of precision and the exponents of binary64. *)

Module B64.

Definition prec : Z := 53.
Definition emax : Z := 1024.

(** [float(n)] for an integer [n]. *)
Definition of_Z (n : Z) : spec_float := binary_normalize prec emax n 0 false.

Definition zero : spec_float := S754_zero false.
Definition hundred : spec_float := of_Z 100.
Definition thousand : spec_float := of_Z 1000.

(** The number that a finite value stands for. *)
Definition value_pos (m : BinNums.positive) (e : Z) : Q :=
  match e with
  | Z0 => inject_Z (Zpos m)
  | Zpos p => inject_Z (Zpos m * 2 ^ Zpos p)
  | Zneg p => Zpos m # 2 ^ p
  end.

Definition value (x : spec_float) : option Q :=
  match x with
  | S754_zero _ => Some 0
  | S754_finite s m e => Some (if s then - value_pos m e else value_pos m e)
  | S754_infinity _ | S754_nan => None
  end.

(** [a < b]: false when one of the two is NaN. *)
Definition lt (a b : spec_float) : bool := SFltb a b.

(** [min(a, b)] and [max(a, b)]: the first argument stays unless the second
    is smaller, respectively greater. *)
Definition py_min (a b : spec_float) : spec_float := if lt b a then b else a.
Definition py_max (a b : spec_float) : spec_float := if lt a b then b else a.

(** [clamp(v)], with the default bounds 0.0 and 100.0 of every call. *)
Definition clamp (v : spec_float) : spec_float := py_max zero (py_min hundred v).

(** [a - b] *)
Definition sub (a b : spec_float) : spec_float := SFsub prec emax a b.

(** [v > 0] *)
Definition positive (v : spec_float) : bool := lt zero v.

(** An integer as it stands, with all its digits: an operand of a division,
    which rounds the exact quotient of its operands, once. *)
Definition integer (k : Z) : spec_float :=
  match k with
  | Z0 => S754_zero false
  | Zpos p => S754_finite false p 0
  | Zneg p => S754_finite true p 0
  end.

(** [round(v, 3)]. The interpreter writes the number with 3 decimals,
    correctly rounded with a tie to the even digit, and reads the decimals
    back to the nearest float: the quotient, rounded once, of the integer
    [k] nearest to 1000 times the number and of 1000. A zero, an infinity
    and NaN are returned as they are. *)
Definition round3 (v : spec_float) : spec_float :=
  match v with
  | S754_finite s m e =>
      let k := round_half_even (value_pos m e * 1000) in
      let r := SFdiv prec emax (integer k) thousand in
      if s then SFopp r else r
  | _ => v
  end.

Record zone : Type :=
  Zone { z_x : spec_float; z_y : spec_float; z_width : spec_float; z_height : spec_float }.

Definition VARS : gmap string spec_float :=
  {[ "Monitor1Left" := zero; "Monitor1Top" := zero;
     "Monitor1Width" := hundred; "Monitor1Height" := hundred;
     "Monitor1Right" := hundred; "Monitor1Bottom" := hundred ]}.

(** The key of the dedupe loop and membership in [seen]: tuples of numbers
    are equal when their numbers are. *)
Definition key_eqb (a b : zone) : bool :=
  SFeqb (z_x a) (z_x b) && SFeqb (z_y a) (z_y b)
  && SFeqb (z_width a) (z_width b) && SFeqb (z_height a) (z_height b).

Fixpoint dedupe_from (uniq seen zones : list zone) : list zone :=
  match zones with
  | [] => uniq
  | z :: zs =>
      if negb (existsb (key_eqb z) seen)
      then dedupe_from (uniq ++ [z]) (z :: seen) zs
      else dedupe_from uniq seen zs
  end.

Definition dedupe (zones : list zone) : list zone := dedupe_from [] [] zones.

Section Converter.

(** [py_eval s env] stands for [float(eval(s, {"__builtins__": None}, env))]. *)
Variable py_eval : string -> gmap string spec_float -> result spec_float.

Definition safe_eval (expr : string) : result spec_float :=
  let expr := strip_brackets expr in
  match Re.fullmatch SAFE_PATTERN expr with
  | None => Raise (ValueError ("Unsafe/unsupported expression: " ++ expr))
  | Some _ => py_eval expr VARS
  end.

(** The body of the first loop of [convert]: the zones after group [g]. *)
Definition convert_group (zones : list zone) (g : group) : result (list zone) :=
  if negb (forallb (has_key g) GRID_KEYS) then Ok zones
  else
    L ← (getitem g "GridLeft" ≫= safe_eval);
    R ← (getitem g "GridRight" ≫= safe_eval);
    T ← (getitem g "GridTop" ≫= safe_eval);
    B ← (getitem g "GridBottom" ≫= safe_eval);
    let x := clamp (py_min L R) in
    let y := clamp (py_min T B) in
    let w := sub (clamp (py_max L R)) x in
    let h := sub (clamp (py_max T B)) y in
    let x := clamp x in
    let y := clamp y in
    let w := clamp w in
    let h := clamp h in
    if positive w && positive h
    then Ok (zones ++ [Zone (round3 x) (round3 y) (round3 w) (round3 h)])
    else Ok zones.

Fixpoint collect_zones (zones : list zone) (gs : list group) : result (list zone) :=
  match gs with
  | [] => Ok zones
  | g :: gs' => zones' ← convert_group zones g; collect_zones zones' gs'
  end.

Definition convert (gs : list group) : result (list zone) :=
  zones ← collect_zones [] gs; Ok (dedupe zones).

End Converter.

(** *** The evaluator on literals and names

    An integer and a float literal that denote the same number give the
    same float, the nearest one, as long as numerator and denominator of
    the decimal are floats themselves; an operation on two numbers is left
    out, since the integers of Python are not rounded. A value is kept
    when it is a binary64 number, which [valid_binary] tests. *)

Definition check (v : spec_float) : result spec_float :=
  if valid_binary prec emax v then Ok v else Unmodelled.

Definition literal (q : Q) : result spec_float :=
  if (Z.abs (Qnum q) <? 2 ^ 53)%Z && (Zpos (Qden q) <? 2 ^ 53)%Z
  then check (SFdiv prec emax (of_Z (Qnum q)) (of_Z (Zpos (Qden q))))
  else Unmodelled.

Definition eval_expr (env : gmap string spec_float) (e : PyEval.expr) : result spec_float :=
  match e with
  | PyEval.ENum q | PyEval.EUn PyEval.UPos (PyEval.ENum q) => literal q
  | PyEval.EUn PyEval.UNeg (PyEval.ENum q) =>
      if Qeq_bool q 0 then Unmodelled else v ← literal q; Ok (SFopp v)
  | PyEval.EName n =>
      if PyEval.reserved_name n then Unmodelled
      else match env !! n with
           | Some v => check v
           | None => Raise (TypeError PyEval.unbound_name_error)
           end
  | _ => Unmodelled
  end.

Definition py_eval (s : string) (env : gmap string spec_float) : result spec_float :=
  match PyEval.parse_string s with
  | PyEval.POk e _ => eval_expr env e
  | PyEval.PSyntax => Raise SyntaxError
  | PyEval.PUnmodelled => Unmodelled
  end.

(** The evaluator with one expression more: [1e999-1e999], the difference
    of two infinities, which is NaN. *)
Definition py_eval_nan (s : string) (env : gmap string spec_float) : result spec_float :=
  if String.eqb s "1e999-1e999"
  then Ok (sub (S754_infinity false) (S754_infinity false))
  else py_eval s env.

(** The order of the binary64 numbers on the integers: a finite number by
    its multiple of the smallest positive one, the infinities beyond. *)
Definition ord_inf : Z := 2 ^ 2098.

Definition ord (x : spec_float) : Z :=
  match x with
  | S754_zero _ => 0
  | S754_finite s m e => let n := (Zpos m * 2 ^ (e + 1074))%Z in if s then (- n)%Z else n
  | S754_infinity s => if s then (- ord_inf)%Z else ord_inf
  | S754_nan => 0
  end.

(** What [round3] returns for the number whose 1000-fold is nearest to the
    integer [k]. *)
Definition rounded (k : Z) : spec_float := SFdiv prec emax (integer k) thousand.

Definition is_nan (x : spec_float) : bool :=
  match x with S754_nan => true | _ => false end.

(** A binary64 number, and an evaluator that returns such numbers. *)
Definition valid (x : spec_float) : bool := valid_binary prec emax x.

Definition returns_floats (py_eval : string -> gmap string spec_float -> result spec_float)
    : Prop :=
  forall s env v, py_eval s env = Ok v -> valid v = true.

(** What [clamp] returns: a bound, or a number strictly between the
    bounds. *)
Definition clamped (c : spec_float) : Prop :=
  c = zero \/ c = hundred \/ (lt zero c = true /\ lt c hundred = true).

(** A number of the plane, from 0 to 100. *)
Definition in_plane (x : spec_float) : Prop :=
  exists q, value x = Some q /\ 0 <= q <= 100.

End B64.

(** * Properties *)

(** ** Numbers *)

Lemma lt_spec a b : lt a b = true <-> a < b.
Proof.
  unfold lt. rewrite negb_true_iff.
  split; intros H.
  - apply Qnot_le_lt. intros Hle. apply Qle_bool_iff in Hle. congruence.
  - destruct (Qle_bool b a) eqn:E; [|reflexivity].
    apply Qle_bool_iff in E. exfalso. apply (Qlt_not_le _ _ H E).
Qed.

Lemma positive_spec v : positive v = true <-> 0 < v.
Proof. apply lt_spec. Qed.

(** Python's [min] and [max] of two numbers are those of the library. *)
Lemma py_min_Qmin a b : py_min a b = Qmin a b.
Proof.
  unfold py_min, Qmin, GenericMinMax.gmin.
  destruct (lt b a) eqn:E.
  - assert (C : Qcompare a b = Gt) by (apply Qgt_alt, lt_spec, E).
    rewrite C. reflexivity.
  - destruct (Qcompare a b) eqn:C; try reflexivity.
    apply Qgt_alt, lt_spec in C. congruence.
Qed.

Lemma py_max_Qmax a b : py_max a b = Qmax a b.
Proof.
  unfold py_max, Qmax, GenericMinMax.gmax.
  destruct (lt a b) eqn:E.
  - assert (C : Qcompare a b = Lt) by (apply Qlt_alt, lt_spec, E).
    rewrite C. reflexivity.
  - destruct (Qcompare a b) eqn:C; try reflexivity.
    apply Qlt_alt, lt_spec in C. congruence.
Qed.

Lemma clamp_bounds v : 0 <= clamp v <= 100.
Proof.
  unfold clamp. rewrite py_max_Qmax, py_min_Qmin. split.
  - apply Q.le_max_l.
  - apply Q.max_lub; [discriminate|apply Q.le_min_l].
Qed.

Lemma clamp_id v : 0 <= v <= 100 -> clamp v == v.
Proof.
  intros [H0 H1]. unfold clamp. rewrite py_max_Qmax, py_min_Qmin.
  rewrite (Q.min_r 100 v) by exact H1.
  apply Q.max_r. exact H0.
Qed.

Lemma clamp_le a b : a <= b -> clamp a <= clamp b.
Proof.
  intros H. unfold clamp. rewrite !py_max_Qmax, !py_min_Qmin.
  apply Q.max_le_compat_l. apply Q.min_le_compat_l. exact H.
Qed.

Lemma round_half_even_spec q :
  inject_Z (round_half_even q) - (1 # 2) <= q <= inject_Z (round_half_even q) + (1 # 2)
  /\ ((q == inject_Z (round_half_even q) - (1 # 2) \/ q == inject_Z (round_half_even q) + (1 # 2))
      -> Z.even (round_half_even q) = true).
Proof.
  unfold round_half_even.
  pose proof (Qfloor_le q) as Hlo. pose proof (Qlt_floor q) as Hhi.
  rewrite inject_Z_plus in Hhi. change (inject_Z 1) with 1 in Hhi.
  set (f := Qfloor q) in *.
  destruct (Qcompare (q - inject_Z f) (1 # 2)) eqn:E.
  - apply Qeq_alt in E.
    destruct (Z.even f) eqn:Ev.
    + split; [lra|]. intros _. exact Ev.
    + rewrite inject_Z_plus. change (inject_Z 1) with 1.
      split; [lra|]. intros _.
      rewrite Z.even_add, Ev. reflexivity.
  - apply Qlt_alt in E. split; [lra|]. intros [H|H]; lra.
  - apply Qgt_alt in E. rewrite inject_Z_plus. change (inject_Z 1) with 1.
    split; [lra|]. intros [H|H]; lra.
Qed.
Lemma round_half_even_proper q q' : q == q' -> round_half_even q = round_half_even q'.
Proof.
  intros H. unfold round_half_even.
  rewrite (Qfloor_comp _ _ H).
  assert (E : Qcompare (q - inject_Z (Qfloor q')) (1 # 2)
              = Qcompare (q' - inject_Z (Qfloor q')) (1 # 2)).
  { apply Qcompare_comp; [rewrite H|]; reflexivity. }
  rewrite E. reflexivity.
Qed.

Lemma round3_proper v v' : v == v' -> round3 v = round3 v'.
Proof.
  intros H. unfold round3.
  rewrite (round_half_even_proper (v * 1000) (v' * 1000)); [reflexivity|].
  rewrite H. reflexivity.
Qed.

Lemma round_half_even_le q (N : Z) : q <= inject_Z N -> (round_half_even q <= N)%Z.
Proof.
  intros H. destruct (round_half_even_spec q) as [[Hlo _] _].
  apply Z.lt_succ_r. rewrite Zlt_Qlt.
  unfold Z.succ. rewrite inject_Z_plus. change (inject_Z 1) with 1. lra.
Qed.

Lemma round_half_even_ge q (N : Z) : inject_Z N <= q -> (N <= round_half_even q)%Z.
Proof.
  intros H. destruct (round_half_even_spec q) as [[_ Hhi] _].
  apply Z.lt_succ_r. rewrite Zlt_Qlt.
  unfold Z.succ. rewrite inject_Z_plus. change (inject_Z 1) with 1. lra.
Qed.

Lemma round3_value v : round3 v == inject_Z (round_half_even (v * 1000)) / 1000.
Proof.
  unfold round3. rewrite Qred_correct. unfold Qeq, Qdiv, Qmult, Qinv, inject_Z. simpl. lia.
Qed.

Lemma round3_nonneg v : 0 <= v -> 0 <= round3 v.
Proof.
  intros H. rewrite round3_value.
  assert (Hn : (0 <= round_half_even (v * 1000))%Z).
  { apply round_half_even_ge. change (inject_Z 0) with 0. lra. }
  rewrite Zle_Qle in Hn. change (inject_Z 0) with 0 in Hn.
  apply Qle_shift_div_l; lra.
Qed.

Lemma round3_le_100 v : v <= 100 -> round3 v <= 100.
Proof.
  intros H. rewrite round3_value.
  assert (Hn : (round_half_even (v * 1000) <= 100000)%Z).
  { apply round_half_even_le. change (inject_Z 100000) with 100000. lra. }
  rewrite Zle_Qle in Hn. change (inject_Z 100000) with 100000 in Hn.
  apply Qle_shift_div_r; lra.
Qed.

(** ** Strings and patterns *)

Lemma delete_brackets_strip e : delete_brackets e = strip_brackets e.
Proof.
  unfold strip_brackets. induction e as [|c e IH]; [reflexivity|].
  cbn [delete_brackets PyStr.remove_char].
  destruct (Ascii.eqb_spec c "[") as [->|Hl].
  - cbn. exact IH.
  - rewrite (proj2 (Ascii.eqb_neq "[" c)) by congruence.
    cbn [PyStr.remove_char orb].
    rewrite (Ascii.eqb_sym "]" c).
    destruct (Ascii.eqb c "]"); [exact IH|].
    rewrite IH. reflexivity.
Qed.

Lemma delete_brackets_idem e : delete_brackets (delete_brackets e) = delete_brackets e.
Proof.
  induction e as [|c e IH]; [reflexivity|].
  cbn [delete_brackets].
  destruct (Ascii.eqb c "[" || Ascii.eqb c "]") eqn:E; [exact IH|].
  cbn [delete_brackets]. rewrite E, IH. reflexivity.
Qed.

Lemma strip_brackets_idem e : strip_brackets (strip_brackets e) = strip_brackets e.
Proof. rewrite <- !delete_brackets_strip. apply delete_brackets_idem. Qed.

Lemma star_to_end {A} p pos s (k : nat -> string -> option A) :
  (forall n c r, k n (String c r) = None) ->
  Re.star p pos s k =
  if PyStr.forall_chars p s then k (pos + String.length s)%nat "" else None.
Proof.
  intros Hk. revert pos. induction s as [|c s IH]; intros pos.
  - cbn. rewrite Nat.add_0_r. reflexivity.
  - cbn [Re.star PyStr.forall_chars String.length].
    destruct (p c); cbn [andb]; [|apply Hk].
    rewrite IH, Hk, Nat.add_succ_comm.
    destruct (PyStr.forall_chars p s); [|reflexivity].
    destruct (k (pos + S (String.length s))%nat ""); reflexivity.
Qed.

Lemma fullmatch_SAFE_PATTERN s :
  Re.fullmatch SAFE_PATTERN s =
  if negb (PyStr.is_empty s) && PyStr.forall_chars safe_char s then Some ∅ else None.
Proof.
  unfold Re.fullmatch, SAFE_PATTERN. cbn [Re.cat fold_right Re.run Nat.eqb].
  destruct s as [|c s]; [reflexivity|].
  cbn [Re.plus PyStr.is_empty negb andb PyStr.forall_chars].
  destruct (safe_char c); [|reflexivity].
  cbn [andb]. rewrite star_to_end.
  - destruct (PyStr.forall_chars safe_char s); reflexivity.
  - intros n d r. cbn. destruct r; [destruct (PyStr.code d =? 10)%N|]; reflexivity.
Qed.

Lemma header_line line :
  is_Some (Re.re_match HEADER line) ->
  PyStr.is_empty line || PyStr.startswith ";" line = false.
Proof.
  intros [m Hm]. destruct line as [|c l]; [discriminate Hm|].
  unfold Re.re_match, HEADER in Hm. cbn [Re.cat fold_right Re.run Nat.eqb Re.lit] in Hm.
  destruct (Ascii.eqb_spec "[" c) as [<-|]; [reflexivity|discriminate Hm].
Qed.

(** ** The dedupe loop *)

Lemma key_eqb_iff a b :
  key_eqb a b = true <->
  a.1.1.1 == b.1.1.1 /\ a.1.1.2 == b.1.1.2 /\ a.1.2 == b.1.2 /\ a.2 == b.2.
Proof.
  destruct a as [[[a1 a2] a3] a4], b as [[[b1 b2] b3] b4]. cbn.
  rewrite !andb_true_iff, !Qeq_bool_iff. tauto.
Qed.

Lemma key_eqb_refl a : key_eqb a a = true.
Proof. apply key_eqb_iff. repeat split; reflexivity. Qed.

Lemma key_eqb_sym a b : key_eqb a b = key_eqb b a.
Proof.
  destruct (key_eqb a b) eqn:E1, (key_eqb b a) eqn:E2; try reflexivity.
  - apply key_eqb_iff in E1. destruct E1 as (H1 & H2 & H3 & H4).
    rewrite <- E2. symmetry. apply key_eqb_iff. repeat split; symmetry; assumption.
  - apply key_eqb_iff in E2. destruct E2 as (H1 & H2 & H3 & H4).
    rewrite <- E1. apply key_eqb_iff. repeat split; symmetry; assumption.
Qed.

Lemma key_eqb_trans a b c :
  key_eqb a b = true -> key_eqb b c = true -> key_eqb a c = true.
Proof.
  rewrite !key_eqb_iff. intros (H1 & H2 & H3 & H4) (G1 & G2 & G3 & G4).
  repeat split; etransitivity; eassumption.
Qed.

Lemma existsb_key_eqb_compat k k' (l : list zone) :
  key_eqb k k' = true ->
  existsb (fun z => key_eqb k (key z)) l = existsb (fun z => key_eqb k' (key z)) l.
Proof.
  intros E. induction l as [|z l IH]; [reflexivity|]. cbn. rewrite IH. f_equal.
  destruct (key_eqb k (key z)) eqn:E1, (key_eqb k' (key z)) eqn:E2; try reflexivity.
  - rewrite key_eqb_sym in E. rewrite (key_eqb_trans _ _ _ E E1) in E2. discriminate.
  - rewrite (key_eqb_trans _ _ _ E E2) in E1. discriminate.
Qed.

Lemma dedupe_from_first_occurrences zs : forall uniq seen earlier,
  (forall k, seen_mem k seen = existsb (fun z => key_eqb k (key z)) earlier) ->
  dedupe_from uniq seen zs = uniq ++ first_occurrences_after earlier zs.
Proof.
  induction zs as [|z zs IH]; intros uniq seen earlier Inv.
  - cbn. rewrite app_nil_r. reflexivity.
  - cbn [dedupe_from first_occurrences_after]. rewrite Inv.
    destruct (existsb (fun z' => key_eqb (key z) (key z')) earlier) eqn:E; cbn [negb].
    + apply IH. intros k. rewrite Inv, existsb_app. cbn.
      rewrite orb_false_r.
      destruct (key_eqb k (key z)) eqn:Ek; [|rewrite orb_false_r; reflexivity].
      rewrite (existsb_key_eqb_compat _ _ earlier Ek), E. reflexivity.
    + rewrite (IH (uniq ++ [z]) (key z :: seen) (earlier ++ [z])).
      * rewrite <- app_assoc. reflexivity.
      * intros k.
        change (seen_mem k (key z :: seen)) with (key_eqb k (key z) || seen_mem k seen).
        rewrite Inv, existsb_app. cbn.
        rewrite orb_false_r. apply orb_comm.
Qed.

Lemma dedupe_first_occurrences zs : dedupe zs = first_occurrences zs.
Proof.
  unfold dedupe, first_occurrences.
  rewrite (dedupe_from_first_occurrences zs [] [] []); [reflexivity|].
  intros k. reflexivity.
Qed.

Lemma first_occurrences_after_new zs : forall earlier z,
  In z (first_occurrences_after earlier zs) ->
  In z zs /\ existsb (fun e => key_eqb (key z) (key e)) earlier = false.
Proof.
  induction zs as [|a zs IH]; intros earlier z Hin; [destruct Hin|].
  cbn [first_occurrences_after] in Hin. apply in_app_iff in Hin.
  destruct Hin as [Hin|Hin].
  - destruct (existsb (fun z' => key_eqb (key a) (key z')) earlier) eqn:E;
      [destruct Hin|].
    destruct Hin as [<-|[]]. split; [left; reflexivity|exact E].
  - apply IH in Hin. destruct Hin as [Hin Hex].
    rewrite existsb_app in Hex. apply orb_false_iff in Hex.
    split; [right; exact Hin|apply Hex].
Qed.

Lemma first_occurrences_after_distinct zs : forall earlier,
  ForallOrdPairs (fun a b => key_eqb (key a) (key b) = false)
    (first_occurrences_after earlier zs).
Proof.
  induction zs as [|z zs IH]; intros earlier; [constructor|].
  cbn [first_occurrences_after].
  destruct (existsb (fun z' => key_eqb (key z) (key z')) earlier); cbn [app].
  - apply IH.
  - constructor; [|apply IH].
    apply List.Forall_forall. intros z' Hin.
    apply first_occurrences_after_new in Hin. destruct Hin as [_ Hex].
    rewrite existsb_app in Hex. apply orb_false_iff in Hex.
    destruct Hex as [_ Hex]. cbn in Hex. rewrite orb_false_r in Hex.
    rewrite key_eqb_sym. exact Hex.
Qed.

Lemma dedupe_In zs z : In z (dedupe zs) -> In z zs.
Proof.
  rewrite dedupe_first_occurrences. intros H.
  apply first_occurrences_after_new in H. apply H.
Qed.

Lemma dedupe_pair z z' : key_eqb (key z) (key z') = true -> dedupe [z; z'] = [z].
Proof.
  intros E. unfold dedupe. cbn [dedupe_from app].
  unfold seen_mem. cbn [existsb negb].
  rewrite key_eqb_sym in E. rewrite E. reflexivity.
Qed.

(** ** The conversion loop *)

Ltac unfold_bind := unfold mbind, result_bind, bind in *.

Lemma has_key_true (g : group) k v : g !! k = Some v -> has_key g k = true.
Proof. intros H. unfold has_key. apply bool_decide_eq_true. eauto. Qed.

Lemma has_key_false (g : group) k : g !! k = None -> has_key g k = false.
Proof.
  intros H. unfold has_key. apply bool_decide_eq_false.
  rewrite H. intros [v Hv]. discriminate.
Qed.

Lemma missing_key_incomplete (g : group) k :
  In k GRID_KEYS -> g !! k = None -> forallb (has_key g) GRID_KEYS = false.
Proof.
  intros Hin Hk. apply not_true_is_false. intros Hall.
  rewrite forallb_forall in Hall. specialize (Hall k Hin).
  rewrite (has_key_false g k Hk) in Hall. discriminate.
Qed.

Lemma edges_normalised L R :
  let x := clamp (py_min L R) in
  let w := clamp (py_max L R) - x in
  clamp x == x /\ clamp w == w /\ 0 <= x <= 100 /\ 0 <= w /\ x + w <= 100.
Proof.
  intros x w.
  pose proof (clamp_bounds (py_min L R)) as Hx.
  pose proof (clamp_bounds (py_max L R)) as Hm.
  assert (Hle : clamp (py_min L R) <= clamp (py_max L R)).
  { apply clamp_le. rewrite py_min_Qmin, py_max_Qmax.
    apply Qle_trans with L; [apply Q.le_min_l|apply Q.le_max_l]. }
  fold x in Hx, Hle. subst w.
  split; [apply clamp_id; exact Hx|].
  split; [apply clamp_id; lra|].
  split; [exact Hx|]. split; lra.
Qed.

Lemma positive_proper v v' : v == v' -> positive v = positive v'.
Proof.
  intros H. destruct (positive v') eqn:E.
  - apply positive_spec. apply positive_spec in E. lra.
  - destruct (positive v) eqn:E'; [|reflexivity].
    apply positive_spec in E'. rewrite <- E. symmetry. apply positive_spec. lra.
Qed.

Section ConverterFacts.

Variable py_eval : string -> gmap string Q -> result Q.

Lemma convert_group_incomplete zones (g : group) :
  forallb (has_key g) GRID_KEYS = false -> convert_group py_eval zones g = Ok zones.
Proof. intros H. unfold convert_group. rewrite H. reflexivity. Qed.

(** A complete group: the four evaluations in their order, then the zone
    of the clamped edges. *)
Lemma convert_group_edges zones (g : group) sL sR sT sB :
  g !! "GridLeft" = Some sL -> g !! "GridRight" = Some sR ->
  g !! "GridTop" = Some sT -> g !! "GridBottom" = Some sB ->
  convert_group py_eval zones g =
  L ← safe_eval py_eval sL; R ← safe_eval py_eval sR;
  T ← safe_eval py_eval sT; B ← safe_eval py_eval sB;
  let x := clamp (py_min L R) in
  let y := clamp (py_min T B) in
  let w := clamp (py_max L R) - x in
  let h := clamp (py_max T B) - y in
  Ok (zones ++ if positive w && positive h
               then [Zone (round3 x) (round3 y) (round3 w) (round3 h)] else []).
Proof.
  intros HL HR HT HB.
  unfold convert_group. cbn [forallb GRID_KEYS].
  rewrite (has_key_true g _ _ HL), (has_key_true g _ _ HR),
    (has_key_true g _ _ HT), (has_key_true g _ _ HB).
  cbn [andb negb]. unfold getitem. rewrite HL, HR, HT, HB.
  unfold_bind.
  destruct (safe_eval py_eval sL) as [L| |]; try reflexivity.
  destruct (safe_eval py_eval sR) as [R| |]; try reflexivity.
  destruct (safe_eval py_eval sT) as [T| |]; try reflexivity.
  destruct (safe_eval py_eval sB) as [B| |]; try reflexivity.
  cbn zeta.
  destruct (edges_normalised L R) as (Hx & Hw & _).
  destruct (edges_normalised T B) as (Hy & Hh & _).
  rewrite (positive_proper _ _ Hw), (positive_proper _ _ Hh).
  rewrite (round3_proper _ _ Hx), (round3_proper _ _ Hy),
    (round3_proper _ _ Hw), (round3_proper _ _ Hh).
  destruct (positive _ && positive _); [reflexivity|].
  rewrite app_nil_r. reflexivity.
Qed.

(** What a group can add to the zones. *)
Lemma convert_group_inv zones (g : group) zs :
  convert_group py_eval zones g = Ok zs ->
  zs = zones \/
  exists L R T B,
    let x := clamp (py_min L R) in
    let y := clamp (py_min T B) in
    let w := clamp (py_max L R) - x in
    let h := clamp (py_max T B) - y in
    0 < w /\ 0 < h /\
    zs = zones ++ [Zone (round3 x) (round3 y) (round3 w) (round3 h)].
Proof.
  intros H.
  destruct (forallb (has_key g) GRID_KEYS) eqn:Hall.
  - cbn [forallb GRID_KEYS] in Hall. rewrite !andb_true_iff in Hall.
    destruct Hall as (HL & HR & HT & HB & _).
    unfold has_key in HL, HR, HT, HB.
    apply bool_decide_eq_true in HL, HR, HT, HB.
    destruct HL as [sL HL], HR as [sR HR], HT as [sT HT], HB as [sB HB].
    rewrite (convert_group_edges zones g _ _ _ _ HL HR HT HB) in H.
    unfold_bind.
    destruct (safe_eval py_eval sL) as [L| |]; try discriminate H.
    destruct (safe_eval py_eval sR) as [R| |]; try discriminate H.
    destruct (safe_eval py_eval sT) as [T| |]; try discriminate H.
    destruct (safe_eval py_eval sB) as [B| |]; try discriminate H.
    cbn zeta in H. injection H as <-.
    destruct (positive (clamp (py_max L R) - clamp (py_min L R))
              && positive (clamp (py_max T B) - clamp (py_min T B))) eqn:Hp.
    + right. exists L, R, T, B. cbn zeta.
      apply andb_true_iff in Hp. destruct Hp as [Hw Hh].
      apply positive_spec in Hw, Hh. auto.
    + left. apply app_nil_r.
  - rewrite (convert_group_incomplete zones g Hall) in H. injection H as <-.
    left. reflexivity.
Qed.

Lemma collect_zones_app gs1 : forall zones gs2,
  collect_zones py_eval zones (gs1 ++ gs2) =
  zs ← collect_zones py_eval zones gs1; collect_zones py_eval zs gs2.
Proof.
  induction gs1 as [|g gs1 IH]; intros zones gs2; [reflexivity|].
  cbn [app collect_zones]. unfold_bind.
  destruct (convert_group py_eval zones g); try reflexivity.
  apply IH.
Qed.

Lemma collect_zones_Forall (P : zone -> Prop) gs : forall zones zs,
  (forall L R T B,
      let x := clamp (py_min L R) in
      let y := clamp (py_min T B) in
      let w := clamp (py_max L R) - x in
      let h := clamp (py_max T B) - y in
      0 < w -> 0 < h -> P (Zone (round3 x) (round3 y) (round3 w) (round3 h))) ->
  Forall P zones ->
  collect_zones py_eval zones gs = Ok zs -> Forall P zs.
Proof.
  induction gs as [|g gs IH]; intros zones zs HP Hz H.
  - cbn in H. injection H as <-. exact Hz.
  - cbn [collect_zones] in H. unfold_bind.
    destruct (convert_group py_eval zones g) as [zones'| |] eqn:E; try discriminate H.
    apply (IH zones' zs HP); [|exact H].
    apply convert_group_inv in E. destruct E as [->|(L & R & T & B & Hw & Hh & ->)];
      [exact Hz|].
    apply Forall_app. split; [exact Hz|].
    constructor; [|constructor]. apply HP; assumption.
Qed.

End ConverterFacts.

(** ** The evaluator *)

Lemma eval_expr_modelled env e :
  (forall m, In m (PyEval.names e) -> PyEval.reserved_name m = false) ->
  PyEval.eval_expr env e <> Unmodelled.
Proof.
  induction e as [q|n|op a IHa|op a IHa b IHb]; intros Hres; cbn [PyEval.eval_expr].
  - discriminate.
  - rewrite (Hres n) by (left; reflexivity).
    destruct (env !! n); discriminate.
  - specialize (IHa Hres). unfold_bind.
    destruct op, (PyEval.eval_expr env a); congruence.
  - cbn [PyEval.names] in Hres.
    assert (Ha : PyEval.eval_expr env a <> Unmodelled).
    { apply IHa. intros m Hm. apply Hres, in_app_iff. left. exact Hm. }
    assert (Hb : PyEval.eval_expr env b <> Unmodelled).
    { apply IHb. intros m Hm. apply Hres, in_app_iff. right. exact Hm. }
    unfold_bind.
    destruct op, (PyEval.eval_expr env a) as [x| |]; try congruence;
      try (destruct (PyEval.truthy x); congruence);
      destruct (PyEval.eval_expr env b) as [y| |]; try congruence.
    destruct (Qeq_bool y 0); congruence.
Qed.

Lemma eval_expr_unbound env e n :
  PyEval.arithmetic e = true ->
  In n (PyEval.names e) -> env !! n = None ->
  (forall m, In m (PyEval.names e) -> PyEval.reserved_name m = false) ->
  exists x, PyEval.eval_expr env e = Raise x.
Proof.
  induction e as [q|v|op a IHa|op a IHa b IHb]; intros Har Hin Hn Hres;
    cbn [PyEval.names] in Hin, Hres; cbn [PyEval.eval_expr].
  - destruct Hin.
  - destruct Hin as [->|[]]. rewrite (Hres n) by (left; reflexivity).
    rewrite Hn. eauto.
  - destruct (IHa Har Hin Hn Hres) as [x Hx]. unfold_bind.
    destruct op; rewrite Hx; eauto.
  - assert (Hab : PyEval.arithmetic a = true /\ PyEval.arithmetic b = true).
    { destruct op; cbn in Har; try discriminate; apply andb_true_iff, Har. }
    destruct Hab as [Ha Hb].
    assert (Hra : forall m, In m (PyEval.names a) -> PyEval.reserved_name m = false).
    { intros m Hm. apply Hres, in_app_iff. left. exact Hm. }
    assert (Hrb : forall m, In m (PyEval.names b) -> PyEval.reserved_name m = false).
    { intros m Hm. apply Hres, in_app_iff. right. exact Hm. }
    pose proof (eval_expr_modelled env a Hra) as Ma.
    apply in_app_iff in Hin. unfold_bind.
    destruct Hin as [Hin|Hin].
    + destruct (IHa Ha Hin Hn Hra) as [x Hx].
      destruct op; try discriminate Har; rewrite Hx; eauto.
    + destruct (IHb Hb Hin Hn Hrb) as [x Hx].
      destruct op; try discriminate Har;
        destruct (PyEval.eval_expr env a) as [va| |]; try congruence; eauto;
        rewrite Hx; eauto.
Qed.

(** A property of every zone made from clamped edges holds of every zone
    of a conversion. *)
Lemma convert_Forall (P : zone -> Prop) py_eval gs zs :
  (forall L R T B,
      let x := clamp (py_min L R) in
      let y := clamp (py_min T B) in
      let w := clamp (py_max L R) - x in
      let h := clamp (py_max T B) - y in
      0 < w -> 0 < h -> P (Zone (round3 x) (round3 y) (round3 w) (round3 h))) ->
  convert py_eval gs = Ok zs -> Forall P zs.
Proof.
  intros HP H. unfold convert in H. unfold_bind.
  destruct (collect_zones py_eval [] gs) as [zones| |] eqn:E; try discriminate H.
  injection H as <-.
  apply (collect_zones_Forall py_eval P gs [] zones HP) in E; [|constructor].
  rewrite List.Forall_forall in E |- *.
  intros z Hin. apply E, dedupe_In, Hin.
Qed.

(** ** Binary64 *)

(** *** The numbers *)

Lemma digits2_pos_bounds (m : BinNums.positive) :
  (2 ^ (Zpos (digits2_pos m) - 1) <= Zpos m < 2 ^ Zpos (digits2_pos m))%Z.
Proof.
  induction m as [m IH|m IH|]; cbn [digits2_pos].
  - rewrite Pos2Z.inj_succ.
    replace (Z.succ (Zpos (digits2_pos m)) - 1)%Z with (Z.succ (Zpos (digits2_pos m) - 1))%Z by lia.
    rewrite !Z.pow_succ_r by lia. lia.
  - rewrite Pos2Z.inj_succ.
    replace (Z.succ (Zpos (digits2_pos m)) - 1)%Z with (Z.succ (Zpos (digits2_pos m) - 1))%Z by lia.
    rewrite !Z.pow_succ_r by lia. lia.
  - cbn. lia.
Qed.

(** A finite binary64 number: the exponent lies between those of the
    smallest and of the largest number, the mantissa has 53 bits at most,
    and exactly 53 above the smallest exponent. *)
Lemma valid_finite s m e :
  B64.valid (S754_finite s m e) = true ->
  (-1074 <= e <= 971)%Z /\ (Zpos m < 2 ^ 53)%Z /\ ((-1074 < e)%Z -> (2 ^ 52 <= Zpos m)%Z).
Proof.
  unfold B64.valid, valid_binary, bounded, canonical_mantissa, fexp, emin, B64.prec, B64.emax.
  intros H. apply andb_true_iff in H. destruct H as [H1 H2].
  apply Z.eqb_eq in H1. apply Z.leb_le in H2.
  pose proof (digits2_pos_bounds m) as [Hlo Hhi].
  set (d := Zpos (digits2_pos m)) in *.
  assert (Hd : (d <= 53)%Z) by lia.
  split; [lia|]. split.
  - apply Z.lt_le_trans with (2 ^ d)%Z; [exact Hhi|].
    apply Z.pow_le_mono_r; lia.
  - intros He. assert (d = 53)%Z as Ed by lia. rewrite Ed in Hlo. exact Hlo.
Qed.

Lemma ord_finite_pos m e : (-1074 <= e)%Z -> (0 < Zpos m * 2 ^ (e + 1074))%Z.
Proof. intros He. apply Z.mul_pos_pos; [lia|]. apply Z.pow_pos_nonneg; lia. Qed.

Lemma ord_finite_lt_inf m e :
  (e <= 971)%Z -> (-1074 <= e)%Z -> (Zpos m < 2 ^ 53)%Z ->
  (Zpos m * 2 ^ (e + 1074) < B64.ord_inf)%Z.
Proof.
  intros He He' Hm. unfold B64.ord_inf.
  assert (E : (2 ^ 2098 = 2 ^ 53 * 2 ^ 2045)%Z)
    by (rewrite <- Z.pow_add_r by (intro; discriminate); reflexivity).
  rewrite E.
  apply Z.lt_le_trans with (2 ^ 53 * 2 ^ (e + 1074))%Z.
  - apply Z.mul_lt_mono_pos_r; [apply Z.pow_pos_nonneg; lia|exact Hm].
  - apply Z.mul_le_mono_nonneg_l; [lia|]. apply Z.pow_le_mono_r; lia.
Qed.

(** Of two finite numbers the one with the smaller exponent is the
    smaller. *)
Lemma ord_exponent_lt m1 e1 m2 e2 :
  (-1074 <= e1)%Z -> (e1 < e2)%Z -> (Zpos m1 < 2 ^ 53)%Z -> (2 ^ 52 <= Zpos m2)%Z ->
  (Zpos m1 * 2 ^ (e1 + 1074) < Zpos m2 * 2 ^ (e2 + 1074))%Z.
Proof.
  intros He Hlt Hm1 Hm2.
  apply Z.lt_le_trans with (2 ^ 53 * 2 ^ (e1 + 1074))%Z.
  - apply Z.mul_lt_mono_pos_r; [apply Z.pow_pos_nonneg; lia|exact Hm1].
  - replace (2 ^ 53)%Z with (2 ^ 52 * 2)%Z by reflexivity.
    rewrite <- Z.mul_assoc.
    replace (2 * 2 ^ (e1 + 1074))%Z with (2 ^ (Z.succ (e1 + 1074)))%Z
      by (rewrite Z.pow_succ_r by lia; reflexivity).
    apply Z.mul_le_mono_nonneg;
      [lia | exact Hm2 | apply Z.pow_nonneg; lia | apply Z.pow_le_mono_r; lia].
Qed.

Lemma SFcompare_ord (x y : spec_float) :
  B64.valid x = true -> B64.valid y = true ->
  B64.is_nan x = false -> B64.is_nan y = false ->
  SFcompare x y = Some (B64.ord x ?= B64.ord y)%Z.
Proof.
  intros Vx Vy Nx Ny.
  destruct x as [sx|sx| |sx mx ex]; try discriminate Nx;
  destruct y as [sy|sy| |sy my ey]; try discriminate Ny; clear Nx Ny.
  all: try (apply valid_finite in Vx; destruct Vx as (Hex & Hmx & Hnx)).
  all: try (apply valid_finite in Vy; destruct Vy as (Hey & Hmy & Hny)).
  all: cbn [SFcompare B64.ord].
  all: try (pose proof (ord_finite_pos mx ex ltac:(lia)) as Px;
            pose proof (ord_finite_lt_inf mx ex ltac:(lia) ltac:(lia) Hmx) as Ix).
  all: try (pose proof (ord_finite_pos my ey ltac:(lia)) as Py;
            pose proof (ord_finite_lt_inf my ey ltac:(lia) ltac:(lia) Hmy) as Iy).
  all: assert (0 < B64.ord_inf)%Z as Pinf by (unfold B64.ord_inf; apply Z.pow_pos_nonneg; lia).
  all: try set (X := (Zpos mx * 2 ^ (ex + 1074))%Z) in *.
  all: try set (Y := (Zpos my * 2 ^ (ey + 1074))%Z) in *.
  all: set (I := B64.ord_inf) in *; clearbody I.
  all: try solve [ try destruct sx; try destruct sy; try reflexivity; f_equal; symmetry;
                   solve [apply Z.compare_eq_iff; lia | apply Z.compare_lt_iff; lia
                         | apply Z.compare_gt_iff; lia] ].
  - assert (Hcmp : match (ex ?= ey)%Z with
                   | Lt => (X < Y)%Z
                   | Gt => (Y < X)%Z
                   | Eq => (X ?= Y)%Z = Pos.compare_cont Eq mx my
                   end).
    { destruct (Z.compare_spec ex ey) as [E|E|E].
      - subst ey. unfold X, Y. fold (Pos.compare mx my).
        rewrite Pos2Z.inj_compare.
        symmetry. apply Zmult_compare_compat_r. apply Z.lt_gt.
        apply Z.pow_pos_nonneg; lia.
      - apply ord_exponent_lt; lia.
      - apply ord_exponent_lt; lia. }
    destruct sx, sy; f_equal; symmetry.
    + destruct (ex ?= ey)%Z.
      * rewrite <- Hcmp. rewrite Z.compare_opp. apply Z.compare_antisym.
      * apply Z.compare_gt_iff. lia.
      * apply Z.compare_lt_iff. lia.
    + apply Z.compare_lt_iff. lia.
    + apply Z.compare_gt_iff. lia.
    + destruct (ex ?= ey)%Z.
      * exact Hcmp.
      * apply Z.compare_lt_iff. lia.
      * apply Z.compare_gt_iff. lia.
Qed.

(** [a < b] is the order of the integers that stand for the numbers. *)
Lemma lt_ord (x y : spec_float) :
  B64.valid x = true -> B64.valid y = true ->
  B64.lt x y = true -> (B64.ord x < B64.ord y)%Z /\ B64.is_nan x = false /\ B64.is_nan y = false.
Proof.
  intros Vx Vy H. unfold B64.lt, SFltb in H.
  destruct (B64.is_nan x) eqn:Nx; [destruct x; discriminate|].
  destruct (B64.is_nan y) eqn:Ny; [destruct x, y; discriminate|].
  rewrite (SFcompare_ord x y Vx Vy Nx Ny) in H.
  destruct (Z.compare_spec (B64.ord x) (B64.ord y)); try discriminate H. auto.
Qed.

Lemma hundred_eq : B64.hundred = S754_finite false 7036874417766400 (-46).
Proof. vm_compute. reflexivity. Qed.

Lemma ord_hundred : B64.ord B64.hundred = (100 * 2 ^ 1074)%Z.
Proof. vm_compute. reflexivity. Qed.

(** *** clamp *)

(** [clamp] returns a bound or its argument, and its argument only when
    it lies strictly between the bounds: NaN gives 100. *)
Lemma clamp_cases64 v :
  B64.clamp v = B64.zero \/ B64.clamp v = B64.hundred \/
  (B64.clamp v = v /\ B64.lt B64.zero v = true /\ B64.lt v B64.hundred = true).
Proof.
  unfold B64.clamp, B64.py_max, B64.py_min.
  destruct (B64.lt v B64.hundred) eqn:E1.
  - destruct (B64.lt B64.zero v) eqn:E2; [right; right; auto|left; reflexivity].
  - right. left. reflexivity.
Qed.

Lemma clamp_nan64 : B64.clamp S754_nan = B64.hundred.
Proof. vm_compute. reflexivity. Qed.

Lemma clamp_clamped64 v : B64.clamped (B64.clamp v).
Proof.
  destruct (clamp_cases64 v) as [->|[->|(-> & H1 & H2)]];
    [left; reflexivity|right; left; reflexivity|right; right; auto].
Qed.

Lemma clamp_id64 c : B64.clamped c -> B64.clamp c = c.
Proof.
  intros [->|[->|[H1 H2]]]; [vm_compute; reflexivity..|].
  unfold B64.clamp, B64.py_max, B64.py_min. rewrite H2, H1. reflexivity.
Qed.

Lemma clamp_valid64 v : B64.valid v = true -> B64.valid (B64.clamp v) = true.
Proof.
  intros V. destruct (clamp_cases64 v) as [->|[->|(-> & _)]];
    [vm_compute; reflexivity..|exact V].
Qed.

Lemma py_min_valid64 a b :
  B64.valid a = true -> B64.valid b = true -> B64.valid (B64.py_min a b) = true.
Proof. intros Va Vb. unfold B64.py_min. destruct (B64.lt b a); assumption. Qed.

Lemma py_max_valid64 a b :
  B64.valid a = true -> B64.valid b = true -> B64.valid (B64.py_max a b) = true.
Proof. intros Va Vb. unfold B64.py_max. destruct (B64.lt a b); assumption. Qed.

(** A number below 0 is clamped to 0. *)
Lemma clamp_negative64 v : B64.lt v B64.zero = true -> B64.clamp v = B64.zero.
Proof.
  intros H. unfold B64.clamp, B64.py_max, B64.py_min. rewrite hundred_eq.
  destruct v as [s|[|]| |[|] m e]; try discriminate H; reflexivity.
Qed.

(** A clamped number is 0, or a finite positive number up to 100. *)
Lemma clamped_finite c :
  B64.valid c = true -> B64.clamped c ->
  c = B64.zero \/
  exists m e, c = S754_finite false m e /\ (0 < B64.value_pos m e <= 100)%Q.
Proof.
  intros V [->|[->|[H1 H2]]].
  - left. reflexivity.
  - right. rewrite hundred_eq. eexists _, _. split; [reflexivity|].
    split; vm_compute; [reflexivity|discriminate].
  - right.
    assert (Vh : B64.valid B64.hundred = true) by (vm_compute; reflexivity).
    assert (Vz : B64.valid B64.zero = true) by reflexivity.
    destruct (lt_ord _ _ Vz V H1) as (Hpos & _ & _).
    destruct (lt_ord _ _ V Vh H2) as (Hlt & _ & _).
    rewrite ord_hundred in Hlt. cbn [B64.ord B64.zero] in Hpos.
    destruct c as [s|s| |s m e]; cbn [B64.ord] in Hpos, Hlt; try lia.
    { exfalso. destruct s; unfold B64.ord_inf in *; [lia|].
      assert (2 ^ 1074 * 2 ^ 7 <= 2 ^ 2098)%Z
        by (rewrite <- Z.pow_add_r by lia; apply Z.pow_le_mono_r; lia).
      assert (0 < 2 ^ 1074)%Z by (apply Z.pow_pos_nonneg; lia).
      change (2 ^ 7)%Z with 128%Z in *. lia. }
    destruct (valid_finite _ _ _ V) as (He & _ & _).
    pose proof (ord_finite_pos m e ltac:(lia)) as P.
    destruct s; [lia|].
    exists m, e. split; [reflexivity|].
    unfold B64.value_pos. destruct e as [|p|p].
    + change (0 + 1074)%Z with 1074%Z in Hlt.
      unfold Qlt, Qle. cbn [Qnum Qden inject_Z]. split; [lia|].
      assert (0 < 2 ^ 1074)%Z by (apply Z.pow_pos_nonneg; lia). nia.
    + unfold Qlt, Qle. cbn [Qnum Qden inject_Z].
      rewrite Z.pow_add_r in Hlt by lia.
      assert (0 < 2 ^ 1074)%Z by (apply Z.pow_pos_nonneg; lia).
      assert (0 < 2 ^ Z.pos p)%Z by (apply Z.pow_pos_nonneg; lia).
      split; [nia|nia].
    + unfold Qlt, Qle. cbn [Qnum Qden]. rewrite Pos2Z.inj_pow.
      split; [lia|].
      assert (E : (2 ^ 1074 = 2 ^ (Z.neg p + 1074) * 2 ^ Z.pos p)%Z).
      { rewrite <- Z.pow_add_r by lia. f_equal. lia. }
      rewrite E in Hlt.
      assert (0 < 2 ^ (Z.neg p + 1074))%Z by (apply Z.pow_pos_nonneg; lia).
      assert (0 < 2 ^ Z.pos p)%Z by (apply Z.pow_pos_nonneg; lia).
      nia.
Qed.

(** *** The rounding of a mantissa *)

(** Shifting a mantissa to a smaller exponent multiplies it by a power
    of 2. *)
Lemma iter_xO_pow (m d : BinNums.positive) : Zpos (Pos.iter xO m d) = (Zpos m * 2 ^ Zpos d)%Z.
Proof.
  induction d as [|d IH] using Pos.peano_ind.
  - cbn. lia.
  - rewrite Pos.iter_succ, Pos2Z.inj_xO, IH, Pos2Z.inj_succ, Z.pow_succ_r by lia. lia.
Qed.

Lemma shl_align_fst (m : BinNums.positive) (e e' : Z) :
  (e' <= e)%Z -> Zpos (fst (shl_align m e e')) = (Zpos m * 2 ^ (e - e'))%Z.
Proof.
  intros H. unfold shl_align.
  destruct (e' - e)%Z as [|p|p] eqn:E.
  - replace (e - e')%Z with 0%Z by lia. cbn [fst]. lia.
  - lia.
  - cbn [fst]. rewrite iter_xO_pow. f_equal. f_equal. lia.
Qed.

Lemma shl_align_snd (m : BinNums.positive) (e e' : Z) :
  snd (shl_align m e e') = Z.min e e'.
Proof.
  unfold shl_align. destruct (e' - e)%Z as [|p|p] eqn:E; cbn [snd]; lia.
Qed.

(** Shifting to the right halves the mantissa. *)
Lemma shr_1_m mrs : (0 <= shr_m mrs)%Z -> shr_m (shr_1 mrs) = (shr_m mrs / 2)%Z.
Proof.
  destruct mrs as [m r s]. cbn [shr_m]. intros H.
  destruct m as [|[p|p|]|p]; cbn [shr_1 shr_m]; try lia; try reflexivity.
  - apply Z.div_unique with 1%Z; lia.
  - apply Z.div_unique with 0%Z; lia.
Qed.

Lemma iter_shr_1_m (p : BinNums.positive) : forall mrs,
  (0 <= shr_m mrs)%Z -> shr_m (SpecFloat.iter_pos shr_1 p mrs) = (shr_m mrs / 2 ^ Zpos p)%Z.
Proof.
  induction p as [p IH|p IH|]; intros mrs H; cbn [SpecFloat.iter_pos].
  - assert (H1 : (0 <= shr_m (shr_1 mrs))%Z)
      by (rewrite shr_1_m by exact H; apply Z.div_pos; lia).
    assert (H2 : (0 <= shr_m (SpecFloat.iter_pos shr_1 p (shr_1 mrs)))%Z)
      by (rewrite IH by exact H1; apply Z.div_pos; [exact H1|apply Z.pow_pos_nonneg; lia]).
    rewrite IH by exact H2. rewrite IH by exact H1. rewrite shr_1_m by exact H.
    rewrite !Z.div_div by (try apply Z.pow_pos_nonneg; lia).
    f_equal. replace (Z.pos p~1) with (Z.pos p + Z.pos p + 1)%Z by lia.
    rewrite !Z.pow_add_r by lia. change (2 ^ 1)%Z with 2%Z. ring.
  - assert (H2 : (0 <= shr_m (SpecFloat.iter_pos shr_1 p mrs))%Z)
      by (rewrite IH by exact H; apply Z.div_pos; [exact H|apply Z.pow_pos_nonneg; lia]).
    rewrite IH by exact H2. rewrite IH by exact H.
    rewrite !Z.div_div by (try apply Z.pow_pos_nonneg; lia).
    f_equal. replace (Z.pos p~0) with (Z.pos p + Z.pos p)%Z by lia.
    rewrite !Z.pow_add_r by lia. ring.
  - rewrite shr_1_m by exact H. reflexivity.
Qed.

Lemma shr_record_of_loc_m m l : shr_m (shr_record_of_loc m l) = m.
Proof. destruct l as [|[| |]]; reflexivity. Qed.

(** The first step of the rounding keeps a positive mantissa positive. *)
Lemma shr_fexp_pos (m : BinNums.positive) (e : Z) (l : location) :
  (-1074 <= e)%Z ->
  (1 <= shr_m (fst (shr_fexp 53 1024 (Zpos m) e l)))%Z /\
  (-1074 <= snd (shr_fexp 53 1024 (Zpos m) e l))%Z.
Proof.
  intros He. unfold shr_fexp, shr, fexp, emin. cbn [Zdigits2].
  pose proof (digits2_pos_bounds m) as [Hlo Hhi].
  set (d := Zpos (digits2_pos m)) in *.
  destruct (Z.max (d + e - 53) (3 - 1024 - 53) - e)%Z as [|p|p] eqn:E; cbn [fst snd].
  - rewrite shr_record_of_loc_m. lia.
  - rewrite iter_shr_1_m by (rewrite shr_record_of_loc_m; lia).
    rewrite shr_record_of_loc_m. split; [|lia].
    assert (Hp : (Z.pos p <= d - 1)%Z) by lia.
    apply Z.div_le_lower_bound; [apply Z.pow_pos_nonneg; lia|].
    rewrite Z.mul_1_r.
    apply Z.le_trans with (2 ^ (d - 1))%Z; [apply Z.pow_le_mono_r; lia|exact Hlo].
  - rewrite shr_record_of_loc_m. lia.
Qed.

Lemma round_nearest_even_pos m l : (1 <= m)%Z -> (1 <= round_nearest_even m l)%Z.
Proof.
  intros H. destruct l as [|[| |]]; cbn [round_nearest_even]; try lia.
  destruct (Z.even m); lia.
Qed.

(** Rounding a positive mantissa gives a number with the same sign that
    is not zero. *)
Lemma binary_round_aux_sign (s : bool) (m : BinNums.positive) (e : Z) (l : location) :
  (-1074 <= e)%Z ->
  (exists m' e', binary_round_aux 53 1024 s (Zpos m) e l = S754_finite s m' e') \/
  binary_round_aux 53 1024 s (Zpos m) e l = S754_infinity s.
Proof.
  intros He. unfold binary_round_aux.
  destruct (shr_fexp_pos m e l He) as [H1 H2].
  destruct (shr_fexp 53 1024 (Zpos m) e l) as [mrs' e'] eqn:E1. cbn [fst snd] in H1, H2.
  pose proof (round_nearest_even_pos _ (loc_of_shr_record mrs') H1) as H3.
  destruct (round_nearest_even (shr_m mrs') (loc_of_shr_record mrs')) as [|m2|m2]; try lia.
  destruct (shr_fexp_pos m2 e' loc_Exact H2) as [H4 _].
  destruct (shr_fexp 53 1024 (Zpos m2) e' loc_Exact) as [mrs'' e''] eqn:E2. cbn [fst] in H4.
  destruct (shr_m mrs'') as [|m3|m3]; try lia.
  destruct (e'' <=? 1024 - 53)%Z; [left; eauto|right; reflexivity].
Qed.

Lemma binary_round_sign (s : bool) (m : BinNums.positive) (e : Z) :
  (-1074 <= e)%Z ->
  (exists m' e', binary_round 53 1024 s m e = S754_finite s m' e') \/
  binary_round 53 1024 s m e = S754_infinity s.
Proof.
  intros He. unfold binary_round.
  pose proof (shl_align_snd m e (fexp 53 1024 (Zpos (digits2_pos m) + e))) as Hs.
  destruct (shl_align m e (fexp 53 1024 (Zpos (digits2_pos m) + e))) as [mz ez].
  cbn [snd] in Hs. apply binary_round_aux_sign.
  unfold fexp, emin in Hs. lia.
Qed.

Lemma shr_fexp_spec (m : BinNums.positive) (e : Z) (l : location) :
  (-1074 <= e)%Z ->
  exists n, (0 <= n)%Z /\
    snd (shr_fexp 53 1024 (Zpos m) e l) = (e + n)%Z /\
    shr_m (fst (shr_fexp 53 1024 (Zpos m) e l)) = (Zpos m / 2 ^ n)%Z /\
    (e + n)%Z = Z.max e (fexp 53 1024 (Zpos (digits2_pos m) + e)).
Proof.
  intros He. unfold shr_fexp, shr. cbn [Zdigits2].
  set (f := fexp 53 1024 (Zpos (digits2_pos m) + e)).
  destruct (f - e)%Z as [|p|p] eqn:E; cbn [fst snd].
  - exists 0%Z. rewrite shr_record_of_loc_m, Z.div_1_r. repeat split; lia.
  - exists (Zpos p). rewrite iter_shr_1_m by (rewrite shr_record_of_loc_m; lia).
    rewrite shr_record_of_loc_m. repeat split; lia.
  - exists 0%Z. rewrite shr_record_of_loc_m, Z.div_1_r. repeat split; lia.
Qed.

Lemma round_nearest_even_le m l : (round_nearest_even m l <= m + 1)%Z.
Proof.
  destruct l as [|[| |]]; cbn [round_nearest_even]; try lia.
  destruct (Z.even m); lia.
Qed.

(** The rounded number is at most one unit of the last place above the
    mantissa it is rounded from. *)
Lemma binary_round_aux_bound (s : bool) (m : BinNums.positive) (e : Z) (l : location) (B : Z) :
  (-1074 <= e)%Z ->
  let e1 := Z.max e (fexp 53 1024 (Zpos (digits2_pos m) + e)) in
  ((Zpos m / 2 ^ (e1 - e) + 1) * 2 ^ (e1 + 1074) <= B)%Z ->
  (B < 2 ^ 2045)%Z ->
  exists m3 e3,
    binary_round_aux 53 1024 s (Zpos m) e l = S754_finite s m3 e3 /\
    (-1074 <= e3)%Z /\ (Zpos m3 * 2 ^ (e3 + 1074) <= B)%Z.
Proof.
  intros He e1 HB Hfin. unfold binary_round_aux.
  destruct (shr_fexp_spec m e l He) as (n & Hn & Es & Em & En).
  destruct (shr_fexp_pos m e l He) as [H1 _].
  destruct (shr_fexp 53 1024 (Zpos m) e l) as [mrs' e'] eqn:E1. cbn [fst snd] in *.
  fold e1 in En. replace (e1 - e)%Z with n in HB by lia. subst e'.
  rewrite <- Em in HB.
  pose proof (round_nearest_even_pos _ (loc_of_shr_record mrs') H1) as H3.
  pose proof (round_nearest_even_le (shr_m mrs') (loc_of_shr_record mrs')) as H3'.
  destruct (round_nearest_even (shr_m mrs') (loc_of_shr_record mrs')) as [|m2|m2]; try lia.
  assert (He' : (-1074 <= e + n)%Z) by lia.
  destruct (shr_fexp_spec m2 (e + n) loc_Exact He') as (n2 & Hn2 & Es2 & Em2 & _).
  destruct (shr_fexp_pos m2 (e + n) loc_Exact He') as [H4 _].
  destruct (shr_fexp 53 1024 (Zpos m2) (e + n) loc_Exact) as [mrs'' e''] eqn:E2.
  cbn [fst snd] in *. subst e''.
  destruct (shr_m mrs'') as [|m3|m3]; try lia.
  assert (P1 : (0 < 2 ^ n2)%Z) by (apply Z.pow_pos_nonneg; lia).
  assert (P2 : (0 < 2 ^ (e + n + 1074))%Z) by (apply Z.pow_pos_nonneg; lia).
  assert (Hm3 : (Zpos m3 * 2 ^ n2 <= Zpos m2)%Z).
  { rewrite Em2. rewrite Z.mul_comm. apply Z.mul_div_le. exact P1. }
  assert (Hle : (Zpos m3 * 2 ^ (e + n + n2 + 1074) <= B)%Z).
  { replace (e + n + n2 + 1074)%Z with (n2 + (e + n + 1074))%Z by lia.
    rewrite Z.pow_add_r by lia. rewrite Z.mul_assoc.
    apply Z.le_trans with (Zpos m2 * 2 ^ (e + n + 1074))%Z.
    - apply Z.mul_le_mono_nonneg_r; lia.
    - replace e1 with (e + n)%Z in HB by lia.
      apply Z.le_trans with ((shr_m mrs' + 1) * 2 ^ (e + n + 1074))%Z; [|exact HB].
      apply Z.mul_le_mono_nonneg_r; lia. }
  assert (Hexp : (e + n + n2 <= 971)%Z).
  { destruct (Z.le_gt_cases (e + n + n2) 971) as [H|H]; [exact H|exfalso].
    assert (2 ^ 2045 <= 2 ^ (e + n + n2 + 1074))%Z by (apply Z.pow_le_mono_r; lia).
    assert (2 ^ (e + n + n2 + 1074) <= Zpos m3 * 2 ^ (e + n + n2 + 1074))%Z.
    { rewrite <- (Z.mul_1_l (2 ^ (e + n + n2 + 1074))) at 1.
      apply Z.mul_le_mono_nonneg_r; [apply Z.pow_nonneg|]; lia. }
    lia. }
  replace (e + n + n2 <=? 1024 - 53)%Z with true by (symmetry; apply Z.leb_le; lia).
  exists m3, (e + n + n2)%Z. repeat split; [lia|exact Hle].
Qed.

(** A multiple of 0.001 below 100, read back, is at most 100. *)
Lemma div_thousand_bound (k : BinNums.positive) :
  (Zpos k <= 99999)%Z ->
  exists m e,
    SFdiv 53 1024 (S754_finite false k 0) (S754_finite false 8796093022208000 (-43))
    = S754_finite false m e /\
    (-1074 <= e)%Z /\ (Zpos m * 2 ^ (e + 1074) <= 100 * 2 ^ 1074)%Z.
Proof.
  intros Hk. cbn [SFdiv xorb]. unfold SFdiv_core_binary. cbn [Zdigits2].
  pose proof (digits2_pos_bounds k) as [Hlo Hhi].
  set (d1 := Zpos (digits2_pos k)) in *.
  assert (Hd1 : (1 <= d1 <= 17)%Z).
  { split; [unfold d1; lia|].
    destruct (Z.le_gt_cases d1 17) as [H|H]; [exact H|exfalso].
    assert (2 ^ 17 <= 2 ^ (d1 - 1))%Z by (apply Z.pow_le_mono_r; lia).
    change (2 ^ 17)%Z with 131072%Z in *. lia. }
  change (Zpos (digits2_pos 8796093022208000)) with 53%Z.
  assert (Ee : Z.min (fexp 53 1024 (d1 + 0 - (53 + -43))) (0 - -43) = (d1 - 63)%Z)
    by (unfold fexp, emin; lia).
  rewrite Ee.
  replace (0 - -43 - (d1 - 63))%Z with (106 - d1)%Z by lia.
  destruct (106 - d1)%Z as [|p|p] eqn:Es; try lia.
  rewrite Z.shiftl_mul_pow2 by lia. rewrite <- Es.
  set (m' := (Zpos k * 2 ^ (106 - d1))%Z).
  set (m2 := 8796093022208000%Z).
  pose proof (Z_div_mod m' m2 ltac:(reflexivity)) as Hdiv.
  unfold Z.div_eucl in Hdiv |- *. fold (Z.div_eucl m' m2) in Hdiv |- *.
  destruct (Z.div_eucl m' m2) as [q r]. destruct Hdiv as [Hq Hr].
  assert (P : (0 < 2 ^ (106 - d1))%Z) by (apply Z.pow_pos_nonneg; lia).
  assert (Hm'lo : (2 ^ 105 <= m')%Z).
  { unfold m'. replace 105%Z with ((d1 - 1) + (106 - d1))%Z by lia.
    rewrite Z.pow_add_r by lia. apply Z.mul_le_mono_nonneg_r; lia. }
  assert (Hm'hi : (m' < 2 ^ 106)%Z).
  { unfold m'. replace 106%Z with (d1 + (106 - d1))%Z at 2 by lia.
    rewrite Z.pow_add_r by lia. apply Z.mul_lt_mono_pos_r; lia. }
  change (2 ^ 105)%Z with 40564819207303340847894502572032%Z in Hm'lo.
  change (2 ^ 106)%Z with 81129638414606681695789005144064%Z in Hm'hi.
  assert (Hqlo : (2 ^ 52 <= q)%Z) by (change (2 ^ 52)%Z with 4503599627370496%Z; unfold m2 in *; nia).
  assert (Hqhi : (q < 2 ^ 54)%Z) by (change (2 ^ 54)%Z with 18014398509481984%Z; unfold m2 in *; nia).
  destruct q as [|q|q]; try lia.
  pose proof (digits2_pos_bounds q) as [Hqd1 Hqd2].
  set (dq := Zpos (digits2_pos q)) in *.
  assert (Hdq : (53 <= dq <= 54)%Z).
  { split.
    - destruct (Z.le_gt_cases 53 dq) as [H|H]; [exact H|exfalso].
      assert (2 ^ dq <= 2 ^ 52)%Z by (apply Z.pow_le_mono_r; lia). lia.
    - destruct (Z.le_gt_cases dq 54) as [H|H]; [exact H|exfalso].
      assert (2 ^ 54 <= 2 ^ (dq - 1))%Z by (apply Z.pow_le_mono_r; lia). lia. }
  apply binary_round_aux_bound; [lia| |reflexivity].
  fold dq. unfold fexp, emin.
  set (e1 := Z.max (d1 - 63) (Z.max (dq + (d1 - 63) - 53) (3 - 1024 - 53))).
  assert (He1 : (e1 = dq + d1 - 116)%Z) by (unfold e1; lia).
  set (n := (e1 - (d1 - 63))%Z).
  assert (Hn : (0 <= n <= 1)%Z) by (unfold n; lia).
  set (m1 := (Zpos q / 2 ^ n)%Z).
  assert (Pn : (0 < 2 ^ n)%Z) by (apply Z.pow_pos_nonneg; lia).
  assert (Hm1 : (m1 * 2 ^ n <= Zpos q)%Z)
    by (unfold m1; rewrite Z.mul_comm; apply Z.mul_div_le; exact Pn).
  assert (Hkey : (m1 * 1000 < 100000 * 2 ^ (- e1))%Z).
  { assert (H1 : (m1 * 2 ^ n * m2 <= m')%Z) by nia.
    unfold m', m2 in H1.
    replace 8796093022208000%Z with (1000 * 2 ^ 43)%Z in H1 by reflexivity.
    assert (E106 : (2 ^ (106 - d1) = 2 ^ (- e1) * (2 ^ n * 2 ^ 43))%Z).
    { rewrite <- !Z.pow_add_r by lia. f_equal. unfold n. lia. }
    rewrite E106 in H1.
    assert (P43 : (0 < 2 ^ n * 2 ^ 43)%Z) by (apply Z.mul_pos_pos; [exact Pn|reflexivity]).
    assert (H2 : (m1 * 1000 * (2 ^ n * 2 ^ 43) <= Zpos k * 2 ^ (- e1) * (2 ^ n * 2 ^ 43))%Z) by lia.
    apply Z.mul_le_mono_pos_r in H2; [|exact P43].
    assert (0 < 2 ^ (- e1))%Z by (apply Z.pow_pos_nonneg; lia).
    nia. }
  assert (Pe : (0 < 2 ^ (- e1))%Z) by (apply Z.pow_pos_nonneg; lia).
  assert (Hm1' : (m1 + 1 <= 100 * 2 ^ (- e1))%Z) by lia.
  assert (E1074 : (2 ^ 1074 = 2 ^ (- e1) * 2 ^ (e1 + 1074))%Z).
  { rewrite <- Z.pow_add_r by lia. f_equal. lia. }
  rewrite E1074. rewrite Z.mul_assoc.
  apply Z.mul_le_mono_nonneg_r; [apply Z.pow_nonneg; lia|exact Hm1'].
Qed.

(** *** round *)

Lemma thousand_eq : B64.thousand = S754_finite false 8796093022208000 (-43).
Proof. vm_compute. reflexivity. Qed.

Lemma value_pos_le_100 m e :
  (-1074 <= e)%Z -> (Zpos m * 2 ^ (e + 1074) <= 100 * 2 ^ 1074)%Z ->
  0 <= B64.value_pos m e <= 100.
Proof.
  intros He H. unfold B64.value_pos. destruct e as [|p|p].
  - change (0 + 1074)%Z with 1074%Z in H.
    unfold Qle. cbn [Qnum Qden inject_Z]. split; [lia|].
    assert (0 < 2 ^ 1074)%Z by (apply Z.pow_pos_nonneg; lia). nia.
  - unfold Qle. cbn [Qnum Qden inject_Z].
    rewrite Z.pow_add_r in H by lia.
    assert (0 < 2 ^ 1074)%Z by (apply Z.pow_pos_nonneg; lia).
    assert (0 < 2 ^ Z.pos p)%Z by (apply Z.pow_pos_nonneg; lia).
    split; nia.
  - unfold Qle. cbn [Qnum Qden]. rewrite Pos2Z.inj_pow.
    split; [lia|].
    assert (E : (2 ^ 1074 = 2 ^ (Z.neg p + 1074) * 2 ^ Z.pos p)%Z).
    { rewrite <- Z.pow_add_r by lia. f_equal. lia. }
    rewrite E in H.
    assert (0 < 2 ^ (Z.neg p + 1074))%Z by (apply Z.pow_pos_nonneg; lia).
    assert (0 < 2 ^ Z.pos p)%Z by (apply Z.pow_pos_nonneg; lia).
    nia.
Qed.

(** Every multiple of 0.001 from 0 to 100 is read back as a number of the
    plane. *)
Lemma rounded_in_plane_spec k :
  (0 <= k <= 100000)%Z -> B64.in_plane (B64.rounded k).
Proof.
  intros Hk. destruct k as [|k|k]; try lia.
  - exists 0. split; [reflexivity|]. split; discriminate.
  - destruct (Z.eq_dec (Zpos k) 100000%Z) as [E|E].
    + injection E as ->. eexists. split; [vm_compute; reflexivity|].
      split; vm_compute; discriminate.
    + unfold B64.rounded, B64.prec, B64.emax. rewrite thousand_eq. cbn [B64.integer].
      destruct (div_thousand_bound k ltac:(lia)) as (m & e & -> & He & Hle).
      exists (B64.value_pos m e). split; [reflexivity|].
      apply value_pos_le_100; assumption.
Qed.

(** [round] on a clamped number gives a number of the plane. *)
Lemma round3_clamped64 c :
  B64.valid c = true -> B64.clamped c -> B64.in_plane (B64.round3 c).
Proof.
  intros V C. destruct (clamped_finite c V C) as [->|(m & e & -> & Hpos & Hle)].
  - exists 0. split; [reflexivity|]. split; discriminate.
  - cbn [B64.round3].
    set (k := round_half_even (B64.value_pos m e * 1000)).
    assert (Hk : (0 <= k <= 100000)%Z).
    { split.
      - apply round_half_even_ge. change (inject_Z 0) with 0. nra.
      - apply round_half_even_le. change (inject_Z 100000) with 100000. nra. }
    apply (rounded_in_plane_spec k Hk).
Qed.

(** *** The conversion loop on binary64 *)

Lemma sub_zero64 c : B64.clamped c -> B64.sub c B64.zero = c.
Proof.
  intros [->|[->|[H1 H2]]]; [vm_compute; reflexivity..|].
  destruct c as [s|[|]| |[|] m e]; try discriminate H1; try discriminate H2.
  reflexivity.
Qed.

Lemma dedupe_from_In64 zs : forall uniq seen z,
  In z (B64.dedupe_from uniq seen zs) -> In z uniq \/ In z zs.
Proof.
  induction zs as [|a zs IH]; intros uniq seen z H; [left; exact H|].
  cbn [B64.dedupe_from] in H.
  destruct (negb (existsb (B64.key_eqb a) seen)).
  - apply IH in H. destruct H as [H|H]; [|right; right; exact H].
    apply in_app_iff in H. destruct H as [H|[<-|[]]]; [left; exact H|right; left; reflexivity].
  - apply IH in H. destruct H as [H|H]; [left; exact H|right; right; exact H].
Qed.

Lemma dedupe_In64 zs z : In z (B64.dedupe zs) -> In z zs.
Proof.
  intros H. apply dedupe_from_In64 in H. destruct H as [[]|H]. exact H.
Qed.

Section ConverterFacts64.

Variable py_eval : string -> gmap string spec_float -> result spec_float.
Hypothesis Hpy : B64.returns_floats py_eval.

Lemma safe_eval_valid64 s v : B64.safe_eval py_eval s = Ok v -> B64.valid v = true.
Proof.
  unfold B64.safe_eval.
  destruct (Re.fullmatch SAFE_PATTERN (strip_brackets s)); [|discriminate].
  apply Hpy.
Qed.

(** A complete group: the four evaluations in their order, then the zone
    of the clamped edges. *)
Lemma convert_group_edges64 zones (g : group) sL sR sT sB :
  g !! "GridLeft" = Some sL -> g !! "GridRight" = Some sR ->
  g !! "GridTop" = Some sT -> g !! "GridBottom" = Some sB ->
  B64.convert_group py_eval zones g =
  L ← B64.safe_eval py_eval sL; R ← B64.safe_eval py_eval sR;
  T ← B64.safe_eval py_eval sT; B ← B64.safe_eval py_eval sB;
  let x := B64.clamp (B64.py_min L R) in
  let y := B64.clamp (B64.py_min T B) in
  let w := B64.sub (B64.clamp (B64.py_max L R)) x in
  let h := B64.sub (B64.clamp (B64.py_max T B)) y in
  Ok (zones ++ if B64.positive (B64.clamp w) && B64.positive (B64.clamp h)
               then [B64.Zone (B64.round3 x) (B64.round3 y)
                       (B64.round3 (B64.clamp w)) (B64.round3 (B64.clamp h))]
               else []).
Proof.
  intros HL HR HT HB.
  unfold B64.convert_group. cbn [forallb GRID_KEYS].
  rewrite (has_key_true g _ _ HL), (has_key_true g _ _ HR),
    (has_key_true g _ _ HT), (has_key_true g _ _ HB).
  cbn [andb negb]. unfold getitem. rewrite HL, HR, HT, HB.
  unfold_bind.
  destruct (B64.safe_eval py_eval sL) as [L| |]; try reflexivity.
  destruct (B64.safe_eval py_eval sR) as [R| |]; try reflexivity.
  destruct (B64.safe_eval py_eval sT) as [T| |]; try reflexivity.
  destruct (B64.safe_eval py_eval sB) as [B| |]; try reflexivity.
  cbn zeta.
  rewrite (clamp_id64 _ (clamp_clamped64 (B64.py_min L R))).
  rewrite (clamp_id64 _ (clamp_clamped64 (B64.py_min T B))).
  destruct (B64.positive _ && B64.positive _); [reflexivity|].
  rewrite app_nil_r. reflexivity.
Qed.

(** What a group can add to the zones: nothing, or the zone of four
    numbers that the evaluator returned. *)
Lemma convert_group_inv64 zones (g : group) zs :
  B64.convert_group py_eval zones g = Ok zs ->
  zs = zones \/
  exists L R T B,
    B64.valid L = true /\ B64.valid R = true /\ B64.valid T = true /\ B64.valid B = true /\
    let x := B64.clamp (B64.py_min L R) in
    let y := B64.clamp (B64.py_min T B) in
    let w := B64.sub (B64.clamp (B64.py_max L R)) x in
    let h := B64.sub (B64.clamp (B64.py_max T B)) y in
    zs = zones ++ [B64.Zone (B64.round3 x) (B64.round3 y)
                     (B64.round3 (B64.clamp w)) (B64.round3 (B64.clamp h))].
Proof.
  intros H.
  destruct (forallb (has_key g) GRID_KEYS) eqn:Hall.
  - cbn [forallb GRID_KEYS] in Hall. rewrite !andb_true_iff in Hall.
    destruct Hall as (HL & HR & HT & HB & _).
    unfold has_key in HL, HR, HT, HB.
    apply bool_decide_eq_true in HL, HR, HT, HB.
    destruct HL as [sL HL], HR as [sR HR], HT as [sT HT], HB as [sB HB].
    rewrite (convert_group_edges64 zones g _ _ _ _ HL HR HT HB) in H.
    unfold_bind.
    destruct (B64.safe_eval py_eval sL) as [L| |] eqn:EL; try discriminate H.
    destruct (B64.safe_eval py_eval sR) as [R| |] eqn:ER; try discriminate H.
    destruct (B64.safe_eval py_eval sT) as [T| |] eqn:ET; try discriminate H.
    destruct (B64.safe_eval py_eval sB) as [B| |] eqn:EB; try discriminate H.
    cbn zeta in H. injection H as <-.
    destruct (B64.positive _ && B64.positive _); [|left; apply app_nil_r].
    right. exists L, R, T, B.
    repeat (split; [eauto using safe_eval_valid64|]). reflexivity.
  - unfold B64.convert_group in H. rewrite Hall in H. injection H as <-.
    left. reflexivity.
Qed.

Lemma rounded_minimum_in_plane L R :
  B64.valid L = true -> B64.valid R = true ->
  B64.in_plane (B64.round3 (B64.clamp (B64.py_min L R))).
Proof.
  intros VL VR. apply round3_clamped64.
  - apply clamp_valid64, py_min_valid64; assumption.
  - apply clamp_clamped64.
Qed.

Lemma collect_zones_in_plane gs : forall zones zs,
  Forall (fun z => B64.in_plane (B64.z_x z) /\ B64.in_plane (B64.z_y z)) zones ->
  B64.collect_zones py_eval zones gs = Ok zs ->
  Forall (fun z => B64.in_plane (B64.z_x z) /\ B64.in_plane (B64.z_y z)) zs.
Proof.
  induction gs as [|g gs IH]; intros zones zs Hz H.
  - cbn in H. injection H as <-. exact Hz.
  - cbn [B64.collect_zones] in H. unfold_bind.
    destruct (B64.convert_group py_eval zones g) as [zones'| |] eqn:E; try discriminate H.
    apply (IH zones' zs); [|exact H].
    apply convert_group_inv64 in E.
    destruct E as [->|(L & R & T & B & VL & VR & VT & VB & ->)]; [exact Hz|].
    apply Forall_app. split; [exact Hz|].
    constructor; [|constructor]. cbn [B64.z_x B64.z_y].
    split; apply rounded_minimum_in_plane; assumption.
Qed.

(** A left edge below 0: x is 0 and the width is the rounded right edge,
    a number of the plane. *)
Lemma negative_edge64 lo hi :
  B64.valid hi = true ->
  B64.lt lo B64.zero = true ->
  B64.round3 (B64.clamp lo) = B64.zero /\
  B64.in_plane (B64.round3 (B64.clamp (B64.sub (B64.clamp hi) (B64.clamp lo)))).
Proof.
  intros V H. rewrite (clamp_negative64 lo H).
  rewrite (sub_zero64 _ (clamp_clamped64 hi)).
  rewrite (clamp_id64 _ (clamp_clamped64 hi)).
  split; [reflexivity|].
  apply round3_clamped64; [apply clamp_valid64, V|apply clamp_clamped64].
Qed.

End ConverterFacts64.

Section ConvertOne64.

Variable py_eval : string -> gmap string spec_float -> result spec_float.
Hypothesis Hpy : B64.returns_floats py_eval.

(** The zone of one complete group whose edges evaluate. *)
Lemma convert_one64 (g : group) sL sR sT sB L R T B z :
  g !! "GridLeft" = Some sL -> g !! "GridRight" = Some sR ->
  g !! "GridTop" = Some sT -> g !! "GridBottom" = Some sB ->
  B64.safe_eval py_eval sL = Ok L -> B64.safe_eval py_eval sR = Ok R ->
  B64.safe_eval py_eval sT = Ok T -> B64.safe_eval py_eval sB = Ok B ->
  B64.convert py_eval [g] = Ok [z] ->
  let x := B64.clamp (B64.py_min L R) in
  let y := B64.clamp (B64.py_min T B) in
  let w := B64.sub (B64.clamp (B64.py_max L R)) x in
  let h := B64.sub (B64.clamp (B64.py_max T B)) y in
  z = B64.Zone (B64.round3 x) (B64.round3 y)
        (B64.round3 (B64.clamp w)) (B64.round3 (B64.clamp h)).
Proof.
  intros HL HR HT HB EL ER ET EB H x y w h.
  unfold B64.convert in H. cbn [B64.collect_zones] in H.
  rewrite (convert_group_edges64 py_eval [] g _ _ _ _ HL HR HT HB) in H.
  rewrite EL, ER, ET, EB in H. unfold_bind. cbn zeta in H.
  fold x y in H. fold w h in H.
  destruct (B64.positive (B64.clamp w) && B64.positive (B64.clamp h));
    [|discriminate H].
  cbn in H. injection H as <-. reflexivity.
Qed.

(** With a left edge below 0 the zone starts at 0 and ends within the
    plane, and so from top to bottom. *)
Lemma negative_edge_zone64 (g : group) sL sR sT sB L R T B z :
  g !! "GridLeft" = Some sL -> g !! "GridRight" = Some sR ->
  g !! "GridTop" = Some sT -> g !! "GridBottom" = Some sB ->
  B64.safe_eval py_eval sL = Ok L -> B64.safe_eval py_eval sR = Ok R ->
  B64.safe_eval py_eval sT = Ok T -> B64.safe_eval py_eval sB = Ok B ->
  B64.convert py_eval [g] = Ok [z] ->
  (B64.lt (B64.py_min L R) B64.zero = true ->
   B64.z_x z = B64.zero /\ B64.in_plane (B64.z_width z)) /\
  (B64.lt (B64.py_min T B) B64.zero = true ->
   B64.z_y z = B64.zero /\ B64.in_plane (B64.z_height z)).
Proof.
  intros HL HR HT HB EL ER ET EB H.
  rewrite (convert_one64 g _ _ _ _ _ _ _ _ z HL HR HT HB EL ER ET EB H).
  cbn [B64.z_x B64.z_y B64.z_width B64.z_height].
  pose proof (safe_eval_valid64 py_eval Hpy _ _ EL) as VL.
  pose proof (safe_eval_valid64 py_eval Hpy _ _ ER) as VR.
  pose proof (safe_eval_valid64 py_eval Hpy _ _ ET) as VT.
  pose proof (safe_eval_valid64 py_eval Hpy _ _ EB) as VB.
  split; intros Hneg.
  - apply (negative_edge64 (B64.py_min L R) (B64.py_max L R)); [|exact Hneg].
    apply py_max_valid64; assumption.
  - apply (negative_edge64 (B64.py_min T B) (B64.py_max T B)); [|exact Hneg].
    apply py_max_valid64; assumption.
Qed.

End ConvertOne64.

(** *** The evaluator on literals and names *)

Lemma check_valid64 v v' : B64.check v = Ok v' -> B64.valid v' = true.
Proof.
  unfold B64.check. destruct (valid_binary B64.prec B64.emax v) eqn:E; [|discriminate].
  intros [= <-]. exact E.
Qed.

Lemma literal_valid64 q v : B64.literal q = Ok v -> B64.valid v = true.
Proof.
  unfold B64.literal. destruct (_ && _); [|discriminate]. apply check_valid64.
Qed.

Lemma py_eval_returns_floats : B64.returns_floats B64.py_eval.
Proof.
  intros s env v. unfold B64.py_eval.
  destruct (PyEval.parse_string s) as [e rest| |]; try discriminate.
  destruct e as [q|n|[|] a|op a b]; cbn [B64.eval_expr]; try discriminate.
  - apply literal_valid64.
  - destruct (PyEval.reserved_name n); [discriminate|].
    destruct (env !! n) as [x|]; [apply check_valid64|discriminate].
  - destruct a; try discriminate. apply literal_valid64.
  - destruct a as [q| | |]; try discriminate.
    destruct (Qeq_bool q 0); [discriminate|]. unfold_bind.
    destruct (B64.literal q) as [x| |] eqn:E; try discriminate.
    intros [= <-]. apply literal_valid64 in E.
    destruct x; exact E.
Qed.


(** ** The claims *)




(** C2, amended. Every emitted rectangle has 0 <= x <= 100 and
    0 <= y <= 100. That x + width <= 100 is not guaranteed is right, but a
    negative edge is not what breaks it: the edges are clamped before the
    subtraction, so a group whose unclamped left (top) edge is negative has
    x = 0 (y = 0) and x + width <= 100 (y + height <= 100). What breaks it
    is the rounding of x and of the width, one by one: GridLeft=0.0025 and
    GridRight=100 give x = 0.003 and width = 99.998. *)
Theorem C2_plane_up_to_rounding py_eval :
  B64.returns_floats py_eval ->
  (forall gs zs z,
      B64.convert py_eval gs = Ok zs -> In z zs ->
      B64.in_plane (B64.z_x z) /\ B64.in_plane (B64.z_y z)) /\
  (forall (g : group) sL sR sT sB L R T B z,
      g !! "GridLeft" = Some sL -> g !! "GridRight" = Some sR ->
      g !! "GridTop" = Some sT -> g !! "GridBottom" = Some sB ->
      B64.safe_eval py_eval sL = Ok L -> B64.safe_eval py_eval sR = Ok R ->
      B64.safe_eval py_eval sT = Ok T -> B64.safe_eval py_eval sB = Ok B ->
      B64.convert py_eval [g] = Ok [z] ->
      (B64.lt (B64.py_min L R) B64.zero = true ->
       exists x w, B64.value (B64.z_x z) = Some x /\ B64.value (B64.z_width z) = Some w /\
                   x == 0 /\ x + w <= 100) /\
      (B64.lt (B64.py_min T B) B64.zero = true ->
       exists y h, B64.value (B64.z_y z) = Some y /\ B64.value (B64.z_height z) = Some h /\
                   y == 0 /\ y + h <= 100)) /\
  (exists z x w,
      B64.convert B64.py_eval [edges "0.0025" "100" "0" "50"] = Ok [z] /\
      B64.py_eval "0.003" B64.VARS = Ok (B64.z_x z) /\
      B64.py_eval "99.998" B64.VARS = Ok (B64.z_width z) /\
      B64.value (B64.z_x z) = Some x /\ B64.value (B64.z_width z) = Some w /\
      100 < x + w).
Proof.
  intros Hpy. split; [|split].
  - intros gs zs z H Hin. unfold B64.convert in H. unfold_bind.
    destruct (B64.collect_zones py_eval [] gs) as [zones| |] eqn:E; try discriminate H.
    injection H as <-. apply dedupe_In64 in Hin.
    apply (collect_zones_in_plane py_eval Hpy) in E; [|constructor].
    rewrite List.Forall_forall in E. exact (E z Hin).
  - intros g sL sR sT sB L R T B z HL HR HT HB EL ER ET EB H.
    destruct (negative_edge_zone64 py_eval Hpy g _ _ _ _ _ _ _ _ z
                HL HR HT HB EL ER ET EB H) as [Hx Hy].
    split; intros Hneg.
    + destruct (Hx Hneg) as (E0 & w & Ew & Hw).
      exists 0, w. rewrite E0. split; [reflexivity|]. split; [exact Ew|].
      split; [reflexivity|]. lra.
    + destruct (Hy Hneg) as (E0 & h & Eh & Hh).
      exists 0, h. rewrite E0. split; [reflexivity|]. split; [exact Eh|].
      split; [reflexivity|]. lra.
  - eexists _, _, _. split; [vm_compute; reflexivity|].
    cbn [B64.z_x B64.z_width].
    split; [vm_compute; reflexivity|]. split; [vm_compute; reflexivity|].
    split; [reflexivity|]. split; [reflexivity|]. vm_compute. reflexivity.
Qed.

(** C2, an instance: x and y of the zone of GridLeft=0.0025 and
    GridRight=100 lie in the plane. *)
Lemma C2_plane_up_to_rounding_witness :
  B64.returns_floats B64.py_eval /\
  exists z, B64.convert B64.py_eval [edges "0.0025" "100" "0" "50"] = Ok [z] /\
            B64.in_plane (B64.z_x z) /\ B64.in_plane (B64.z_y z).
Proof.
  split; [exact py_eval_returns_floats|].
  eexists. split; [vm_compute; reflexivity|].
  destruct (C2_plane_up_to_rounding B64.py_eval py_eval_returns_floats) as (HA & _).
  apply (HA [edges "0.0025" "100" "0" "50"] _ _ ltac:(vm_compute; reflexivity)).
  left. reflexivity.
Defined.

(** C2 as stated fails: no group whose unclamped left edge is negative is
    emitted with x + width > 100; left edge -50 and right edge 100 give
    x = 0 and width = 100. *)
Lemma C2_counterexample :
  (~ exists py_eval (g : group) sL sR sT sB L R T B z x w,
       B64.returns_floats py_eval /\
       g !! "GridLeft" = Some sL /\ g !! "GridRight" = Some sR /\
       g !! "GridTop" = Some sT /\ g !! "GridBottom" = Some sB /\
       B64.safe_eval py_eval sL = Ok L /\ B64.safe_eval py_eval sR = Ok R /\
       B64.safe_eval py_eval sT = Ok T /\ B64.safe_eval py_eval sB = Ok B /\
       B64.lt (B64.py_min L R) B64.zero = true /\
       B64.convert py_eval [g] = Ok [z] /\
       B64.value (B64.z_x z) = Some x /\ B64.value (B64.z_width z) = Some w /\
       100 < x + w) /\
  B64.convert B64.py_eval [edges "-50" "100" "0" "50"]
  = Ok [B64.Zone B64.zero B64.zero B64.hundred (B64.of_Z 50)].
Proof.
  split; [|vm_compute; reflexivity].
  intros (py_eval & g & sL & sR & sT & sB & L & R & T & B & z & x & w & Hpy
          & HL & HR & HT & HB & EL & ER & ET & EB & Hneg & H & Ex & Ew & Hgt).
  destruct (negative_edge_zone64 py_eval Hpy g _ _ _ _ _ _ _ _ z
              HL HR HT HB EL ER ET EB H) as [Hx _].
  destruct (Hx Hneg) as (E0 & w' & Ew' & Hw).
  rewrite E0 in Ex. injection Ex as <-.
  rewrite Ew' in Ew. injection Ew as <-. lra.
Qed.

(** C3. The group with left edge 0 and right edge 0.0004 passes the test
    [w > 0 and h > 0], which is made before the rounding, and is emitted
    with width 0. *)
Theorem C3_zero_width_zone_emitted :
  convert PyEval.py_eval [edges "0" "0.0004" "0" "50"] = Ok [Zone 0 0 0 50] /\
  convert PyEval.py_eval
    (parse_groups (lines ["[1]"; "GridLeft=0"; "GridRight=0.0004";
                          "GridTop=0"; "GridBottom=50"]))
  = Ok [Zone 0 0 0 50].
Proof. split; vm_compute; reflexivity. Qed.

(** C4, amended. The text [DROP TABLE] passes the allow-list and the
    evaluation of it fails with a syntax error, which is not the
    unsafe-expression error. In a group with the other three keys present,
    reached without an earlier failure, the error ends the conversion, and
    [convert_file] leaves the file system as it was: no output file is
    written. *)
Theorem C4_drop_table_aborts (fs : filesystem) (src_path : path) (outdir text : string)
    (before after : list group) (g : group) zones :
  files fs !! path_str src_path = Some (Text text) ->
  parse_groups text = before ++ g :: after ->
  collect_zones PyEval.py_eval [] before = Ok zones ->
  g !! "GridLeft" = Some "DROP TABLE" ->
  is_Some (g !! "GridRight") -> is_Some (g !! "GridTop") -> is_Some (g !! "GridBottom") ->
  safe_eval PyEval.py_eval "DROP TABLE" = Raise SyntaxError /\
  convert PyEval.py_eval (before ++ g :: after) = Raise SyntaxError /\
  convert_file PyEval.py_eval fs src_path outdir = (fs, Raise SyntaxError).
Proof.
  intros Hfile Hparse Hbefore HL [sR HR] [sT HT] [sB HB].
  assert (Heval : safe_eval PyEval.py_eval "DROP TABLE" = Raise SyntaxError)
    by (vm_compute; reflexivity).
  assert (Hconv : convert PyEval.py_eval (before ++ g :: after) = Raise SyntaxError).
  { unfold convert. rewrite collect_zones_app, Hbefore. unfold_bind.
    cbn [collect_zones]. unfold_bind. unfold convert_group.
    cbn [forallb GRID_KEYS].
    rewrite (has_key_true g _ _ HL), (has_key_true g _ _ HR),
      (has_key_true g _ _ HT), (has_key_true g _ _ HB).
    cbn [andb negb]. unfold getitem. rewrite HL. unfold_bind.
    rewrite Heval. reflexivity. }
  split; [exact Heval|]. split; [exact Hconv|].
  unfold convert_file, read_text. rewrite Hfile. unfold_bind.
  rewrite Hparse, Hconv. reflexivity.
Qed.

(** C4, an instance: a file with the one group of the scenario. *)
Lemma C4_drop_table_aborts_witness :
  let text := lines ["[1]"; "GridLeft=DROP TABLE"; "GridRight=1";
                     "GridTop=0"; "GridBottom=1"] in
  let fs := FS {[ "in/grid.ini" := Text text ]} ∅ in
  convert_file PyEval.py_eval fs (Path "in" "grid" ".ini") "out" = (fs, Raise SyntaxError).
Proof.
  intros text fs.
  apply (C4_drop_table_aborts fs (Path "in" "grid" ".ini") "out" text
           [] [] (edges "DROP TABLE" "1" "0" "1") []).
  - vm_compute. reflexivity.
  - vm_compute. reflexivity.
  - reflexivity.
  - vm_compute. reflexivity.
  - exists "1". vm_compute. reflexivity.
  - exists "0". vm_compute. reflexivity.
  - exists "1". vm_compute. reflexivity.
Defined.

(** C4 as stated fails: [DROP TABLE] matches the allow-list, and the error
    raised is a syntax error. It is neither the error of the allow-list,
    which [DROP;TABLE] raises, nor that of an unbound name, which [DROP]
    raises. *)
Lemma C4_counterexample :
  Re.fullmatch SAFE_PATTERN "DROP TABLE" = Some ∅ /\
  safe_eval PyEval.py_eval "DROP TABLE" = Raise SyntaxError /\
  ~ UnsafeExpression SyntaxError /\
  safe_eval PyEval.py_eval "DROP;TABLE"
  = Raise (ValueError "Unsafe/unsupported expression: DROP;TABLE") /\
  safe_eval PyEval.py_eval "DROP" = Raise (TypeError PyEval.unbound_name_error).
Proof.
  split; [vm_compute; reflexivity|].
  split; [vm_compute; reflexivity|].
  split; [intros H; exact H|].
  split; vm_compute; reflexivity.
Qed.

(** C5, amended. A line matching the header pattern starts a new, empty
    group, and the previous group is appended to the list when it holds at
    least one key: a previous group without a key is dropped, like the
    absence of a previous group. *)
Theorem C5_header_flushes_nonempty (st : pstate) (raw : string) :
  is_Some (Re.re_match HEADER (PyStr.strip raw)) ->
  groups (parse_line st raw) =
    match cur st with
    | Some g => if bool_decide (g = ∅) then groups st else groups st ++ [g]
    | None => groups st
    end
  /\ cur (parse_line st raw) = Some ∅.
Proof.
  intros H. unfold parse_line.
  rewrite (header_line _ H). destruct H as [m ->].
  split; reflexivity.
Qed.

(** C5, an instance: a header after a group with one key. *)
Lemma C5_header_flushes_nonempty_witness :
  groups (parse_line (PState [] (Some {[ "GridLeft" := "0" ]})) "[2]")
  = [{[ "GridLeft" := "0" ]}]
  /\ cur (parse_line (PState [] (Some {[ "GridLeft" := "0" ]})) "[2]") = Some ∅.
Proof.
  generalize (C5_header_flushes_nonempty (PState [] (Some {[ "GridLeft" := "0" ]})) "[2]").
  vm_compute. intros H. apply H. eauto.
Defined.

(** C5 as stated fails: a header after a group without a key appends
    nothing, and the text with the headers 1 and 2 and one key under the
    second gives one group. *)
Lemma C5_counterexample :
  is_Some (Re.re_match HEADER (PyStr.strip "[2]")) /\
  groups (parse_line (PState [] (Some ∅)) "[2]") = [] /\
  parse_groups (lines ["[1]"; "[2]"; "GridLeft=0"]) = [{[ "GridLeft" := "0" ]}].
Proof.
  repeat split; [vm_compute; eauto|vm_compute; reflexivity..].
Qed.

(** C6. With Monitor1Width and Monitor1Height bound to 100, the text of
    the scenario converts to the one zone x = 0, y = 0, width = 50,
    height = 50. *)
Theorem C6_half_screen_scenario :
  VARS !! "Monitor1Width" = Some 100 /\ VARS !! "Monitor1Height" = Some 100 /\
  convert PyEval.py_eval
    (parse_groups (lines ["[1]"; "GridLeft=0"; "GridRight=[Monitor1Width]/2";
                          "GridTop=0"; "GridBottom=[Monitor1Height]/2"]))
  = Ok [Zone 0 0 50 50].
Proof. repeat split; vm_compute; reflexivity. Qed.






(** C9. A group without one of the four keys adds no zone and raises no
    error, whatever its values are: the conversion of a list of groups is
    that of the list without it. *)
Theorem C9_incomplete_group_skipped py_eval (g : group) (k : string)
    (before after : list group) :
  In k GRID_KEYS -> g !! k = None ->
  (forall zones, convert_group py_eval zones g = Ok zones) /\
  convert py_eval [g] = Ok [] /\
  convert py_eval (before ++ g :: after) = convert py_eval (before ++ after).
Proof.
  intros Hin Hk.
  pose proof (missing_key_incomplete g k Hin Hk) as Hinc.
  assert (Hg : forall zones, convert_group py_eval zones g = Ok zones)
    by (intros zones; apply convert_group_incomplete, Hinc).
  split; [exact Hg|]. split.
  - unfold convert. cbn [collect_zones]. rewrite Hg. reflexivity.
  - unfold convert. rewrite !collect_zones_app. unfold_bind.
    destruct (collect_zones py_eval [] before) as [zones| |]; try reflexivity.
    cbn [collect_zones]. rewrite Hg. reflexivity.
Qed.

(** C9, an instance: a group without GridBottom, whose left value would
    not even evaluate, between two complete groups. *)
Lemma C9_incomplete_group_skipped_witness :
  let g : group := {[ "GridLeft" := "DROP TABLE"; "GridRight" := "1"; "GridTop" := "0" ]} in
  convert PyEval.py_eval [g] = Ok [] /\
  convert PyEval.py_eval [edges "0" "50" "0" "50"; g; edges "50" "100" "0" "50"]
  = Ok [Zone 0 0 50 50; Zone 50 0 50 50].
Proof.
  intros g.
  destruct (C9_incomplete_group_skipped PyEval.py_eval g "GridBottom"
              [edges "0" "50" "0" "50"] [edges "50" "100" "0" "50"])
    as (_ & H1 & H2).
  - cbn. auto.
  - vm_compute. reflexivity.
  - split; [exact H1|].
    cbn [app] in H2. rewrite H2. vm_compute. reflexivity.
Defined.

(** C10. The evaluator gives the same outcome, value or error, on an
    expression and on the expression with every bracket deleted, wherever
    the brackets stand; [Moni[tor1]Width] evaluates to 100 like
    [Monitor1Width]. *)
Theorem C10_brackets_irrelevant (expr : string) :
  (forall py_eval, safe_eval py_eval expr = safe_eval py_eval (delete_brackets expr)) /\
  delete_brackets "Moni[tor1]Width" = "Monitor1Width" /\
  safe_eval PyEval.py_eval "Moni[tor1]Width" = Ok 100 /\
  safe_eval PyEval.py_eval "Monitor1Width" = Ok 100.
Proof.
  split; [|repeat split; vm_compute; reflexivity].
  intros py_eval. unfold safe_eval.
  rewrite delete_brackets_strip, strip_brackets_idem. reflexivity.
Qed.

(** * Further properties of the code *)

(** ** clamp and the zone of a group *)

(** X1. [clamp] maps a number at or below 0 to 0, one at or above 100 to
    100, leaves a number strictly between them untouched, is idempotent
    and keeps the order. *)
Theorem X1_clamp_cases (v : Q) :
  (v <= 0 -> clamp v = 0) /\
  (100 <= v -> clamp v = 100) /\
  (0 < v < 100 -> clamp v = v) /\
  clamp (clamp v) = clamp v /\
  (forall v', v <= v' -> clamp v <= clamp v').
Proof.
  assert (Hlow : forall u, u <= 0 -> clamp u = 0).
  { intros u Hu. unfold clamp, py_min, py_max.
    assert (E1 : lt u 100 = true) by (apply lt_spec; lra).
    rewrite E1. destruct (lt 0 u) eqn:E2; [|reflexivity].
    apply lt_spec in E2. lra. }
  assert (Hhigh : forall u, 100 <= u -> clamp u = 100).
  { intros u Hu. unfold clamp, py_min, py_max.
    destruct (lt u 100) eqn:E1; [apply lt_spec in E1; lra|].
    reflexivity. }
  assert (Hmid : forall u, 0 < u < 100 -> clamp u = u).
  { intros u [H0 H1]. unfold clamp, py_min, py_max.
    rewrite (proj2 (lt_spec u 100) H1), (proj2 (lt_spec 0 u) H0). reflexivity. }
  split; [apply Hlow|]. split; [apply Hhigh|]. split; [apply Hmid|].
  split; [|intros v'; apply clamp_le].
  destruct (Qlt_le_dec 0 v) as [H0|H0].
  - destruct (Qlt_le_dec v 100) as [H1|H1].
    + rewrite !(Hmid v); auto.
    + rewrite (Hhigh v H1). apply Hhigh. lra.
  - rewrite (Hlow v H0). apply Hlow. lra.
Qed.

(** X1, instances: -5, 150 and 30. *)
Lemma X1_clamp_cases_witness :
  clamp (-5) = 0 /\ clamp 150 = 100 /\ clamp 30 = 30.
Proof.
  destruct (X1_clamp_cases (-5)) as (Hlow & _).
  destruct (X1_clamp_cases 150) as (_ & Hhigh & _).
  destruct (X1_clamp_cases 30) as (_ & _ & Hmid & _).
  split; [apply Hlow; discriminate|].
  split; [apply Hhigh; discriminate|].
  apply Hmid. split; reflexivity.
Defined.

Lemma edges_lookup l r t b :
  edges l r t b !! "GridLeft" = Some l /\ edges l r t b !! "GridRight" = Some r /\
  edges l r t b !! "GridTop" = Some t /\ edges l r t b !! "GridBottom" = Some b.
Proof. unfold edges. repeat split; by simplify_map_eq. Qed.

Lemma clamp_proper v v' : v == v' -> clamp v == clamp v'.
Proof.
  intros H. apply Qle_antisym; apply clamp_le; rewrite H; apply Qle_refl.
Qed.

Lemma round3_idem v : round3 (round3 v) = round3 v.
Proof.
  unfold round3 at 1 3. f_equal. f_equal.
  rewrite (round_half_even_proper (round3 v * 1000)
             (inject_Z (round_half_even (v * 1000)))).
  - unfold round_half_even at 1. rewrite Qfloor_Z.
    assert (E : Qcompare (inject_Z (round_half_even (v * 1000))
                          - inject_Z (round_half_even (v * 1000))) (1 # 2) = Lt).
    { apply Qlt_alt. set (n := inject_Z (round_half_even (v * 1000))).
      assert (E0 : n - n == 0) by ring. rewrite E0. reflexivity. }
    rewrite E. reflexivity.
  - rewrite round3_value. field.
Qed.

(** The conversion of one complete group whose edges evaluate. *)
Lemma convert_one_group py_eval (g : group) sL sR sT sB L R T B :
  g !! "GridLeft" = Some sL -> g !! "GridRight" = Some sR ->
  g !! "GridTop" = Some sT -> g !! "GridBottom" = Some sB ->
  safe_eval py_eval sL = Ok L -> safe_eval py_eval sR = Ok R ->
  safe_eval py_eval sT = Ok T -> safe_eval py_eval sB = Ok B ->
  convert py_eval [g] =
  Ok (if positive (clamp (py_max L R) - clamp (py_min L R))
         && positive (clamp (py_max T B) - clamp (py_min T B))
      then [Zone (round3 (clamp (py_min L R))) (round3 (clamp (py_min T B)))
              (round3 (clamp (py_max L R) - clamp (py_min L R)))
              (round3 (clamp (py_max T B) - clamp (py_min T B)))]
      else []).
Proof.
  intros HL HR HT HB EL ER ET EB.
  unfold convert. cbn [collect_zones].
  rewrite (convert_group_edges py_eval [] g _ _ _ _ HL HR HT HB).
  rewrite EL, ER, ET, EB. unfold_bind. cbn zeta. cbn [app].
  destruct (positive _ && positive _); reflexivity.
Qed.

(** The sign of a difference of two clamped numbers is that of their
    order: a difference is not rounded to zero, since the numbers are
    multiples of the smallest positive one. *)
Lemma sub_sign64 r l :
  B64.valid r = true -> B64.valid l = true -> B64.clamped r -> B64.clamped l ->
  ((B64.ord l < B64.ord r)%Z -> B64.lt B64.zero (B64.sub r l) = true) /\
  ((B64.ord r <= B64.ord l)%Z ->
   B64.lt B64.zero (B64.sub r l) = false /\ B64.lt (B64.sub r l) B64.hundred = true).
Proof.
  intros Vr Vl Cr Cl.
  destruct (clamped_finite r Vr Cr) as [->|(mr & er & -> & _)];
  destruct (clamped_finite l Vl Cl) as [->|(ml & el & -> & _)].
  - split; [cbn; lia|]. intros _. split; vm_compute; reflexivity.
  - destruct (valid_finite _ _ _ Vl) as (He & _).
    pose proof (ord_finite_pos ml el ltac:(lia)) as P.
    split; [cbn [B64.ord B64.zero]; lia|]. intros _.
    rewrite hundred_eq. split; reflexivity.
  - destruct (valid_finite _ _ _ Vr) as (He & _).
    pose proof (ord_finite_pos mr er ltac:(lia)) as P.
    split; [intros _; reflexivity|]. cbn [B64.ord B64.zero]. lia.
  - destruct (valid_finite _ _ _ Vr) as (Her & _).
    destruct (valid_finite _ _ _ Vl) as (Hel & _).
    unfold B64.sub, B64.prec, B64.emax. cbn [SFsub cond_Zopp B64.ord].
    set (ez := Z.min er el).
    rewrite (shl_align_fst mr er ez) by lia.
    rewrite (shl_align_fst ml el ez) by lia.
    assert (Er : (Zpos mr * 2 ^ (er + 1074) = Zpos mr * 2 ^ (er - ez) * 2 ^ (ez + 1074))%Z).
    { rewrite <- Z.mul_assoc, <- Z.pow_add_r by lia. do 2 f_equal. lia. }
    assert (El : (Zpos ml * 2 ^ (el + 1074) = Zpos ml * 2 ^ (el - ez) * 2 ^ (ez + 1074))%Z).
    { rewrite <- Z.mul_assoc, <- Z.pow_add_r by lia. do 2 f_equal. lia. }
    rewrite Er, El.
    assert (P : (0 < 2 ^ (ez + 1074))%Z) by (apply Z.pow_pos_nonneg; lia).
    set (A := (Zpos mr * 2 ^ (er - ez))%Z). set (B := (Zpos ml * 2 ^ (el - ez))%Z).
    destruct (A - B)%Z as [|p|p] eqn:E; cbn [binary_normalize].
    + split; [nia|]. intros _. split; vm_compute; reflexivity.
    + split; [|nia]. intros _.
      destruct (binary_round_sign false p ez ltac:(lia)) as [(m' & e' & ->)| ->];
        reflexivity.
    + split; [nia|]. intros _. rewrite hundred_eq.
      destruct (binary_round_sign true p ez ltac:(lia)) as [(m' & e' & ->)| ->];
        split; reflexivity.
Qed.

Lemma positive_clamp64 w :
  B64.positive (B64.clamp w) = if B64.lt w B64.hundred then B64.lt B64.zero w else true.
Proof.
  unfold B64.positive, B64.clamp, B64.py_max, B64.py_min.
  destruct (B64.lt w B64.hundred).
  - destruct (B64.lt B64.zero w) eqn:E; [exact E|reflexivity].
  - vm_compute. reflexivity.
Qed.

(** The test [w > 0] of the loop, on the clamped edges. *)
Lemma positive_span64 r l :
  B64.valid r = true -> B64.valid l = true -> B64.clamped r -> B64.clamped l ->
  B64.positive (B64.clamp (B64.sub r l)) = (B64.ord l <? B64.ord r)%Z.
Proof.
  intros Vr Vl Cr Cl. rewrite positive_clamp64.
  destruct (sub_sign64 r l Vr Vl Cr Cl) as [Hpos Hneg].
  destruct (Z.ltb_spec (B64.ord l) (B64.ord r)) as [H|H].
  - rewrite (Hpos H). destruct (B64.lt _ B64.hundred); reflexivity.
  - destruct (Hneg H) as [-> ->]. reflexivity.
Qed.

Lemma lt_nan_l y : B64.lt S754_nan y = false.
Proof. reflexivity. Qed.

Lemma lt_nan_r x : B64.lt x S754_nan = false.
Proof. destruct x; reflexivity. Qed.

Lemma lt_ord_iff (x y : spec_float) :
  B64.valid x = true -> B64.valid y = true ->
  B64.is_nan x = false -> B64.is_nan y = false ->
  B64.lt x y = (B64.ord x <? B64.ord y)%Z.
Proof.
  intros Vx Vy Nx Ny. unfold B64.lt, SFltb.
  rewrite (SFcompare_ord x y Vx Vy Nx Ny). unfold Z.ltb. reflexivity.
Qed.

(** The integer of a clamped number: that of the number, brought between
    those of 0 and of 100. *)
Lemma ord_clamp64 v :
  B64.valid v = true -> B64.is_nan v = false ->
  B64.ord (B64.clamp v) = Z.max 0 (Z.min (B64.ord B64.hundred) (B64.ord v)).
Proof.
  intros V N.
  assert (Vh : B64.valid B64.hundred = true) by (vm_compute; reflexivity).
  assert (Nh : B64.is_nan B64.hundred = false) by (vm_compute; reflexivity).
  assert (P : (0 < B64.ord B64.hundred)%Z) by (vm_compute; reflexivity).
  unfold B64.clamp, B64.py_max, B64.py_min.
  rewrite (lt_ord_iff v B64.hundred V Vh N Nh).
  destruct (Z.ltb_spec (B64.ord v) (B64.ord B64.hundred)) as [H|H].
  - rewrite (lt_ord_iff B64.zero v eq_refl V eq_refl N).
    change (B64.ord B64.zero) with 0%Z.
    destruct (Z.ltb_spec 0 (B64.ord v)) as [H'|H']; [lia|].
    change (B64.ord B64.zero) with 0%Z. lia.
  - change (B64.lt B64.zero B64.hundred) with true. cbn iota. lia.
Qed.

(** The clamped minimum lies below the clamped maximum when the two
    numbers differ, one is below 100 and one above 0: not when one of them
    is NaN. *)
Lemma span_ord64 a b :
  B64.valid a = true -> B64.valid b = true ->
  (B64.ord (B64.clamp (B64.py_min a b)) <? B64.ord (B64.clamp (B64.py_max a b)))%Z
  = (B64.lt a b || B64.lt b a) && (B64.lt a B64.hundred || B64.lt b B64.hundred)
    && (B64.lt B64.zero a || B64.lt B64.zero b).
Proof.
  intros Va Vb.
  destruct (B64.is_nan a) eqn:Na.
  { destruct a; try discriminate Na. rewrite !lt_nan_l, !lt_nan_r.
    unfold B64.py_min, B64.py_max. rewrite lt_nan_l, lt_nan_r. cbn [orb andb].
    apply Z.ltb_irrefl. }
  destruct (B64.is_nan b) eqn:Nb.
  { destruct b; try discriminate Nb. rewrite !lt_nan_l, !lt_nan_r.
    unfold B64.py_min, B64.py_max. rewrite lt_nan_l, lt_nan_r. cbn [orb andb].
    apply Z.ltb_irrefl. }
  assert (Vh : B64.valid B64.hundred = true) by (vm_compute; reflexivity).
  assert (Nh : B64.is_nan B64.hundred = false) by (vm_compute; reflexivity).
  assert (P : (0 < B64.ord B64.hundred)%Z) by (vm_compute; reflexivity).
  assert (Emin : B64.ord (B64.clamp (B64.py_min a b))
                 = Z.max 0 (Z.min (B64.ord B64.hundred) (Z.min (B64.ord a) (B64.ord b)))).
  { unfold B64.py_min. rewrite (lt_ord_iff b a Vb Va Nb Na).
    destruct (Z.ltb_spec (B64.ord b) (B64.ord a)); rewrite ord_clamp64 by assumption; lia. }
  assert (Emax : B64.ord (B64.clamp (B64.py_max a b))
                 = Z.max 0 (Z.min (B64.ord B64.hundred) (Z.max (B64.ord a) (B64.ord b)))).
  { unfold B64.py_max. rewrite (lt_ord_iff a b Va Vb Na Nb).
    destruct (Z.ltb_spec (B64.ord a) (B64.ord b)); rewrite ord_clamp64 by assumption; lia. }
  rewrite Emin, Emax.
  rewrite (lt_ord_iff a b Va Vb Na Nb), (lt_ord_iff b a Vb Va Nb Na),
    (lt_ord_iff a B64.hundred Va Vh Na Nh), (lt_ord_iff b B64.hundred Vb Vh Nb Nh),
    (lt_ord_iff B64.zero a eq_refl Va eq_refl Na), (lt_ord_iff B64.zero b eq_refl Vb eq_refl Nb).
  change (B64.ord B64.zero) with 0%Z.
  set (H := B64.ord B64.hundred) in *. set (x := B64.ord a). set (y := B64.ord b).
  destruct (Z.ltb_spec x y), (Z.ltb_spec y x), (Z.ltb_spec x H), (Z.ltb_spec y H),
    (Z.ltb_spec 0 x), (Z.ltb_spec 0 y); cbn [orb andb];
    first [apply Z.ltb_lt; lia | apply Z.ltb_ge; lia].
Qed.

(** X2. A complete group whose four values evaluate gives a zone exactly
    when its rectangle meets the plane with a positive width and height:
    the left and right values differ, one of them is below 100 and one
    above 0, and the same for top and bottom. A value that is NaN compares
    false with everything, and its group gives no zone. *)
Theorem X2_zone_emitted_iff py_eval (g : group) sL sR sT sB L R T B :
  B64.returns_floats py_eval ->
  g !! "GridLeft" = Some sL -> g !! "GridRight" = Some sR ->
  g !! "GridTop" = Some sT -> g !! "GridBottom" = Some sB ->
  B64.safe_eval py_eval sL = Ok L -> B64.safe_eval py_eval sR = Ok R ->
  B64.safe_eval py_eval sT = Ok T -> B64.safe_eval py_eval sB = Ok B ->
  let spans a b :=
    (B64.lt a b || B64.lt b a) && (B64.lt a B64.hundred || B64.lt b B64.hundred)
    && (B64.lt B64.zero a || B64.lt B64.zero b) in
  (spans L R && spans T B = true -> exists z, B64.convert py_eval [g] = Ok [z]) /\
  (spans L R && spans T B = false -> B64.convert py_eval [g] = Ok []) /\
  (B64.is_nan L || B64.is_nan R || B64.is_nan T || B64.is_nan B = true ->
   B64.convert py_eval [g] = Ok []).
Proof.
  intros Hpy HL HR HT HB EL ER ET EB spans.
  pose proof (safe_eval_valid64 py_eval Hpy _ _ EL) as VL.
  pose proof (safe_eval_valid64 py_eval Hpy _ _ ER) as VR.
  pose proof (safe_eval_valid64 py_eval Hpy _ _ ET) as VT.
  pose proof (safe_eval_valid64 py_eval Hpy _ _ EB) as VB.
  assert (E : B64.convert py_eval [g] =
              Ok (if spans L R && spans T B
                  then [B64.Zone (B64.round3 (B64.clamp (B64.py_min L R)))
                          (B64.round3 (B64.clamp (B64.py_min T B)))
                          (B64.round3 (B64.clamp (B64.sub (B64.clamp (B64.py_max L R))
                                                    (B64.clamp (B64.py_min L R)))))
                          (B64.round3 (B64.clamp (B64.sub (B64.clamp (B64.py_max T B))
                                                    (B64.clamp (B64.py_min T B)))))]
                  else [])).
  { unfold B64.convert. cbn [B64.collect_zones].
    rewrite (convert_group_edges64 py_eval [] g _ _ _ _ HL HR HT HB).
    rewrite EL, ER, ET, EB. unfold_bind. cbn zeta.
    rewrite !positive_span64
      by first [apply clamp_clamped64
               | apply clamp_valid64; first [apply py_max_valid64|apply py_min_valid64]; assumption].
    rewrite (span_ord64 L R VL VR), (span_ord64 T B VT VB). fold (spans L R) (spans T B).
    destruct (spans L R && spans T B); reflexivity. }
  rewrite E. split; [|split].
  - intros ->. eauto.
  - intros ->. reflexivity.
  - intros Hnan.
    assert (Hs : spans L R && spans T B = false).
    { unfold spans. apply orb_true_iff in Hnan. destruct Hnan as [Hnan|Hnan].
      - apply orb_true_iff in Hnan. destruct Hnan as [Hnan|Hnan].
        + apply orb_true_iff in Hnan. destruct Hnan as [Hnan|Hnan].
          * destruct L; try discriminate Hnan. rewrite !lt_nan_l, !lt_nan_r. reflexivity.
          * destruct R; try discriminate Hnan. rewrite !lt_nan_l, !lt_nan_r. reflexivity.
        + destruct T; try discriminate Hnan. rewrite !lt_nan_l, !lt_nan_r.
          cbn [orb andb]. apply andb_false_r.
      - destruct B; try discriminate Hnan. rewrite !lt_nan_l, !lt_nan_r.
        cbn [orb andb]. apply andb_false_r. }
    rewrite Hs. reflexivity.
Qed.

(** X2, instances: the inverted group 60, 40, 0, 50 gives a zone; the
    group 120, 150, 0, 50, wholly to the right of the plane, gives none;
    and neither does a group whose left value is NaN. *)
Lemma X2_zone_emitted_iff_witness :
  (exists z, B64.convert B64.py_eval [edges "60" "40" "0" "50"] = Ok [z]) /\
  B64.convert B64.py_eval [edges "120" "150" "0" "50"] = Ok [] /\
  B64.convert B64.py_eval_nan [edges "1e999-1e999" "50" "0" "50"] = Ok [].
Proof.
  assert (Hnan : B64.returns_floats B64.py_eval_nan).
  { intros s env v. unfold B64.py_eval_nan.
    destruct (String.eqb s "1e999-1e999"); [intros [= <-]; reflexivity|].
    apply py_eval_returns_floats. }
  split; [|split].
  - destruct (X2_zone_emitted_iff B64.py_eval (edges "60" "40" "0" "50")
             "60" "40" "0" "50" (B64.of_Z 60) (B64.of_Z 40) B64.zero (B64.of_Z 50)
             py_eval_returns_floats
             ltac:(reflexivity) ltac:(reflexivity) ltac:(reflexivity) ltac:(reflexivity)
             ltac:(vm_compute; reflexivity) ltac:(vm_compute; reflexivity)
             ltac:(vm_compute; reflexivity) ltac:(vm_compute; reflexivity)) as (H & _).
    apply H. vm_compute. reflexivity.
  - destruct (X2_zone_emitted_iff B64.py_eval (edges "120" "150" "0" "50")
             "120" "150" "0" "50" (B64.of_Z 120) (B64.of_Z 150) B64.zero (B64.of_Z 50)
             py_eval_returns_floats
             ltac:(reflexivity) ltac:(reflexivity) ltac:(reflexivity) ltac:(reflexivity)
             ltac:(vm_compute; reflexivity) ltac:(vm_compute; reflexivity)
             ltac:(vm_compute; reflexivity) ltac:(vm_compute; reflexivity)) as (_ & H & _).
    apply H. vm_compute. reflexivity.
  - destruct (X2_zone_emitted_iff B64.py_eval_nan (edges "1e999-1e999" "50" "0" "50")
             "1e999-1e999" "50" "0" "50" S754_nan (B64.of_Z 50) B64.zero (B64.of_Z 50)
             Hnan
             ltac:(reflexivity) ltac:(reflexivity) ltac:(reflexivity) ltac:(reflexivity)
             ltac:(vm_compute; reflexivity) ltac:(vm_compute; reflexivity)
             ltac:(vm_compute; reflexivity) ltac:(vm_compute; reflexivity)) as (_ & _ & H).
    apply H. reflexivity.
Defined.

(** X3. Exchanging the left and right values of a group, or the top and
    bottom values, changes nothing in the conversion when the four values
    evaluate. *)
Theorem X3_swapped_edges py_eval sL sR sT sB L R T B :
  safe_eval py_eval sL = Ok L -> safe_eval py_eval sR = Ok R ->
  safe_eval py_eval sT = Ok T -> safe_eval py_eval sB = Ok B ->
  convert py_eval [edges sR sL sT sB] = convert py_eval [edges sL sR sT sB] /\
  convert py_eval [edges sL sR sB sT] = convert py_eval [edges sL sR sT sB].
Proof.
  intros EL ER ET EB.
  assert (Hswap : forall a b c d A B' C D,
    safe_eval py_eval a = Ok A -> safe_eval py_eval b = Ok B' ->
    safe_eval py_eval c = Ok C -> safe_eval py_eval d = Ok D ->
    convert py_eval [edges b a c d] = convert py_eval [edges a b c d]
    /\ convert py_eval [edges a b d c] = convert py_eval [edges a b c d]).
  { intros a b c d A B' C D Ea Eb Ec Ed.
    assert (Hmin : forall u v, clamp (py_min v u) == clamp (py_min u v)).
    { intros u v. apply clamp_proper. rewrite !py_min_Qmin. apply Q.min_comm. }
    assert (Hmax : forall u v, clamp (py_max v u) == clamp (py_max u v)).
    { intros u v. apply clamp_proper. rewrite !py_max_Qmax. apply Q.max_comm. }
    assert (Hspan : forall u v,
      clamp (py_max v u) - clamp (py_min v u) == clamp (py_max u v) - clamp (py_min u v)).
    { intros u v. rewrite (Hmin u v), (Hmax u v). reflexivity. }
    destruct (edges_lookup a b c d) as (L1 & L2 & L3 & L4).
    destruct (edges_lookup b a c d) as (M1 & M2 & M3 & M4).
    destruct (edges_lookup a b d c) as (N1 & N2 & N3 & N4).
    rewrite (convert_one_group py_eval _ _ _ _ _ _ _ _ _ L1 L2 L3 L4 Ea Eb Ec Ed).
    rewrite (convert_one_group py_eval _ _ _ _ _ _ _ _ _ M1 M2 M3 M4 Eb Ea Ec Ed).
    rewrite (convert_one_group py_eval _ _ _ _ _ _ _ _ _ N1 N2 N3 N4 Ea Eb Ed Ec).
    rewrite (positive_proper _ _ (Hspan A B')), (positive_proper _ _ (Hspan C D)).
    rewrite (round3_proper _ _ (Hmin A B')), (round3_proper _ _ (Hmin C D)).
    rewrite (round3_proper _ _ (Hspan A B')), (round3_proper _ _ (Hspan C D)).
    split; reflexivity. }
  apply (Hswap sL sR sT sB L R T B EL ER ET EB).
Qed.

(** X3, an instance: 60 and 40 exchanged. *)
Lemma X3_swapped_edges_witness :
  convert PyEval.py_eval [edges "40" "60" "0" "50"]
  = convert PyEval.py_eval [edges "60" "40" "0" "50"].
Proof.
  apply (X3_swapped_edges PyEval.py_eval "60" "40" "0" "50" 60 40 0 50);
    vm_compute; reflexivity.
Defined.

(** X4. Width and height of an emitted zone lie in [0, 100], and each of
    its four numbers is a multiple of 0.001: rounding it again to 3
    decimals returns it. *)
Theorem X4_zone_numbers_rounded py_eval (gs : list group) zs z :
  convert py_eval gs = Ok zs -> In z zs ->
  (0 <= z_width z <= 100 /\ 0 <= z_height z <= 100) /\
  round3 (z_x z) = z_x z /\ round3 (z_y z) = z_y z /\
  round3 (z_width z) = z_width z /\ round3 (z_height z) = z_height z.
Proof.
  intros H Hin.
  pose (P := fun z : zone =>
    (0 <= z_width z <= 100 /\ 0 <= z_height z <= 100) /\
    round3 (z_x z) = z_x z /\ round3 (z_y z) = z_y z /\
    round3 (z_width z) = z_width z /\ round3 (z_height z) = z_height z).
  assert (F : Forall P zs).
  { apply (convert_Forall P py_eval gs zs); [|exact H].
    intros L R T B x y w h _ _. unfold P. cbn [z_x z_y z_width z_height].
    destruct (edges_normalised L R) as (_ & _ & Hx & Hw & Hxw).
    destruct (edges_normalised T B) as (_ & _ & Hy & Hh & Hyh).
    fold x in Hx, Hw, Hxw. fold w in Hw, Hxw. fold y in Hy, Hh, Hyh. fold h in Hh, Hyh.
    rewrite !round3_idem.
    repeat split; try (apply round3_nonneg; assumption);
      apply round3_le_100; lra. }
  rewrite List.Forall_forall in F. exact (F z Hin).
Qed.

(** X4, an instance: the group 0, 33.3337, 0, 50 gives the width 33.334. *)
Lemma X4_zone_numbers_rounded_witness :
  convert PyEval.py_eval [edges "0" "33.3337" "0" "50"]
  = Ok [Zone 0 0 (16667 # 500) 50] /\
  round3 (16667 # 500) = 16667 # 500 /\ 0 <= 16667 # 500 <= 100.
Proof.
  assert (H1 : convert PyEval.py_eval [edges "0" "33.3337" "0" "50"]
               = Ok [Zone 0 0 (16667 # 500) 50]) by (vm_compute; reflexivity).
  destruct (X4_zone_numbers_rounded PyEval.py_eval _ _ _ H1 (or_introl eq_refl))
    as ((Hw & _) & _ & _ & Hrw & _).
  split; [exact H1|]. split; [exact Hrw|exact Hw].
Defined.

(** ** The loops of convert *)

Lemma dedupe_from_length zs : forall uniq seen,
  (List.length (dedupe_from uniq seen zs) <= List.length uniq + List.length zs)%nat.
Proof.
  induction zs as [|z zs IH]; intros uniq seen; cbn [dedupe_from List.length].
  - lia.
  - destruct (negb (seen_mem (key z) seen)).
    + specialize (IH (uniq ++ [z]) (key z :: seen)).
      rewrite length_app in IH. cbn [List.length] in IH. lia.
    + specialize (IH uniq seen). lia.
Qed.

(** The zones collected so far stay in front: a group only appends. *)
Lemma convert_group_acc py_eval zones (g : group) :
  convert_group py_eval zones g =
  match convert_group py_eval [] g with
  | Ok zs => Ok (zones ++ zs)
  | Raise e => Raise e
  | Unmodelled => Unmodelled
  end.
Proof.
  unfold convert_group.
  destruct (negb (forallb (has_key g) GRID_KEYS)); [rewrite app_nil_r; reflexivity|].
  unfold_bind.
  destruct (getitem g "GridLeft") as [sL| |]; try reflexivity.
  destruct (safe_eval py_eval sL) as [L| |]; try reflexivity.
  destruct (getitem g "GridRight") as [sR| |]; try reflexivity.
  destruct (safe_eval py_eval sR) as [R| |]; try reflexivity.
  destruct (getitem g "GridTop") as [sT| |]; try reflexivity.
  destruct (safe_eval py_eval sT) as [T| |]; try reflexivity.
  destruct (getitem g "GridBottom") as [sB| |]; try reflexivity.
  destruct (safe_eval py_eval sB) as [B| |]; try reflexivity.
  destruct (positive _ && positive _); [reflexivity|].
  rewrite app_nil_r. reflexivity.
Qed.

Lemma convert_group_length py_eval (g : group) zs :
  convert_group py_eval [] g = Ok zs -> (List.length zs <= 1)%nat.
Proof.
  intros H. apply convert_group_inv in H.
  destruct H as [->|(L & R & T & B & _ & _ & ->)]; cbn; lia.
Qed.

Lemma collect_zones_acc py_eval gs : forall zones,
  collect_zones py_eval zones gs =
  match collect_zones py_eval [] gs with
  | Ok zs => Ok (zones ++ zs)
  | Raise e => Raise e
  | Unmodelled => Unmodelled
  end.
Proof.
  induction gs as [|g gs IH]; intros zones; cbn [collect_zones].
  - rewrite app_nil_r. reflexivity.
  - unfold_bind. rewrite (convert_group_acc py_eval zones g).
    destruct (convert_group py_eval [] g) as [zg| |]; try reflexivity.
    rewrite (IH (zones ++ zg)), (IH zg).
    destruct (collect_zones py_eval [] gs) as [zs| |]; try reflexivity.
    rewrite app_assoc. reflexivity.
Qed.

(** When the groups convert, each of them converts on its own, to zones
    that are among those collected. *)
Lemma collect_zones_each py_eval gs : forall zs,
  collect_zones py_eval [] gs = Ok zs ->
  (List.length zs <= List.length gs)%nat /\
  forall g, In g gs ->
    exists zg, convert_group py_eval [] g = Ok zg /\ incl zg zs.
Proof.
  induction gs as [|g gs IH]; intros zs H.
  - cbn in H. injection H as <-. split; [cbn; lia|]. intros g [].
  - cbn [collect_zones] in H. unfold_bind.
    destruct (convert_group py_eval [] g) as [zg| |] eqn:Eg; try discriminate H.
    rewrite collect_zones_acc in H.
    destruct (collect_zones py_eval [] gs) as [zs'| |] eqn:Egs; try discriminate H.
    injection H as <-. destruct (IH zs' eq_refl) as [Hlen Heach].
    split.
    + rewrite length_app. cbn [List.length].
      pose proof (convert_group_length py_eval g zg Eg). lia.
    + intros g' [<-|Hin].
      * exists zg. split; [exact Eg|]. apply incl_appl, incl_refl.
      * destruct (Heach g' Hin) as (zg' & E' & Hincl).
        exists zg'. split; [exact E'|]. apply incl_appr, Hincl.
Qed.

(** X5. A conversion gives at most one zone for each group. *)
Theorem X5_at_most_one_zone_per_group py_eval (gs : list group) zs :
  convert py_eval gs = Ok zs -> (List.length zs <= List.length gs)%nat.
Proof.
  intros H. unfold convert in H. unfold_bind.
  destruct (collect_zones py_eval [] gs) as [zones| |] eqn:E; try discriminate H.
  injection H as <-.
  destruct (collect_zones_each py_eval gs zones E) as [Hlen _].
  pose proof (dedupe_from_length zones [] []) as Hd.
  unfold dedupe. cbn [List.length] in Hd. lia.
Qed.

(** X5, an instance: three groups, one incomplete and one repeated, give
    one zone. *)
Lemma X5_at_most_one_zone_per_group_witness :
  (List.length [Zone 0 0 50 50] <= 3)%nat.
Proof.
  apply (X5_at_most_one_zone_per_group PyEval.py_eval
           [edges "0" "50" "0" "50"; {[ "GridLeft" := "1" ]}; edges "50" "0" "0" "50"]).
  vm_compute. reflexivity.
Defined.

Lemma first_occurrences_after_app a : forall earlier b,
  first_occurrences_after earlier (a ++ b) =
  first_occurrences_after earlier a ++ first_occurrences_after (earlier ++ a) b.
Proof.
  induction a as [|z a IH]; intros earlier b; cbn [app first_occurrences_after].
  - rewrite app_nil_r. reflexivity.
  - rewrite IH, <- !app_assoc. reflexivity.
Qed.

Lemma first_occurrences_after_seen b : forall earlier,
  incl b earlier -> first_occurrences_after earlier b = [].
Proof.
  induction b as [|z b IH]; intros earlier Hincl; [reflexivity|].
  cbn [first_occurrences_after].
  assert (E : existsb (fun z' => key_eqb (key z) (key z')) earlier = true).
  { apply existsb_exists. exists z. split; [apply Hincl; left; reflexivity|].
    apply key_eqb_refl. }
  rewrite E. cbn [app]. apply IH.
  intros x Hx. apply in_app_iff. left. apply Hincl. right. exact Hx.
Qed.

(** X6. Groups that are repeated after the list they come from add
    nothing: the conversion, value or error, is that of the list. *)
Theorem X6_repeated_groups_add_nothing py_eval (gs gs' : list group) :
  (forall g, In g gs' -> In g gs) ->
  convert py_eval (gs ++ gs') = convert py_eval gs.
Proof.
  intros Hsub. unfold convert. rewrite collect_zones_app. unfold_bind.
  destruct (collect_zones py_eval [] gs) as [zs| |] eqn:E; try reflexivity.
  destruct (collect_zones_each py_eval gs zs E) as [_ Heach].
  assert (Hrep : exists zs', collect_zones py_eval [] gs' = Ok zs' /\ incl zs' zs).
  { clear E. induction gs' as [|g gs' IH].
    - exists []. split; [reflexivity|]. intros x [].
    - destruct IH as (zs' & E' & Hincl); [intros g' Hg'; apply Hsub; right; exact Hg'|].
      destruct (Heach g (Hsub g (or_introl eq_refl))) as (zg & Eg & Hzg).
      exists (zg ++ zs'). split.
      + cbn [collect_zones]. unfold_bind. rewrite Eg, collect_zones_acc, E'.
        reflexivity.
      + apply incl_app; assumption. }
  destruct Hrep as (zs' & E' & Hincl).
  rewrite collect_zones_acc, E'. f_equal.
  rewrite !dedupe_first_occurrences. unfold first_occurrences.
  rewrite first_occurrences_after_app. cbn [app].
  rewrite (first_occurrences_after_seen zs' zs Hincl). apply app_nil_r.
Qed.

(** X6, an instance: two groups followed by the first one again. *)
Lemma X6_repeated_groups_add_nothing_witness :
  convert PyEval.py_eval
    ([edges "0" "50" "0" "50"; edges "50" "100" "0" "50"] ++ [edges "0" "50" "0" "50"])
  = convert PyEval.py_eval [edges "0" "50" "0" "50"; edges "50" "100" "0" "50"].
Proof.
  apply (X6_repeated_groups_add_nothing PyEval.py_eval).
  intros g [<-|[]]. left. reflexivity.
Defined.

(** X7. In a complete group the four values are evaluated in the order
    left, right, top, bottom, and the first evaluation that raises ends the
    conversion with its exception, whatever the groups after it hold, when
    the groups before it convert. *)
Theorem X7_first_failing_edge_aborts py_eval (before after : list group) (g : group)
    zones sL sR sT sB e :
  collect_zones py_eval [] before = Ok zones ->
  g !! "GridLeft" = Some sL -> g !! "GridRight" = Some sR ->
  g !! "GridTop" = Some sT -> g !! "GridBottom" = Some sB ->
  (safe_eval py_eval sL = Raise e \/
   (exists L, safe_eval py_eval sL = Ok L) /\
   (safe_eval py_eval sR = Raise e \/
    (exists R, safe_eval py_eval sR = Ok R) /\
    (safe_eval py_eval sT = Raise e \/
     (exists T, safe_eval py_eval sT = Ok T) /\ safe_eval py_eval sB = Raise e))) ->
  convert py_eval (before ++ g :: after) = Raise e.
Proof.
  intros Hbefore HL HR HT HB Hfail.
  unfold convert. rewrite collect_zones_app, Hbefore. unfold_bind.
  cbn [collect_zones]. unfold_bind.
  rewrite (convert_group_edges py_eval zones g _ _ _ _ HL HR HT HB). unfold_bind.
  destruct Hfail as [E|[[L EL] [E|[[R ER] [E|[[T ET] E]]]]]].
  - rewrite E. reflexivity.
  - rewrite EL, E. reflexivity.
  - rewrite EL, ER, E. reflexivity.
  - rewrite EL, ER, ET, E. reflexivity.
Qed.

(** X7, an instance: the top value divides by zero, in the second of three
    groups. *)
Lemma X7_first_failing_edge_aborts_witness :
  convert PyEval.py_eval
    ([edges "0" "50" "0" "50"] ++ edges "0" "50" "1/0" "foo" :: [edges "50" "100" "0" "50"])
  = Raise ZeroDivisionError.
Proof.
  apply (X7_first_failing_edge_aborts PyEval.py_eval [edges "0" "50" "0" "50"]
           [edges "50" "100" "0" "50"] (edges "0" "50" "1/0" "foo")
           [Zone 0 0 50 50] "0" "50" "1/0" "foo");
    try (vm_compute; reflexivity).
  right. split; [exists 0; vm_compute; reflexivity|].
  right. split; [exists 50; vm_compute; reflexivity|].
  left. vm_compute. reflexivity.
Defined.

(** ** safe_eval *)

(** X8. The evaluator only ever receives a text that is not empty, holds
    no bracket and no character outside the allow-list, together with the
    six bindings of [VARS]: two evaluators that agree on such texts give the
    same [safe_eval]. *)
Theorem X8_eval_sees_only_safe_text py1 py2 (expr : string) :
  (forall s, PyStr.is_empty s = false ->
             PyStr.forall_chars safe_char s = true ->
             delete_brackets s = s ->
             py1 s VARS = py2 s VARS) ->
  safe_eval py1 expr = safe_eval py2 expr.
Proof.
  intros Hagree. unfold safe_eval. rewrite fullmatch_SAFE_PATTERN.
  destruct (PyStr.is_empty (strip_brackets expr)) eqn:E1; [reflexivity|].
  destruct (PyStr.forall_chars safe_char (strip_brackets expr)) eqn:E2; [|reflexivity].
  cbn [negb andb]. apply Hagree; [exact E1|exact E2|].
  rewrite delete_brackets_strip. apply strip_brackets_idem.
Qed.

(** X8, an instance: the model of [eval] and an evaluator that differs from
    it on the texts with a semicolon only. *)
Lemma X8_eval_sees_only_safe_text_witness :
  let py2 := fun s env =>
    if PyStr.forall_chars safe_char s then PyEval.py_eval s env else Ok 0 in
  safe_eval PyEval.py_eval "[Monitor1Width]/4;" = safe_eval py2 "[Monitor1Width]/4;".
Proof.
  intros py2. apply (X8_eval_sees_only_safe_text PyEval.py_eval py2).
  intros s _ Hsafe _. unfold py2. rewrite Hsafe. reflexivity.
Defined.

(** ** The patterns of parse_groups *)

Lemma append_cons a (l s : string) : (String a l ++ s)%string = String a (l ++ s).
Proof. reflexivity. Qed.

Lemma append_nil (s : string) : ("" ++ s)%string = s.
Proof. reflexivity. Qed.

Lemma lit_spec l : forall s s', Re.lit l s = Some s' -> s = (l ++ s')%string.
Proof.
  induction l as [|a l IH]; intros s s' H; cbn in H.
  - injection H as <-. reflexivity.
  - destruct s as [|b s]; [discriminate H|].
    destruct (Ascii.eqb_spec a b) as [<-|]; [|discriminate H].
    change (String a s = String a (l ++ s')). f_equal. apply IH, H.
Qed.

Lemma lit_app l s : Re.lit l (l ++ s) = Some s.
Proof.
  induction l as [|a l IH]; [reflexivity|].
  rewrite append_cons. cbn [Re.lit]. rewrite Ascii.eqb_refl. exact IH.
Qed.

Lemma substring_prefix l s : substring 0 (String.length l) (l ++ s) = l.
Proof.
  induction l as [|a l IH].
  - rewrite append_nil. destruct s; reflexivity.
  - rewrite append_cons. cbn [String.length substring]. rewrite IH. reflexivity.
Qed.

(** A successful repetition: the run that is taken, and the continuation
    on what follows it. *)
Lemma star_some {A} p s : forall pos (k : nat -> string -> option A) r,
  Re.star p pos s k = Some r ->
  exists ds s', s = (ds ++ s')%string /\ PyStr.forall_chars p ds = true /\
                k (pos + String.length ds)%nat s' = Some r.
Proof.
  induction s as [|c s IH]; intros pos k r H; cbn [Re.star] in H.
  - exists "", "". rewrite Nat.add_0_r. auto.
  - destruct (p c) eqn:Ec.
    + destruct (Re.star p (S pos) s k) as [r'|] eqn:E.
      * injection H as <-. apply IH in E. destruct E as (ds & s' & -> & Hds & Hk).
        exists (String c ds), s'. cbn [String.length PyStr.forall_chars].
        rewrite Ec, Hds, <- Nat.add_succ_comm. auto.
      * exists "", (String c s). rewrite Nat.add_0_r. auto.
    + exists "", (String c s). rewrite Nat.add_0_r. auto.
Qed.

Lemma plus_some {A} p s pos (k : nat -> string -> option A) r :
  Re.plus p pos s k = Some r ->
  exists ds s', s = (ds ++ s')%string /\ PyStr.is_empty ds = false /\
                PyStr.forall_chars p ds = true /\
                k (pos + String.length ds)%nat s' = Some r.
Proof.
  intros H. destruct s as [|c s]; [discriminate H|]. cbn [Re.plus] in H.
  destruct (p c) eqn:Ec; [|discriminate H].
  apply star_some in H. destruct H as (ds & s' & -> & Hds & Hk).
  exists (String c ds), s'. cbn [String.length PyStr.forall_chars PyStr.is_empty].
  rewrite Ec, Hds, <- Nat.add_succ_comm. auto.
Qed.

(** A repetition takes a run that the class accepts when the continuation
    accepts what follows. *)
Lemma star_run {A} p ds : forall pos s' (k : nat -> string -> option A),
  PyStr.forall_chars p ds = true ->
  is_Some (k (pos + String.length ds)%nat s') ->
  is_Some (Re.star p pos (ds ++ s') k).
Proof.
  induction ds as [|c ds IH]; intros pos s' k Hds Hk.
  - rewrite append_nil. rewrite Nat.add_0_r in Hk. destruct Hk as [r Hk].
    destruct s' as [|c s']; cbn [Re.star]; [eauto|].
    destruct (p c); [|eauto].
    destruct (Re.star p (S pos) s' k); eauto.
  - cbn [PyStr.forall_chars] in Hds. apply andb_true_iff in Hds. destruct Hds as [Hc Hds].
    rewrite append_cons. cbn [Re.star]. rewrite Hc.
    cbn [String.length] in Hk. rewrite <- Nat.add_succ_comm in Hk.
    destruct (IH (S pos) s' k Hds Hk) as [r ->]. eauto.
Qed.

(** X9. The header pattern accepts exactly the lines that begin with an
    opening bracket, one or more decimal digits and a closing bracket;
    what follows the closing bracket is free. *)
Theorem X9_header_lines (line : string) :
  is_Some (Re.re_match HEADER line) <->
  exists ds rest, PyStr.is_empty ds = false /\ PyStr.forall_chars PyStr.isdigit ds = true /\
                  line = ("[" ++ ds ++ "]" ++ rest)%string.
Proof.
  unfold Re.re_match, HEADER. cbn [Re.cat fold_right Re.run Nat.eqb].
  split.
  - intros [m H].
    destruct (Re.lit "[" line) as [s1|] eqn:E1; [|discriminate H].
    apply lit_spec in E1. subst line.
    apply plus_some in H. destruct H as (ds & s' & -> & Hne & Hds & Hk).
    destruct (Re.lit "]" s') as [rest|] eqn:E2; [|discriminate Hk].
    apply lit_spec in E2. subst s'.
    exists ds, rest. auto.
  - intros (ds & rest & Hne & Hds & ->).
    rewrite (lit_app "[").
    destruct ds as [|c ds]; [discriminate Hne|].
    cbn [PyStr.forall_chars] in Hds. apply andb_true_iff in Hds. destruct Hds as [Hc Hds].
    rewrite append_cons. cbn [Re.plus]. rewrite Hc.
    apply star_run; [exact Hds|].
    rewrite (lit_app "]"). eauto.
Qed.

(** X9, instances: a header followed by a remark, and a bracket without a
    digit. *)
Lemma X9_header_lines_witness :
  is_Some (Re.re_match HEADER "[12] second zone") /\
  ~ is_Some (Re.re_match HEADER "[Groups]").
Proof.
  split.
  - apply (X9_header_lines "[12] second zone").
    exists "12", " second zone". repeat split; reflexivity.
  - intros H. apply (X9_header_lines "[Groups]") in H.
    destruct H as (ds & rest & Hne & Hds & E).
    destruct ds as [|c ds]; [discriminate Hne|].
    cbn in E. injection E as <- E. discriminate Hds.
Defined.

(** A match of the key and value pattern captures one of the four keys
    and a value that is not empty. *)
Lemma keyvalue_groups line kv :
  Re.re_match KEYVALUE line = Some kv ->
  exists k v, In k GRID_KEYS /\ PyStr.is_empty v = false /\
              kv = <[2%nat := v]> (<[1%nat := k]> ∅).
Proof.
  unfold Re.re_match, KEYVALUE.
  cbn [Re.cat Re.alt fold_right fold_left Re.run Nat.eqb].
  intros H.
  assert (Hkey : exists k s1, In k GRID_KEYS /\ line = (k ++ s1)%string /\
    Re.star PyStr.isspace (0 + String.length k) s1
      (fun pos' s' =>
         match Re.lit "=" s' with
         | Some s'0 =>
             Re.star PyStr.isspace (pos' + String.length "=") s'0
               (fun pos'0 s'1 =>
                  Re.plus Re.dot pos'0 s'1
                    (fun pos'1 s'2 =>
                       if Re.at_eos s'2
                       then Some (<[2%nat := substring 0 (pos'1 - pos'0) s'1]>
                                    (<[1%nat := substring 0 (0 + String.length k - 0) line]> ∅))
                       else None))
         | None => None
         end) = Some kv).
  { destruct (Re.lit "GridTop" line) as [s1|] eqn:E1.
    { destruct (Re.star _ _ s1 _) eqn:E in H.
      - injection H as <-. exists "GridTop", s1.
        split; [cbn; auto|]. split; [apply lit_spec, E1|exact E].
      - clear E. revert H.
        destruct (Re.lit "GridBottom" line) as [s2|] eqn:E2.
        { pose proof (lit_spec _ _ _ E1) as F1. pose proof (lit_spec _ _ _ E2) as F2.
          rewrite F1 in F2. discriminate F2. }
        destruct (Re.lit "GridLeft" line) as [s3|] eqn:E3.
        { pose proof (lit_spec _ _ _ E1) as F1. pose proof (lit_spec _ _ _ E3) as F3.
          rewrite F1 in F3. discriminate F3. }
        destruct (Re.lit "GridRight" line) as [s4|] eqn:E4.
        { pose proof (lit_spec _ _ _ E1) as F1. pose proof (lit_spec _ _ _ E4) as F4.
          rewrite F1 in F4. discriminate F4. }
        discriminate. }
    destruct (Re.lit "GridBottom" line) as [s2|] eqn:E2.
    { destruct (Re.star _ _ s2 _) eqn:E in H.
      - injection H as <-. exists "GridBottom", s2.
        split; [cbn; auto|]. split; [apply lit_spec, E2|exact E].
      - clear E. revert H.
        destruct (Re.lit "GridLeft" line) as [s3|] eqn:E3.
        { pose proof (lit_spec _ _ _ E2) as F2. pose proof (lit_spec _ _ _ E3) as F3.
          rewrite F2 in F3. discriminate F3. }
        destruct (Re.lit "GridRight" line) as [s4|] eqn:E4.
        { pose proof (lit_spec _ _ _ E2) as F2. pose proof (lit_spec _ _ _ E4) as F4.
          rewrite F2 in F4. discriminate F4. }
        discriminate. }
    destruct (Re.lit "GridLeft" line) as [s3|] eqn:E3.
    { destruct (Re.star _ _ s3 _) eqn:E in H.
      - injection H as <-. exists "GridLeft", s3.
        split; [cbn; auto|]. split; [apply lit_spec, E3|exact E].
      - clear E. revert H.
        destruct (Re.lit "GridRight" line) as [s4|] eqn:E4.
        { pose proof (lit_spec _ _ _ E3) as F3. pose proof (lit_spec _ _ _ E4) as F4.
          rewrite F3 in F4. discriminate F4. }
        discriminate. }
    destruct (Re.lit "GridRight" line) as [s4|] eqn:E4; [|discriminate H].
    exists "GridRight", s4.
    split; [cbn; auto|]. split; [apply lit_spec, E4|exact H]. }
  destruct Hkey as (k & s1 & Hk & -> & Hrun).
  apply star_some in Hrun. destruct Hrun as (w1 & s2 & -> & _ & Hrun).
  destruct (Re.lit "=" s2) as [s3|] eqn:E; [|discriminate Hrun].
  apply star_some in Hrun. destruct Hrun as (w2 & s4 & -> & _ & Hrun).
  apply plus_some in Hrun. destruct Hrun as (v & s5 & -> & Hne & _ & Hrun).
  destruct (Re.at_eos s5); [|discriminate Hrun].
  injection Hrun as <-.
  exists k, v. split; [exact Hk|]. split; [exact Hne|].
  cbn [Nat.add]. rewrite Nat.sub_0_r, substring_prefix.
  replace (_ + String.length v - _)%nat with (String.length v) by lia.
  rewrite substring_prefix. reflexivity.
Qed.

(** ** parse_groups *)

Lemma parse_line_well_keyed st raw :
  Forall (fun g => g <> ∅ /\ well_keyed g) (groups st) ->
  (forall c, cur st = Some c -> well_keyed c) ->
  Forall (fun g => g <> ∅ /\ well_keyed g) (groups (parse_line st raw)) /\
  (forall c, cur (parse_line st raw) = Some c -> well_keyed c).
Proof.
  intros Hgs Hcur. unfold parse_line.
  destruct (PyStr.is_empty _ || PyStr.startswith ";" _); [auto|].
  destruct (Re.re_match HEADER _).
  - cbn [groups cur]. split.
    + unfold flush. destruct (cur st) as [c|] eqn:Ec; [|exact Hgs].
      case_bool_decide as Hc; [exact Hgs|].
      apply Forall_app. split; [exact Hgs|].
      constructor; [|constructor]. split; [exact Hc|apply Hcur; reflexivity].
    + intros c [= <-]. intros k v Hk. rewrite lookup_empty in Hk. discriminate Hk.
  - destruct (cur st) as [c|] eqn:Ec; [|rewrite Ec; auto].
    destruct (Re.re_match KEYVALUE _) as [kv|] eqn:Ekv; [|rewrite Ec; auto].
    apply keyvalue_groups in Ekv. destruct Ekv as (k & v & Hk & Hv & ->).
    rewrite lookup_insert_ne by discriminate.
    rewrite !lookup_insert_eq. cbn [groups cur].
    split; [exact Hgs|]. intros c' [= <-]. intros k' v' Hl.
    destruct (decide (k = k')) as [<-|Hne].
    + rewrite lookup_insert_eq in Hl. injection Hl as <-. auto.
    + rewrite lookup_insert_ne in Hl by exact Hne. apply (Hcur c eq_refl k' v' Hl).
Qed.

(** X10. Every group that [parse_groups] returns holds at least one key,
    its keys are among GridLeft, GridRight, GridTop and GridBottom, and
    none of its values is empty. *)
Theorem X10_parsed_groups_well_keyed (text : string) (g : group) :
  In g (parse_groups text) ->
  g <> ∅ /\
  forall k v, g !! k = Some v -> In k GRID_KEYS /\ PyStr.is_empty v = false.
Proof.
  unfold parse_groups.
  assert (Hfold : forall raws st,
    Forall (fun g => g <> ∅ /\ well_keyed g) (groups st) ->
    (forall c, cur st = Some c -> well_keyed c) ->
    Forall (fun g => g <> ∅ /\ well_keyed g) (flush (fold_left parse_line raws st))).
  { induction raws as [|raw raws IH]; intros st Hgs Hcur; cbn [fold_left].
    - unfold flush. destruct (cur st) as [c|] eqn:Ec; [|exact Hgs].
      case_bool_decide as Hc; [exact Hgs|].
      apply Forall_app. split; [exact Hgs|].
      constructor; [|constructor]. split; [exact Hc|apply Hcur; reflexivity].
    - destruct (parse_line_well_keyed st raw Hgs Hcur) as [Hgs' Hcur'].
      apply IH; assumption. }
  intros Hin.
  assert (F : Forall (fun g => g <> ∅ /\ well_keyed g)
                (flush (fold_left parse_line (PyStr.splitlines text) (PState [] None)))).
  { apply Hfold; [constructor|discriminate]. }
  rewrite List.Forall_forall in F. apply (F g Hin).
Qed.

(** X10, an instance: the text below gives one group, with the key
    GridTop. *)
Lemma X10_parsed_groups_well_keyed_witness :
  ({[ "GridTop" := "5" ]} : group) <> ∅ /\
  forall k v, ({[ "GridTop" := "5" ]} : group) !! k = Some v ->
              In k GRID_KEYS /\ PyStr.is_empty v = false.
Proof.
  apply (X10_parsed_groups_well_keyed
           (lines ["GridLeft=1"; "[1]"; "Width=3"; "GridTop = 5"; "GridBottom="])).
  vm_compute. left. reflexivity.
Defined.

(** X11. Without a header line a text has no group: the keys that come
    before the first header are not kept. *)
Theorem X11_no_header_no_group (text : string) :
  (forall raw, In raw (PyStr.splitlines text) ->
               Re.re_match HEADER (PyStr.strip raw) = None) ->
  parse_groups text = [].
Proof.
  intros H. unfold parse_groups.
  assert (Hfold : forall raws,
    (forall raw, In raw raws -> Re.re_match HEADER (PyStr.strip raw) = None) ->
    fold_left parse_line raws (PState [] None) = PState [] None).
  { induction raws as [|raw raws IH]; intros Hraws; [reflexivity|].
    cbn [fold_left].
    assert (E : parse_line (PState [] None) raw = PState [] None).
    { unfold parse_line. rewrite (Hraws raw (or_introl eq_refl)).
      destruct (PyStr.is_empty _ || PyStr.startswith ";" _); reflexivity. }
    rewrite E. apply IH. intros r Hr. apply Hraws. right. exact Hr. }
  rewrite (Hfold _ H). reflexivity.
Qed.

(** X11, an instance: two key lines and no header. *)
Lemma X11_no_header_no_group_witness :
  parse_groups (lines ["GridLeft=0"; "GridRight=50"]) = [].
Proof.
  apply X11_no_header_no_group.
  intros raw Hin. vm_compute in Hin.
  destruct Hin as [<-|[<-|[]]]; vm_compute; reflexivity.
Defined.

Lemma rstrip_idem s : PyStr.rstrip (PyStr.rstrip s) = PyStr.rstrip s.
Proof.
  induction s as [|c s IH]; [reflexivity|].
  cbn [PyStr.rstrip].
  destruct (PyStr.is_empty (PyStr.rstrip s) && PyStr.isspace c) eqn:E; [reflexivity|].
  cbn [PyStr.rstrip]. rewrite IH, E. reflexivity.
Qed.

Lemma lstrip_rstrip_lstrip s :
  PyStr.lstrip (PyStr.rstrip (PyStr.lstrip s)) = PyStr.rstrip (PyStr.lstrip s).
Proof.
  induction s as [|c s IH]; [reflexivity|].
  cbn [PyStr.lstrip]. destruct (PyStr.isspace c) eqn:Ec; [exact IH|].
  cbn [PyStr.rstrip]. rewrite Ec, andb_false_r. cbn [PyStr.lstrip].
  rewrite Ec. reflexivity.
Qed.

Lemma strip_idem s : PyStr.strip (PyStr.strip s) = PyStr.strip s.
Proof.
  unfold PyStr.strip. rewrite lstrip_rstrip_lstrip. apply rstrip_idem.
Qed.

Lemma parse_line_strip st raw : parse_line st (PyStr.strip raw) = parse_line st raw.
Proof. unfold parse_line. rewrite strip_idem. reflexivity. Qed.

Lemma fold_parse_significant raws : forall st,
  fold_left parse_line raws st =
  fold_left parse_line
    (List.filter (fun line => negb (PyStr.is_empty line || PyStr.startswith ";" line))
       (map PyStr.strip raws)) st.
Proof.
  induction raws as [|raw raws IH]; intros st; [reflexivity|].
  cbn [map List.filter fold_left].
  destruct (PyStr.is_empty (PyStr.strip raw) || PyStr.startswith ";" (PyStr.strip raw)) eqn:E;
    cbn [negb].
  - assert (Es : parse_line st raw = st) by (unfold parse_line; rewrite E; reflexivity).
    rewrite Es. apply IH.
  - cbn [fold_left]. rewrite parse_line_strip. apply IH.
Qed.

(** X12. [parse_groups] reads a text through its stripped lines that are
    neither blank nor comments: two texts with the same such lines give the
    same groups. *)
Theorem X12_blank_and_comment_lines_ignored (text1 text2 : string) :
  significant_lines text1 = significant_lines text2 ->
  parse_groups text1 = parse_groups text2.
Proof.
  intros H. unfold parse_groups.
  rewrite (fold_parse_significant (PyStr.splitlines text1)),
    (fold_parse_significant (PyStr.splitlines text2)).
  unfold significant_lines in H. rewrite H. reflexivity.
Qed.

(** X12, an instance: the same two lines with and without indentation,
    blank lines, CR LF line ends and a comment. *)
Lemma X12_blank_and_comment_lines_ignored_witness :
  parse_groups ("; my grid" ++ String "013" (String "010" "")
                ++ "   [1]  " ++ String "013" (String "010" "")
                ++ String "010" "" ++ String "009" "GridLeft = 0")
  = parse_groups (lines ["[1]"; "GridLeft = 0"]).
Proof.
  apply X12_blank_and_comment_lines_ignored. vm_compute. reflexivity.
Defined.

(** ** rel_to_root *)

Lemma relative_to_app root : forall rest, relative_to (root ++ rest) root = Some rest.
Proof.
  induction root as [|r root IH]; intros rest; [reflexivity|].
  cbn [app relative_to]. rewrite String.eqb_refl. apply IH.
Qed.

Lemma relative_to_some root : forall p rest,
  relative_to p root = Some rest -> p = root ++ rest.
Proof.
  induction root as [|r root IH]; intros p rest H; cbn [relative_to] in H.
  - injection H as <-. reflexivity.
  - destruct p as [|c p]; [discriminate H|].
    destruct (String.eqb_spec r c) as [<-|]; [|discriminate H].
    cbn [app]. f_equal. apply IH, H.
Qed.

Lemma rel_to_root_parts p root : rel_to_root p root = join_posix (rel_parts p root).
Proof. unfold rel_to_root, rel_parts. destruct (relative_to p root); reflexivity. Qed.

(** X13. For a path below [root] the text returned is the components
    below [root] joined by [/], and [.] for [root] itself; the branch of
    [os.path.relpath] is taken for no such path. In particular the
    destination of a conversion, in the output directory of the root, is
    named from [03-kzone-output]. *)
Theorem X13_rel_to_root_below_root (root rest : list string) :
  rel_to_root (root ++ rest) root = join_posix rest /\
  relative_to (root ++ rest) root <> None /\
  rel_to_root root root = "." /\
  forall name, rel_to_root (root ++ ["03-kzone-output"; name]) root
               = ("03-kzone-output/" ++ name)%string.
Proof.
  assert (H : forall r, rel_to_root (root ++ r) root = join_posix r).
  { intros r. unfold rel_to_root. rewrite relative_to_app. reflexivity. }
  split; [apply H|]. split; [rewrite relative_to_app; discriminate|].
  split.
  - rewrite <- (app_nil_r root) at 1. apply H.
  - intros name. rewrite H. reflexivity.
Qed.

Lemma walk_plain p : forall base,
  Forall (fun c => c <> ".." /\ c <> ".") p -> walk base p = base ++ p.
Proof.
  induction p as [|c p IH]; intros base Hp; cbn [walk].
  - rewrite app_nil_r. reflexivity.
  - inversion Hp as [|? ? [H1 H2] Hp']; subst.
    rewrite (proj2 (String.eqb_neq c "..") H1), (proj2 (String.eqb_neq c ".") H2).
    rewrite (IH _ Hp'), <- app_assoc. reflexivity.
Qed.

Lemma walk_up start : forall base rel,
  walk (base ++ start) (repeat ".." (List.length start) ++ rel) = walk base rel.
Proof.
  induction start as [|s start IH] using rev_ind; intros base rel.
  - rewrite app_nil_r. reflexivity.
  - rewrite length_app. cbn [List.length]. rewrite Nat.add_1_r.
    cbn [repeat app walk]. cbn.
    rewrite app_assoc, removelast_last. apply IH.
Qed.

Lemma walk_relpath_parts start : forall base p,
  Forall (fun c => c <> ".." /\ c <> ".") p ->
  walk (base ++ start) (relpath_parts p start) = base ++ p.
Proof.
  induction start as [|s start IH]; intros base p Hp.
  - cbn [relpath_parts List.length repeat app]. rewrite app_nil_r. apply walk_plain, Hp.
  - destruct p as [|c p].
    + cbn [relpath_parts]. rewrite walk_up, app_nil_r. reflexivity.
    + cbn [relpath_parts]. destruct (String.eqb_spec s c) as [<-|Hne].
      * inversion Hp as [|? ? _ Hp']; subst.
        replace (base ++ s :: start) with ((base ++ [s]) ++ start)
          by (rewrite <- app_assoc; reflexivity).
        rewrite (IH _ _ Hp'), <- app_assoc. reflexivity.
      * rewrite walk_up. apply walk_plain, Hp.
Qed.

(** X14. The relative path leads back: walking from [root] along the
    components that [rel_to_root] joins, up at each [..], ends at the path
    itself, when no component of the path is [.] or [..]. *)
Theorem X14_rel_to_root_leads_back (p root : list string) :
  Forall (fun c => c <> ".." /\ c <> ".") p ->
  rel_to_root p root = join_posix (rel_parts p root) /\
  walk root (rel_parts p root) = p.
Proof.
  intros Hp. split; [apply rel_to_root_parts|].
  unfold rel_parts. destruct (relative_to p root) as [rest|] eqn:E.
  - apply relative_to_some in E. subst p.
    apply walk_plain. apply Forall_app in Hp. apply Hp.
  - apply (walk_relpath_parts root [] p Hp).
Qed.

(** X14, an instance: from /a/d/e/f to /a/b/c. *)
Lemma X14_rel_to_root_leads_back_witness :
  rel_to_root ["a"; "b"; "c"] ["a"; "d"; "e"; "f"] = "../../../b/c" /\
  walk ["a"; "d"; "e"; "f"] [".."; ".."; ".."; "b"; "c"] = ["a"; "b"; "c"].
Proof.
  destruct (X14_rel_to_root_leads_back ["a"; "b"; "c"] ["a"; "d"; "e"; "f"]) as [H1 H2].
  - repeat constructor; discriminate.
  - split; [rewrite H1; reflexivity|exact H2].
Defined.

(** ** find_ini_files *)

Lemma substring_split s : forall i,
  (i <= String.length s)%nat ->
  (substring 0 i s ++ substring i (String.length s - i) s)%string = s.
Proof.
  induction s as [|c s IH]; intros i Hi.
  - destruct i; reflexivity.
  - destruct i as [|i].
    + cbn [substring]. rewrite append_nil. cbn [String.length Nat.sub substring].
      f_equal. specialize (IH O (Nat.le_0_l _)).
      cbn in IH. rewrite Nat.sub_0_r in IH.
      destruct s; [reflexivity|]. cbn [substring] in IH. rewrite append_nil in IH.
      exact IH.
    + cbn [String.length] in Hi. cbn [substring String.length Nat.sub].
      rewrite append_cons. f_equal. apply IH. lia.
Qed.

Lemma rfind_dot_bound name i : rfind_dot name = Some i -> (i < String.length name)%nat.
Proof.
  revert i. induction name as [|c name IH]; intros i H; [discriminate H|].
  cbn [rfind_dot] in H. cbn [String.length].
  destruct (rfind_dot name) as [j|].
  - injection H as <-. specialize (IH j eq_refl). lia.
  - destruct (Ascii.eqb c "."); [|discriminate H]. injection H as <-. lia.
Qed.

Lemma split_name_join name :
  (fst (split_name name) ++ snd (split_name name))%string = name.
Proof.
  unfold split_name. destruct (rfind_dot name) as [i|] eqn:E.
  - destruct (Nat.ltb 0 i && Nat.ltb i (String.length name - 1)).
    + cbn [fst snd]. apply substring_split.
      apply rfind_dot_bound in E. lia.
    + cbn [fst snd]. clear. induction name; [reflexivity|].
      rewrite append_cons. f_equal. assumption.
  - cbn [fst snd]. clear. induction name; [reflexivity|].
    rewrite append_cons. f_equal. assumption.
Qed.

Lemma p_name_path_of dir name : p_name (path_of dir name) = name.
Proof. apply split_name_join. Qed.

Lemma path_str_path_of dir name :
  path_str (path_of dir name) = (dir ++ "/" ++ name)%string.
Proof.
  unfold path_str, path_of. cbn [p_parent p_stem p_suffix].
  rewrite split_name_join. reflexivity.
Qed.

Lemma after_prefix_spec pre : forall s s',
  after_prefix pre s = Some s' <-> s = (pre ++ s')%string.
Proof.
  induction pre as [|a pre IH]; intros s s'.
  - cbn [after_prefix]. rewrite append_nil. split; [intros [= ->]|intros ->]; reflexivity.
  - rewrite append_cons. destruct s as [|b s]; cbn [after_prefix].
    + split; discriminate.
    + destruct (Ascii.eqb_spec a b) as [<-|Hne].
      * rewrite IH. split; [intros ->; reflexivity|intros [= ->]; reflexivity].
      * split; [discriminate|]. intros H. injection H as E _. destruct (Hne (eq_sym E)).
Qed.

Lemma append_assoc (a b c : string) : ((a ++ b) ++ c)%string = (a ++ b ++ c)%string.
Proof.
  induction a as [|x a IH]; [reflexivity|].
  rewrite !append_cons. f_equal. exact IH.
Qed.

Lemma child_name_spec dir p name :
  child_name dir p = Some name <->
  p = (dir ++ "/" ++ name)%string /\ PyStr.is_empty name = false /\
  PyStr.forall_chars (fun c => negb (Ascii.eqb c "/")) name = true.
Proof.
  unfold child_name. rewrite <- append_assoc.
  destruct (after_prefix (dir ++ "/") p) as [n|] eqn:E.
  - apply after_prefix_spec in E. subst p.
    destruct (PyStr.is_empty n) eqn:E1; cbn [orb].
    + split; [discriminate|]. intros (Ep & H & _).
      apply (inj (String.app _)) in Ep. congruence.
    + destruct (PyStr.forall_chars _ n) eqn:E2; cbn [negb].
      * split.
        -- intros [= <-]. auto.
        -- intros (Ep & _ & _). apply (inj (String.app _)) in Ep. congruence.
      * split; [discriminate|]. intros (Ep & _ & H).
        apply (inj (String.app _)) in Ep. congruence.
  - split; [discriminate|]. intros (-> & _ & _).
    rewrite (proj2 (after_prefix_spec _ _ name) eq_refl) in E. discriminate E.
Qed.

Lemma dir_files_spec fs dir name : In name (dir_files fs dir) <-> in_dir fs dir name.
Proof.
  unfold dir_files, in_dir. rewrite <- list_elem_of_In, list_elem_of_omap.
  split.
  - intros (p & Hp & Hc). apply child_name_spec in Hc. destruct Hc as (-> & H1 & H2).
    apply list_elem_of_fmap in Hp. destruct Hp as ([p' c] & Ep & Hin). cbn in Ep. subst p'.
    apply elem_of_map_to_list in Hin. split; [eauto|auto].
  - intros ([c Hc] & H1 & H2). exists (dir ++ "/" ++ name)%string. split.
    + apply list_elem_of_fmap. exists ((dir ++ "/" ++ name)%string, c).
      split; [reflexivity|]. apply elem_of_map_to_list, Hc.
    + apply child_name_spec. auto.
Qed.

Lemma dir_files_NoDup fs dir : NoDup (dir_files fs dir).
Proof.
  unfold dir_files.
  pose proof (NoDup_fst_map_to_list (files fs)) as Hnd.
  induction Hnd as [|p ps Hp Hnd IH]; [constructor|].
  cbn [omap list_omap]. destruct (child_name dir p) as [n|] eqn:E; [|exact IH].
  constructor; [|exact IH].
  rewrite list_elem_of_omap. intros (q & Hq & Eq).
  apply child_name_spec in E, Eq. destruct E as (-> & _), Eq as (-> & _).
  contradiction.
Qed.

Lemma sorted_paths_In dir names p :
  In p (sorted_paths dir names) <-> exists name, p = path_of dir name /\ In name names.
Proof.
  unfold sorted_paths. rewrite in_map_iff. split.
  - intros (n & <- & Hn). exists n. split; [reflexivity|].
    rewrite <- list_elem_of_In in Hn |- *.
    rewrite merge_sort_Permutation in Hn. exact Hn.
  - intros (n & -> & Hn). exists n. split; [reflexivity|].
    rewrite <- list_elem_of_In in Hn |- *.
    rewrite merge_sort_Permutation. exact Hn.
Qed.

Lemma sorted_paths_nil dir names : sorted_paths dir names = [] <-> names = [].
Proof.
  unfold sorted_paths. split.
  - intros H. apply map_eq_nil in H.
    apply Permutation_nil_r. rewrite <- H. symmetry. apply merge_sort_Permutation.
  - intros ->. reflexivity.
Qed.

Lemma find_ini_files_In fs indir p :
  In p (find_ini_files fs indir) <->
  exists name, p = path_of indir name /\ in_dir fs indir name /\
    (is_grid_name name = true \/
     forall n, in_dir fs indir n -> is_grid_name n = false).
Proof.
  unfold find_ini_files.
  destruct (sorted_paths indir (List.filter is_grid_name (dir_files fs indir)))
    as [|q qs] eqn:E.
  - apply sorted_paths_nil in E. rewrite sorted_paths_In.
    assert (Hnone : forall n, in_dir fs indir n -> is_grid_name n = false).
    { intros n Hn. apply dir_files_spec in Hn.
      destruct (is_grid_name n) eqn:Eg; [|reflexivity].
      assert (Hin : In n (List.filter is_grid_name (dir_files fs indir)))
        by (apply filter_In; auto).
      rewrite E in Hin. destruct Hin. }
    split.
    + intros (n & -> & Hn). exists n. rewrite <- dir_files_spec. auto.
    + intros (n & -> & Hn & _). exists n. rewrite dir_files_spec. auto.
  - rewrite <- E, sorted_paths_In. split.
    + intros (n & -> & Hn). apply filter_In in Hn. destruct Hn as [Hn Hg].
      exists n. rewrite <- dir_files_spec. auto.
    + intros (n & -> & Hn & [Hg|Hnone]).
      * exists n. split; [reflexivity|]. apply filter_In.
        rewrite dir_files_spec. auto.
      * exfalso. assert (Hq : In q (q :: qs)) by (left; reflexivity).
        rewrite <- E in Hq. apply sorted_paths_In in Hq.
        destruct Hq as (m & _ & Hm). apply filter_In in Hm. destruct Hm as [Hm Hg].
        apply dir_files_spec in Hm. rewrite (Hnone m Hm) in Hg. discriminate Hg.
Qed.

Lemma find_ini_files_nil fs indir :
  find_ini_files fs indir = [] <-> forall name, ~ in_dir fs indir name.
Proof.
  split.
  - intros E name Hn.
    assert (Hin : In (path_of indir name) (find_ini_files fs indir)).
    { apply find_ini_files_In. exists name. split; [reflexivity|]. split; [exact Hn|].
      destruct (is_grid_name name) eqn:Eg; [left; reflexivity|].
      right. intros n Hn'.
      destruct (is_grid_name n) eqn:Eg'; [|reflexivity].
      assert (Hin' : In (path_of indir n) (find_ini_files fs indir)).
      { apply find_ini_files_In. exists n. auto. }
      rewrite E in Hin'. destruct Hin'. }
    rewrite E in Hin. destruct Hin.
  - intros Hnone. destruct (find_ini_files fs indir) as [|p ps] eqn:E; [reflexivity|].
    assert (Hp : In p (find_ini_files fs indir)) by (rewrite E; left; reflexivity).
    apply find_ini_files_In in Hp. destruct Hp as (n & _ & Hn & _). destruct (Hnone n Hn).
Qed.

Lemma find_ini_files_is_file fs indir p :
  In p (find_ini_files fs indir) -> is_file fs p = true /\ p_parent p = indir.
Proof.
  intros Hp. apply find_ini_files_In in Hp. destruct Hp as (n & -> & (Hf & _) & _).
  split; [|reflexivity]. unfold is_file. rewrite path_str_path_of.
  apply bool_decide_eq_true. exact Hf.
Qed.

(** X15. [find_ini_files] returns paths of regular files that lie in the
    input directory itself. When one of them has the suffix [.ini] or
    [.txt], in any case of the letters, it returns exactly the files with such
    a suffix; when none has, it returns every file. The result is empty
    exactly when the directory holds no file. *)
Theorem X15_find_ini_files_members (fs : filesystem) (indir : string) :
  (forall p, In p (find_ini_files fs indir) <->
     exists name, p = path_of indir name /\ in_dir fs indir name /\
       (is_grid_name name = true \/
        forall n, in_dir fs indir n -> is_grid_name n = false)) /\
  (forall p, In p (find_ini_files fs indir) ->
     is_file fs p = true /\ p_parent p = indir) /\
  (find_ini_files fs indir = [] <-> forall name, ~ in_dir fs indir name).
Proof.
  split; [intros p; apply find_ini_files_In|].
  split; [intros p; apply find_ini_files_is_file|apply find_ini_files_nil].
Qed.

(** X16. The paths that [find_ini_files] returns are in the order of their
    names and none comes twice. *)
Theorem X16_find_ini_files_sorted (fs : filesystem) (indir : string) :
  StronglySorted String.le (map p_name (find_ini_files fs indir)) /\
  NoDup (find_ini_files fs indir).
Proof.
  assert (H : forall names, NoDup names ->
    StronglySorted String.le (map p_name (sorted_paths indir names)) /\
    NoDup (sorted_paths indir names)).
  { intros names Hnd. unfold sorted_paths.
    assert (Hid : forall l, map p_name (map (path_of indir) l) = l).
    { induction l as [|n l IH]; [reflexivity|].
      cbn [map]. rewrite p_name_path_of, IH. reflexivity. }
    rewrite Hid. split; [apply StronglySorted_merge_sort; apply _|].
    apply (NoDup_fmap_2_strong (path_of indir)).
    - intros a b _ _ Eab. rewrite <- (p_name_path_of indir a), Eab.
      apply p_name_path_of.
    - rewrite merge_sort_Permutation. exact Hnd. }
  unfold find_ini_files.
  destruct (sorted_paths indir (List.filter is_grid_name (dir_files fs indir)))
    as [|q qs] eqn:E.
  - apply H, dir_files_NoDup.
  - rewrite <- E. apply H.
    apply NoDup_ListNoDup, List.NoDup_filter, NoDup_ListNoDup, dir_files_NoDup.
Qed.

(** X15, an instance: a directory with one grid file and one other file. *)
Lemma X15_find_ini_files_members_witness :
  let fs := FS {[ "/in/b.ini" := Text ""; "/in/notes" := Text "" ]} ∅ in
  In (Path "/in" "b" ".ini") (find_ini_files fs "/in") /\
  is_file fs (Path "/in" "b" ".ini") = true /\
  find_ini_files (FS ∅ ∅) "/in" = [].
Proof.
  intros fs.
  destruct (X15_find_ini_files_members fs "/in") as (Hmem & Hfile & _).
  destruct (X15_find_ini_files_members (FS ∅ ∅) "/in") as (_ & _ & Hnil).
  assert (Hin : In (Path "/in" "b" ".ini") (find_ini_files fs "/in")).
  { apply Hmem. exists "b.ini". split; [reflexivity|]. split.
    - split; [|split; reflexivity]. vm_compute. eauto.
    - left. reflexivity. }
  split; [exact Hin|]. split; [apply (Hfile _ Hin)|].
  apply Hnil. intros name ([c Hc] & _). cbn [files] in Hc.
  rewrite lookup_empty in Hc. discriminate Hc.
Defined.

(** ** choose_file *)

Lemma nth_file_in_listing {A} (files : list A) idx :
  in_listing files idx = true -> exists f, nth_file files idx = Some f /\ In f files.
Proof.
  unfold in_listing, nth_file. intros H.
  apply andb_true_iff in H. destruct H as [H1 H2].
  apply Z.leb_le in H1, H2.
  destruct (lookup_lt_is_Some_2 files (Z.to_nat (idx - 1))) as [f Hf]; [lia|].
  exists f. split; [exact Hf|].
  apply list_elem_of_In. eapply list_elem_of_lookup_2, Hf.
Qed.

(** X17. What [choose_file] can do. It returns only a file of the list,
    the one at the position that a line gives in decimal digits; it exits
    only with status 0, on a line that is a quit word once stripped and
    lowered; and the only exception besides the end of the input is the
    [ValueError] of [int] on a line that [str.isdigit] accepts: one that
    holds a superscript digit, or starts with more than 4300 digits. *)
Theorem X17_choose_file_outcomes (files : list path) (stdin : list string) :
  (forall f, choose_file files stdin = Returns f ->
     In f files /\
     exists ln idx, In ln stdin /\
       int_of_digits (lower (PyStr.strip ln)) = Ok idx /\
       (1 <= idx <= Z.of_nat (List.length files))%Z /\ nth_file files idx = Some f) /\
  (forall code, choose_file files stdin = SystemExit code ->
     code = 0%Z /\
     exists ln, In ln stdin /\ In (lower (PyStr.strip ln)) quit_words) /\
  (forall e, choose_file files stdin = Uncaught e ->
     exists ln msg, In ln stdin /\
       str_isdigit (lower (PyStr.strip ln)) = true /\
       int_of_digits (lower (PyStr.strip ln)) = Raise e /\
       e = ValueError msg /\
       (PyStr.forall_chars PyStr.isdigit (lower (PyStr.strip ln)) = false \/
        (4300 < Z.of_nat (leading_digits (lower (PyStr.strip ln))))%Z)) /\
  choose_file files stdin <> NotModelled.
Proof.
  induction stdin as [|ln stdin IH]; cbn [choose_file].
  - split; [intros f Hf; discriminate Hf|].
    split; [intros c Hc; discriminate Hc|].
    split; [intros e He; discriminate He|discriminate].
  - destruct IH as (IHr & IHx & IHu & IHn).
    set (choice := lower (PyStr.strip ln)).
    destruct (existsb (String.eqb choice) quit_words) eqn:Eq.
    { split; [intros f Hf; discriminate Hf|].
      split; [|split; [intros e He; discriminate He|discriminate]].
      intros code Hc. injection Hc as <-. split; [reflexivity|].
      exists ln. split; [left; reflexivity|].
      apply existsb_exists in Eq. destruct Eq as (w & Hw & Ew).
      apply String.eqb_eq in Ew. fold choice. rewrite Ew. exact Hw. }
    assert (Hrest :
      (forall f, choose_file files stdin = Returns f ->
         In f files /\
         exists ln0 idx, In ln0 (ln :: stdin) /\
           int_of_digits (lower (PyStr.strip ln0)) = Ok idx /\
           (1 <= idx <= Z.of_nat (List.length files))%Z /\ nth_file files idx = Some f) /\
      (forall code, choose_file files stdin = SystemExit code ->
         code = 0%Z /\
         exists ln0, In ln0 (ln :: stdin) /\ In (lower (PyStr.strip ln0)) quit_words) /\
      (forall e, choose_file files stdin = Uncaught e ->
         exists ln0 msg, In ln0 (ln :: stdin) /\
           str_isdigit (lower (PyStr.strip ln0)) = true /\
           int_of_digits (lower (PyStr.strip ln0)) = Raise e /\
           e = ValueError msg /\
           (PyStr.forall_chars PyStr.isdigit (lower (PyStr.strip ln0)) = false \/
            (4300 < Z.of_nat (leading_digits (lower (PyStr.strip ln0))))%Z)) /\
      choose_file files stdin <> NotModelled).
    { split; [|split; [|split; [|exact IHn]]].
      - intros f Hf. destruct (IHr f Hf) as (Hin & l0 & idx & Hl0 & Hrest).
        split; [exact Hin|]. exists l0, idx. split; [right; exact Hl0|exact Hrest].
      - intros code Hc. destruct (IHx code Hc) as (Hcode & l0 & Hl0 & Hrest).
        split; [exact Hcode|]. exists l0. split; [right; exact Hl0|exact Hrest].
      - intros e He. destruct (IHu e He) as (l0 & msg & Hl0 & Hrest).
        exists l0, msg. split; [right; exact Hl0|exact Hrest]. }
    destruct (str_isdigit choice) eqn:Ed; [|exact Hrest].
    destruct (int_of_digits choice) as [idx|e|] eqn:Ei.
    + destruct (in_listing files idx) eqn:El; [|exact Hrest].
      destruct (nth_file_in_listing files _ El) as (f & Hf & Hin).
      rewrite Hf.
      split; [|split; [intros c Hc; discriminate Hc
                      |split; [intros e He; discriminate He|discriminate]]].
      intros f' H. injection H as <-. split; [exact Hin|].
      exists ln, idx.
      split; [left; reflexivity|]. fold choice. split; [exact Ei|].
      unfold in_listing in El. apply andb_true_iff in El.
      destruct El as [E1 E2]. apply Z.leb_le in E1, E2. auto.
    + split; [intros f Hf; discriminate Hf|].
      split; [intros c Hc; discriminate Hc|]. split; [|discriminate].
      intros e' He. injection He as <-.
      unfold int_of_digits, int_max_str_digits in Ei.
      destruct (4300 <? Z.of_nat (leading_digits choice))%Z eqn:Em.
      * injection Ei as <-. eexists ln, _. fold choice.
        split; [left; reflexivity|]. split; [exact Ed|].
        split; [unfold int_of_digits, int_max_str_digits; rewrite Em; reflexivity|].
        split; [reflexivity|]. right. apply Z.ltb_lt, Em.
      * destruct (PyStr.forall_chars PyStr.isdigit choice) eqn:Ea; [discriminate Ei|].
        injection Ei as <-. eexists ln, _. fold choice.
        split; [left; reflexivity|]. split; [exact Ed|].
        split; [unfold int_of_digits, int_max_str_digits; rewrite Em, Ea; reflexivity|].
        split; [reflexivity|]. left. exact Ea.
    + unfold int_of_digits in Ei.
      destruct (_ <? _)%Z; [discriminate Ei|].
      destruct (PyStr.forall_chars PyStr.isdigit choice); discriminate Ei.
Qed.

(** X17, instances: the second file after two rejected lines, and the
    superscript two. *)
Lemma X17_choose_file_outcomes_witness :
  let files := [Path "/in" "a" ".ini"; Path "/in" "b" ".ini"] in
  In (Path "/in" "b" ".ini") files /\
  exists ln, In ln [String "178" ""] /\
    str_isdigit (lower (PyStr.strip ln)) = true /\
    int_of_digits (lower (PyStr.strip ln))
    = Raise (ValueError ("invalid literal for int() with base 10: '"
                         ++ String "178" "" ++ "'")).
Proof.
  intros files.
  destruct (X17_choose_file_outcomes files ["x"; "3"; " 02 "]) as (Hr & _).
  destruct (X17_choose_file_outcomes files [String "178" ""]) as (_ & _ & Hu & _).
  split.
  - apply (Hr (Path "/in" "b" ".ini")). vm_compute. reflexivity.
  - destruct (Hu (ValueError ("invalid literal for int() with base 10: '"
                              ++ String "178" "" ++ "'")))
      as (ln & msg & Hin & H1 & H2 & _); [vm_compute; reflexivity|].
    exists ln. auto.
Defined.

(** A line of 5000 zeros and a one is refused by [int], whatever number it
    denotes. *)
Lemma choose_file_over_limit :
  choose_file [Path "/in" "a" ".ini"]
    [(String.concat "" (repeat "0" (Z.to_nat 5000)) ++ "1")%string]
  = Uncaught (ValueError ("Exceeds the limit (4300 digits) for integer string conversion: "
                          ++ "value has 5001 digits; "
                          ++ "use sys.set_int_max_str_digits() to increase the limit")).
Proof. vm_compute. reflexivity. Qed.

(** ** convert_file and main *)

Lemma kzones_name stem : ((stem ++ "_kzones") ++ ".json")%string = (stem ++ "_kzones.json")%string.
Proof. rewrite append_assoc. reflexivity. Qed.

(** The two ways [convert_file] ends: without a change and without a
    destination, or with the layout written at the destination. *)
Lemma convert_file_cases py_eval fs src outdir :
  (exists r, convert_file py_eval fs src outdir = (fs, r) /\ forall dst, r <> Ok dst) \/
  (exists text zones,
      read_text fs src = Ok text /\
      convert py_eval (parse_groups text) = Ok zones /\
      convert_file py_eval fs src outdir =
      (FS (<[(outdir ++ "/" ++ p_stem src ++ "_kzones.json")%string :=
               Json [Layout (p_stem src ++ " (converted)") 0 zones]]> (files fs))
          ({[outdir]} ∪ dirs fs),
       Ok (Path outdir (p_stem src ++ "_kzones") ".json"))).
Proof.
  unfold convert_file. unfold_bind.
  destruct (read_text fs src) as [text| |] eqn:Er;
    [|left; eexists; split; [reflexivity|discriminate]..].
  destruct (convert py_eval (parse_groups text)) as [zones| |] eqn:Ec;
    [|left; eexists; split; [reflexivity|discriminate]..].
  right. exists text, zones. split; [reflexivity|]. split; [exact Ec|].
  unfold path_str, make_layout. cbn [p_parent p_stem p_suffix].
  rewrite kzones_name. reflexivity.
Qed.

(** X18. Take a file system where the root is a directory, the path of
    the output directory is not a regular file and the destination is not
    a directory, so that [mkdir] makes the output directory at most and
    [write_text] goes through. After a successful conversion into the
    output directory, with a destination that is not the source file
    itself, no file but the destination has changed, the directories are
    those of before and the output directory, and converting again gives
    the same destination and leaves the file system as the first run left
    it. *)
Theorem X18_convert_file_again py_eval fs root src fs' dst :
  root ∈ dirs fs ->
  files fs !! output_dir root = None ->
  path_str (Path (output_dir root) (p_stem src ++ "_kzones") ".json") ∉ dirs fs ->
  convert_file py_eval fs src (output_dir root) = (fs', Ok dst) ->
  path_str src <> path_str dst ->
  (forall p, p <> path_str dst -> files fs' !! p = files fs !! p) /\
  dirs fs' = {[output_dir root]} ∪ dirs fs /\
  convert_file py_eval fs' src (output_dir root) = (fs', Ok dst).
Proof.
  intros _ _ _ H Hne. set (outdir := output_dir root) in *.
  destruct (convert_file_cases py_eval fs src outdir)
    as [(r & E & Hr)|(text & zones & Er & Ec & E)]; rewrite E in H.
  - injection H as _ ->. destruct (Hr dst eq_refl).
  - injection H as <- <-.
    assert (Edst : path_str (Path outdir (p_stem src ++ "_kzones") ".json")
                   = (outdir ++ "/" ++ p_stem src ++ "_kzones.json")%string).
    { unfold path_str. cbn [p_parent p_stem p_suffix]. rewrite kzones_name. reflexivity. }
    rewrite Edst in Hne |- *. cbn [files dirs].
    assert (Hframe : forall p, p <> (outdir ++ "/" ++ p_stem src ++ "_kzones.json")%string ->
      <[(outdir ++ "/" ++ p_stem src ++ "_kzones.json")%string :=
          Json [Layout (p_stem src ++ " (converted)") 0 zones]]> (files fs) !! p
      = files fs !! p).
    { intros p Hp. apply lookup_insert_ne. congruence. }
    split; [exact Hframe|]. split; [reflexivity|].
    unfold convert_file, read_text. cbn [files dirs].
    rewrite (Hframe _ Hne).
    unfold read_text in Er. rewrite Er. unfold_bind. rewrite Ec.
    rewrite Edst. unfold make_layout. rewrite insert_insert_eq.
    assert (Ed : {[outdir]} ∪ ({[outdir]} ∪ dirs fs) = {[outdir]} ∪ dirs fs)
      by (apply set_eq; intros d; rewrite !elem_of_union; tauto).
    rewrite Ed. reflexivity.
Qed.

(** X18, an instance: a grid file converted twice. *)
Lemma X18_convert_file_again_witness :
  let fs := FS {[ "/r/01-paste-grids-here/g.ini" :=
                    Text (lines ["[1]"; "GridLeft=0"; "GridRight=50";
                                 "GridTop=0"; "GridBottom=50"]) ]}
               {[ "/r"; "/r/01-paste-grids-here" ]} in
  let src := Path "/r/01-paste-grids-here" "g" ".ini" in
  let fs' := fst (convert_file PyEval.py_eval fs src (output_dir "/r")) in
  dirs fs' = {[output_dir "/r"]} ∪ dirs fs /\
  convert_file PyEval.py_eval fs' src (output_dir "/r")
  = (fs', Ok (Path "/r/03-kzone-output" "g_kzones" ".json")).
Proof.
  intros fs src fs'.
  apply (X18_convert_file_again PyEval.py_eval fs "/r" src).
  - apply elem_of_union. left. apply elem_of_singleton. reflexivity.
  - reflexivity.
  - intros H. apply elem_of_union in H.
    destruct H as [H|H]; apply elem_of_singleton in H; vm_compute in H; discriminate H.
  - vm_compute. reflexivity.
  - vm_compute. discriminate.
Defined.

Lemma choose_file_exit_code files stdin code :
  choose_file files stdin = SystemExit code -> code = 0%Z.
Proof.
  induction stdin as [|ln stdin IH]; cbn [choose_file]; [discriminate|].
  destruct (existsb _ quit_words); [intros [= <-]; reflexivity|].
  destruct (str_isdigit _); [|exact IH].
  destruct (int_of_digits _) as [idx| |]; try discriminate.
  destruct (in_listing files idx); [|exact IH].
  destruct (nth_file files idx); discriminate.
Qed.

Section MainFacts.

Variable py_eval : string -> gmap string Q -> result Q.
Variable resolve_file : string -> path.

(** The call at the end of [main] changes nothing unless it returns, and
    then one layout is written. *)
Lemma run_convert_file_cases fs src outdir :
  (exists t, run_convert_file py_eval fs src outdir = (fs, t) /\ t <> Returns tt /\
             forall c, exit_status t = Some c -> c = 1%Z) \/
  (exists zones,
      run_convert_file py_eval fs src outdir =
      (FS (<[(outdir ++ "/" ++ p_stem src ++ "_kzones.json")%string :=
               Json [Layout (p_stem src ++ " (converted)") 0 zones]]> (files fs))
          ({[outdir]} ∪ dirs fs),
       Returns tt)).
Proof.
  unfold run_convert_file.
  destruct (_ || _ || _).
  { left. exists NotModelled. split; [reflexivity|]. split; discriminate. }
  destruct (convert_file_cases py_eval fs src outdir)
    as [(r & E & Hr)|(text & zones & _ & _ & E)]; rewrite E.
  - left. destruct r as [dst|e|].
    + destruct (Hr dst eq_refl).
    + exists (Uncaught e). split; [reflexivity|]. split; [discriminate|].
      intros c [= <-]. reflexivity.
    + exists NotModelled. split; [reflexivity|]. split; discriminate.
  - right. exists zones. reflexivity.
Qed.

(** [main] ends in the call of [convert_file] on some source, or ends
    before it without a change. *)
Lemma main_listing_cases root args stdin fs :
  (exists src, main_listing py_eval root args stdin fs
               = run_convert_file py_eval fs src (output_dir root)) \/
  (exists t, main_listing py_eval root args stdin fs = (fs, t) /\
             t <> Returns tt /\
             forall c, exit_status t = Some c -> c = 0%Z \/ c = 1%Z).
Proof.
  assert (Hstop : forall (t : termination unit),
    t <> Returns tt -> (forall c, exit_status t = Some c -> c = 0%Z \/ c = 1%Z) ->
    exists t', (fs, t) = (fs, t') /\ t' <> Returns tt /\
               forall c, exit_status t' = Some c -> c = 0%Z \/ c = 1%Z).
  { intros t H1 H2. exists t. auto. }
  unfold main_listing.
  destruct (find_ini_files fs (input_dir root)) as [|f files] eqn:Ef.
  { right. apply Hstop; [discriminate|]. intros c [= <-]. right. reflexivity. }
  destruct (ns_index args) as [idx|].
  - destruct (negb (in_listing (f :: files) idx)).
    { right. apply Hstop; [discriminate|]. intros c [= <-]. right. reflexivity. }
    destruct (nth_file (f :: files) idx) as [src|]; [left; eauto|].
    right. apply Hstop; discriminate.
  - destruct (choose_file (f :: files) stdin) as [src|code|e| |] eqn:Ec.
    + left. eauto.
    + right. apply Hstop; [discriminate|]. intros c [= <-].
      left. apply (choose_file_exit_code _ _ _ Ec).
    + right. apply Hstop; [discriminate|]. intros c [= <-]. right. reflexivity.
    + right. apply Hstop; [discriminate|]. intros c [= <-]. right. reflexivity.
    + right. apply Hstop; discriminate.
Qed.

Lemma main_cases root args stdin fs :
  (exists src, main py_eval resolve_file root args stdin fs
               = run_convert_file py_eval fs src (output_dir root)) \/
  (exists t, main py_eval resolve_file root args stdin fs = (fs, t) /\
             t <> Returns tt /\
             forall c, exit_status t = Some c -> c = 0%Z \/ c = 1%Z).
Proof.
  unfold main. destruct (ns_file args) as [f|]; [|apply main_listing_cases].
  destruct (PyStr.is_empty f); [apply main_listing_cases|].
  destruct (negb (path_exists fs (resolve_file f))).
  - right. exists (SystemExit 1). split; [reflexivity|]. split; [discriminate|].
    intros c [= <-]. right. reflexivity.
  - left. eauto.
Qed.

End MainFacts.

(** X19. [main] exits with status 1 and leaves the file system as it was
    when the target of [--file] does not exist, when the input directory
    holds no file and no [--file] is given, and when [--index] is below 1
    or above the number of files found. *)
Theorem X19_main_exit_1 py_eval resolve_file root (args : namespace) stdin fs :
  (forall f, ns_file args = Some f -> PyStr.is_empty f = false ->
             path_exists fs (resolve_file f) = false ->
             main py_eval resolve_file root args stdin fs = (fs, SystemExit 1)) /\
  ((ns_file args = None \/ ns_file args = Some "") ->
   (forall name, ~ in_dir fs (input_dir root) name) ->
   main py_eval resolve_file root args stdin fs = (fs, SystemExit 1)) /\
  (forall idx, (ns_file args = None \/ ns_file args = Some "") ->
     ns_index args = Some idx ->
     (idx < 1 \/ Z.of_nat (List.length (find_ini_files fs (input_dir root))) < idx)%Z ->
     main py_eval resolve_file root args stdin fs = (fs, SystemExit 1)).
Proof.
  split; [|split].
  - intros f Hf Hne Hex. unfold main. rewrite Hf, Hne, Hex. reflexivity.
  - intros Hfile Hnone. apply find_ini_files_nil in Hnone.
    unfold main, main_listing. rewrite Hnone.
    destruct Hfile as [-> | ->]; reflexivity.
  - intros idx Hfile Hidx Hout.
    assert (Ein : in_listing (find_ini_files fs (input_dir root)) idx = false).
    { unfold in_listing. apply andb_false_iff.
      destruct Hout as [H|H]; [left; apply Z.leb_gt, H|right; apply Z.leb_gt, H]. }
    unfold main, main_listing. rewrite Hidx, Ein.
    destruct Hfile as [-> | ->]; cbn [PyStr.is_empty negb];
      destruct (find_ini_files fs (input_dir root)); reflexivity.
Qed.

(** X19, instances: an empty file system, and the index 3 with two files. *)
Lemma X19_main_exit_1_witness :
  let fs := FS {[ "/r/01-paste-grids-here/a.ini" := Text "";
                  "/r/01-paste-grids-here/b.ini" := Text "" ]} ∅ in
  let resolve := fun f => Path "/cwd" f "" in
  main PyEval.py_eval resolve "/r" (Namespace None (Some "x.ini")) [] fs
    = (fs, SystemExit 1) /\
  main PyEval.py_eval resolve "/r" (Namespace None None) ["1"] (FS ∅ ∅)
    = (FS ∅ ∅, SystemExit 1) /\
  main PyEval.py_eval resolve "/r" (Namespace (Some 3%Z) None) [] fs
    = (fs, SystemExit 1).
Proof.
  intros fs resolve.
  split; [|split].
  - apply (X19_main_exit_1 PyEval.py_eval resolve "/r" (Namespace None (Some "x.ini")) [] fs
             ) with (f := "x.ini"); vm_compute; reflexivity.
  - apply (X19_main_exit_1 PyEval.py_eval resolve "/r" (Namespace None None) ["1"] (FS ∅ ∅)).
    + left. reflexivity.
    + intros name ([c Hc] & _). cbn [files] in Hc. rewrite lookup_empty in Hc.
      discriminate Hc.
  - apply (X19_main_exit_1 PyEval.py_eval resolve "/r" (Namespace (Some 3%Z) None) [] fs
             ) with (idx := 3%Z).
    + left. reflexivity.
    + reflexivity.
    + right. vm_compute. reflexivity.
Defined.

(** X20. [main] changes no path of the file system but the destination,
    a file named [<stem>_kzones.json] in the output directory of the root,
    and creates no directory but the output directory. *)
Theorem X20_main_touches_only_the_destination py_eval resolve_file root
    (args : namespace) stdin fs :
  (forall p, (forall stem, p <> (output_dir root ++ "/" ++ stem ++ "_kzones.json")%string) ->
     files (fst (main py_eval resolve_file root args stdin fs)) !! p = files fs !! p) /\
  (forall d, d ∈ dirs (fst (main py_eval resolve_file root args stdin fs)) ->
     d = output_dir root \/ d ∈ dirs fs).
Proof.
  destruct (main_cases py_eval resolve_file root args stdin fs)
    as [(src & ->)|(t & -> & _)]; [|split; [reflexivity|auto]].
  destruct (run_convert_file_cases py_eval fs src (output_dir root))
    as [(t & -> & _)|(zones & ->)]; [split; [reflexivity|auto]|].
  cbn [fst files dirs]. split.
  - intros p Hp. apply lookup_insert_ne. intros E. apply (Hp (p_stem src)).
    symmetry. exact E.
  - intros d Hd. apply elem_of_union in Hd. destruct Hd as [Hd|Hd]; [|right; exact Hd].
    left. apply elem_of_singleton in Hd. exact Hd.
Qed.

(** X20, an instance: the input file after a conversion with [--index 1]. *)
Lemma X20_main_touches_only_the_destination_witness :
  let text := Text (lines ["[1]"; "GridLeft=0"; "GridRight=50"; "GridTop=0"; "GridBottom=50"]) in
  let fs := FS {[ "/r/01-paste-grids-here/a.ini" := text ]} ∅ in
  files (fst (main PyEval.py_eval (fun f => Path "/cwd" f "") "/r"
                (Namespace (Some 1%Z) None) [] fs)) !! "/r/01-paste-grids-here/a.ini"
  = files fs !! "/r/01-paste-grids-here/a.ini".
Proof.
  intros text fs.
  apply (X20_main_touches_only_the_destination PyEval.py_eval
           (fun f => Path "/cwd" f "") "/r" (Namespace (Some 1%Z) None) [] fs).
  intros stem E. vm_compute in E. discriminate E.
Defined.



Lemma isdigit_isdigit_char (s : string) :
  PyStr.forall_chars PyStr.isdigit s = true -> PyStr.forall_chars isdigit_char s = true.
Proof.
  induction s as [|c s IH]; cbn [PyStr.forall_chars]; [reflexivity|].
  intros H. apply andb_true_iff in H. destruct H as [Hc Hs].
  apply andb_true_iff. split; [|apply IH, Hs].
  unfold isdigit_char. rewrite Hc. reflexivity.
Qed.

Lemma quit_words_no_number (s : string) :
  PyStr.forall_chars PyStr.isdigit s = true -> existsb (String.eqb s) quit_words = false.
Proof.
  intros H. destruct (existsb (String.eqb s) quit_words) eqn:E; [|reflexivity].
  apply existsb_exists in E. destruct E as (w & Hw & Ew).
  apply String.eqb_eq in Ew. subst w.
  cbn [In quit_words] in Hw.
  destruct Hw as [<-|[<-|[<-|[]]]]; vm_compute in H; discriminate H.
Qed.

(** X22. A line of decimal digits that [int] reads (at most 4300 of
    them), typed at the picker with blanks around it or not, does what
    [--index] does with the number it denotes, when that number is within
    the listing: the lines after it are not read. *)
Theorem X22_typed_number_is_index py_eval resolve_file root
    (ln : string) (stdin stdin' : list string) (idx : Z) fs :
  int_of_digits (lower (PyStr.strip ln)) = Ok idx ->
  in_listing (find_ini_files fs (input_dir root)) idx = true ->
  main py_eval resolve_file root (Namespace None None) (ln :: stdin) fs
  = main py_eval resolve_file root (Namespace (Some idx) None) stdin' fs.
Proof.
  intros Hint Hin.
  unfold main, main_listing. cbn [ns_file ns_index].
  destruct (find_ini_files fs (input_dir root)) as [|f files] eqn:Ef.
  { unfold in_listing in Hin. cbn [List.length] in Hin.
    apply andb_true_iff in Hin. destruct Hin as [H1 H2].
    apply Z.leb_le in H1, H2. lia. }
  rewrite Hin. cbn [negb choose_file].
  pose proof Hint as Hint'.
  unfold int_of_digits in Hint.
  destruct (_ <? _)%Z; [discriminate Hint|].
  destruct (PyStr.forall_chars PyStr.isdigit (lower (PyStr.strip ln))) eqn:Ed;
    [|discriminate Hint].
  rewrite (quit_words_no_number _ Ed).
  assert (Es : str_isdigit (lower (PyStr.strip ln)) = true).
  { unfold str_isdigit. rewrite (isdigit_isdigit_char _ Ed), andb_true_r.
    destruct (lower (PyStr.strip ln)) as [|c s]; [|reflexivity].
    injection Hint as <-. unfold in_listing in Hin.
    apply andb_true_iff in Hin. destruct Hin as [H1 _].
    apply Z.leb_le in H1. cbn in H1. lia. }
  rewrite Es, Hint', Hin.
  destruct (nth_file (f :: files) idx); reflexivity.
Qed.

(** X22, an instance: [" 2 "] at the picker and [--index 2]. *)
Lemma X22_typed_number_is_index_witness :
  let text := Text (lines ["[1]"; "GridLeft=0"; "GridRight=50"; "GridTop=0"; "GridBottom=50"]) in
  let fs := FS {[ "/r/01-paste-grids-here/a.ini" := Text "";
                  "/r/01-paste-grids-here/b.txt" := text ]} ∅ in
  main PyEval.py_eval (fun f => Path "/cwd" f "") "/r" (Namespace None None) [" 2 "; "q"] fs
  = main PyEval.py_eval (fun f => Path "/cwd" f "") "/r" (Namespace (Some 2%Z) None) [] fs.
Proof.
  intros text fs.
  apply (X22_typed_number_is_index PyEval.py_eval (fun f => Path "/cwd" f "") "/r"
           " 2 " ["q"] [] 2%Z fs); vm_compute; reflexivity.
Defined.
